(** * GridNet: patch-grid prediction and its training loop

    A shallow embedding of [src/gridnet_patches.py].

    Tensors are a shape (a list of Python integers) together with the
    row-major list of their elements.  Python integers are [Z].  Code that
    can raise returns an [outcome]; the [while] loop of
    [GridNet.patch_predictions] is run on fuel, and running out of it is the
    third outcome, [Diverge]. *)

From Stdlib Require Import Ascii String QArith ZArith List Bool Lia.
Import ListNotations.
Open Scope Z_scope.

Set Implicit Arguments.

(* ================================================================== *)
(** * Part I: definitions *)
(* ================================================================== *)

(** ** Results of fallible code *)

Inductive error : Set :=
| RuntimeError        (* torch shape and size errors *)
| IndexError          (* index or mask out of range *)
| AssertionError      (* a failed [assert] *)
| ZeroDivisionError   (* integer [%] by zero *)
| AttributeError      (* e.g. [.double()] on a Python int *)
| ValueError.         (* e.g. one value per channel in a training batch norm *)

Inductive outcome (A : Type) : Type :=
| Ok (a : A)
| Raise (e : error)
| Diverge.

Arguments Ok {A} a.
Arguments Raise {A} e.
Arguments Diverge {A}.

Definition bind {A B : Type} (c : outcome A) (k : A -> outcome B) : outcome B :=
  match c with
  | Ok a => k a
  | Raise e => Raise e
  | Diverge => Diverge
  end.

Notation "x <- c ;; k" := (bind c (fun x => k))
  (at level 61, c at next level, right associativity).

(** ** Tensors *)

Record tensor (A : Type) : Type := mkTensor {
  shape : list Z;
  data : list A
}.

Arguments mkTensor {A} shape data.

Definition prod (dims : list Z) : Z := fold_right Z.mul 1 dims.

Definition sum (xs : list Z) : Z := fold_right Z.add 0 xs.

Definition numel {A} (t : tensor A) : Z := Z.of_nat (length (data t)).

(** Python's [len(t)]: the size of the first dimension. *)
Definition len {A} (t : tensor A) : Z := hd 0 (shape t).

Fixpoint shape_eqb (a b : list Z) : bool :=
  match a, b with
  | [], [] => true
  | x :: a', y :: b' => (x =? y) && shape_eqb a' b'
  | _, _ => false
  end.

Module torch.

(** [torch.reshape(x, (-1,) + dims)]: the leading dimension is inferred.
    A negative entry in [dims] (a second [-1] included) is refused, and so is
    a zero product of [dims], for which the inferred size is ambiguous. *)
Definition reshape {A} (x : tensor A) (dims : list Z) : outcome (tensor A) :=
  if existsb (fun d => d <? 0) dims then Raise RuntimeError
  else
    let newsize := prod dims in
    if (0 <? newsize) && (numel x mod newsize =? 0)
    then Ok (mkTensor (numel x / newsize :: dims) (data x))
    else Raise RuntimeError.

(** [t.narrow(0, start, length)]: the slice [start, start + length) of the
    first dimension.  A negative [start] counts from the end. *)
Definition narrow {A} (t : tensor A) (start length : Z) : outcome (tensor A) :=
  match shape t with
  | [] => Raise RuntimeError
  | d0 :: rest =>
      if length <? 0 then Raise RuntimeError
      else if (start <? - d0) || (d0 <? start) then Raise IndexError
      else
        let start' := if start <? 0 then start + d0 else start in
        if d0 - length <? start' then Raise RuntimeError
        else
          let p := prod rest in
          Ok (mkTensor (length :: rest)
                (firstn (Z.to_nat (length * p))
                   (skipn (Z.to_nat (start' * p)) (data t))))
  end.

(** [torch.cat(ts, 0)]: refuses the empty list and tensors whose trailing
    dimensions differ. *)
Definition cat {A} (ts : list (tensor A)) : outcome (tensor A) :=
  match ts with
  | [] => Raise RuntimeError
  | t :: _ =>
      if forallb (fun u => match shape u with
                           | [] => false
                           | _ :: r => shape_eqb r (tl (shape t))
                           end) ts
      then Ok (mkTensor (sum (map len ts) :: tl (shape t))
                 (concat (map (@data A) ts)))
      else Raise RuntimeError
  end.

(** Row-major strides, multi-indices and offsets, on [nat]. *)
Fixpoint strides (dims : list nat) : list nat :=
  match dims with
  | [] => []
  | _ :: ds => fold_right Nat.mul 1%nat ds :: strides ds
  end.

Fixpoint indices (dims : list nat) : list (list nat) :=
  match dims with
  | [] => [[]]
  | d :: ds => flat_map (fun i => map (cons i) (indices ds)) (seq 0 d)
  end.

Fixpoint offset (strd idx : list nat) : nat :=
  match strd, idx with
  | s :: strd', i :: idx' => (i * s + offset strd' idx')%nat
  | _, _ => 0%nat
  end.

Definition is_permutation (perm : list nat) (n : nat) : bool :=
  (length perm =? n)%nat
  && forallb (fun k => existsb (Nat.eqb k) perm) (seq 0 n).

(** [t.permute(perm)]: element [j] of the result is element [i] of [t]
    with [i[perm[k]] = j[k]]. *)
Definition permute {A} (t : tensor A) (perm : list nat) : outcome (tensor A) :=
  if is_permutation perm (length (shape t)) then
    let sh := map Z.to_nat (shape t) in
    let st := strides sh in
    let sh' := map (fun a => nth a sh 0%nat) perm in
    let st' := map (fun a => nth a st 0%nat) perm in
    Ok (mkTensor (map (fun a => nth a (shape t) 0) perm)
          (flat_map (fun idx => match nth_error (data t) (offset st' idx) with
                                | Some v => [v]
                                | None => []
                                end) (indices sh')))
  else Raise RuntimeError.

(** Element of [t] at a multi-index. *)
Definition at_ {A} (t : tensor A) (idx : list nat) : option A :=
  nth_error (data t) (offset (strides (map Z.to_nat (shape t))) idx).

(** [torch.max(x)] over all elements; an empty tensor is refused. *)
Definition max (x : tensor Z) : outcome Z :=
  match data x with
  | [] => Raise RuntimeError
  | v :: vs => Ok (fold_left Z.max vs v)
  end.

(** [torch.zeros(dims)]. *)
Definition zeros {A} (zero : A) (dims : list Z) : tensor A :=
  mkTensor dims (repeat zero (Z.to_nat (prod dims))).

(** [x.unsqueeze(0)]. *)
Definition unsqueeze0 {A} (x : tensor A) : tensor A :=
  mkTensor (1 :: shape x) (data x).

End torch.

(** ** The corrector networks *)

Inductive layer : Set :=
| Conv2d (in_channels out_channels kernel_size padding : Z)
| HexConv2d (in_channels out_channels kernel_size stride : Z) (bias : bool)
| BatchNorm2d (num_features : Z)
| ReLU.

(** [GridNet._init_corrector]. *)
Definition _init_corrector (n_classes : Z) (use_bn : bool) : list layer :=
  let cnn_layers := [] in
  let cnn_layers := cnn_layers ++ [Conv2d n_classes n_classes 3 1] in
  let cnn_layers := if use_bn then cnn_layers ++ [BatchNorm2d n_classes] else cnn_layers in
  let cnn_layers := cnn_layers ++ [ReLU] in
  let cnn_layers := cnn_layers ++ [Conv2d n_classes n_classes 5 2] in
  let cnn_layers := if use_bn then cnn_layers ++ [BatchNorm2d n_classes] else cnn_layers in
  let cnn_layers := cnn_layers ++ [ReLU] in
  let cnn_layers := cnn_layers ++ [Conv2d n_classes n_classes 5 2] in
  let cnn_layers := if use_bn then cnn_layers ++ [BatchNorm2d n_classes] else cnn_layers in
  let cnn_layers := cnn_layers ++ [ReLU] in
  let cnn_layers := cnn_layers ++ [Conv2d n_classes n_classes 3 1] in
  cnn_layers.

Module GridNetHex.

(** [GridNetHex._init_corrector]. *)
Definition _init_corrector (n_classes : Z) (use_bn : bool) : list layer :=
  let cnn_layers := [] in
  let cnn_layers := cnn_layers ++ [HexConv2d n_classes 32 1 1 true] in
  let cnn_layers := cnn_layers ++ [HexConv2d 32 32 1 1 true] in
  let cnn_layers := if use_bn then cnn_layers ++ [BatchNorm2d n_classes] else cnn_layers in
  let cnn_layers := cnn_layers ++ [ReLU] in
  let cnn_layers := cnn_layers ++ [HexConv2d 32 32 1 1 true] in
  let cnn_layers := cnn_layers ++ [HexConv2d 32 32 1 1 true] in
  let cnn_layers := if use_bn then cnn_layers ++ [BatchNorm2d n_classes] else cnn_layers in
  let cnn_layers := cnn_layers ++ [ReLU] in
  let cnn_layers := cnn_layers ++ [HexConv2d 32 n_classes 1 1 true] in
  cnn_layers.

End GridNetHex.

(** ** GridNet *)

(** A parameter of a module, as far as this file looks at it. *)
Record parameter : Set := mkParameter { requires_grad : bool }.

(** The patch classifier is a collaborator: a callable from a batch of
    patches to a batch of scores, with named parameters. *)
Record classifier (score : Type) : Type := mkClassifier {
  call : tensor Z -> tensor score;
  named_parameters : list (string * parameter)
}.

(** The auxiliary tensor threaded through checkpointed calls. *)
Record aux_tensor : Set := mkAux { aux_requires_grad : bool }.

Record GridNet (score : Type) : Type := mkGridNet {
  patch_shape : list Z;
  grid_shape : list Z;
  n_classes : Z;
  patch_classifier : classifier score;
  use_bn : bool;
  atonce_patch_limit : option Z;
  corrector : list layer;
  bg_const : tensor score;
  dummy_tensor : aux_tensor;
  module_training : bool      (* [self.training], of [nn.Module] *)
}.

(** [GridNet.__init__]. *)
Definition GridNet_init {score} (zero : score) (pc : classifier score)
    (patch_shape grid_shape : list Z) (n_classes : Z) (use_bn : bool)
    (atonce_patch_limit : option Z) : GridNet score :=
  mkGridNet patch_shape grid_shape n_classes pc use_bn atonce_patch_limit
    (_init_corrector n_classes use_bn)
    (torch.zeros zero [1; n_classes])
    (mkAux true)
    true.

(** [GridNetHex.__init__]: the same, with the corrector of the subclass. *)
Definition GridNetHex_init {score} (zero : score) (pc : classifier score)
    (patch_shape grid_shape : list Z) (n_classes : Z) (use_bn : bool)
    (atonce_patch_limit : option Z) : GridNet score :=
  mkGridNet patch_shape grid_shape n_classes pc use_bn atonce_patch_limit
    (GridNetHex._init_corrector n_classes use_bn)
    (torch.zeros zero [1; n_classes])
    (mkAux true)
    true.

(** [nn.Module.train(mode)]; [eval()] is [train(False)]. *)
Definition module_train {score} (self : GridNet score) (mode : bool) : GridNet score :=
  mkGridNet (patch_shape self) (grid_shape self) (n_classes self)
    (patch_classifier self) (use_bn self) (atonce_patch_limit self)
    (corrector self) (bg_const self) (dummy_tensor self) mode.

(** [GridNet.foreground_classifier]. *)
Definition foreground_classifier {score} (self : GridNet score) (x : tensor Z)
  : outcome (tensor score) :=
  m <- torch.max x ;;
  if m =? 0 then Ok (bg_const self)
  else Ok (call (patch_classifier self) (torch.unsqueeze0 x)).

(** One invocation of [_ppl]: whether it went through [cp.checkpoint],
    and what it received as [dummy_arg]. *)
Record ppl_call : Set := mkCall {
  checkpointed : bool;
  dummy_arg_of : option aux_tensor
}.

(** [GridNet._ppl]: the assertion, then the classification.  The
    invocation is recorded where it happens: [_ppl] returns, beside the
    scores, the [dummy_arg] it was called with. *)
Definition _ppl {score} (self : GridNet score) (patch_list : tensor Z)
    (dummy_arg : option aux_tensor) : outcome (tensor score * ppl_call) :=
  match dummy_arg with
  | None => Raise AssertionError
  | Some _ => Ok (call (patch_classifier self) patch_list, mkCall false dummy_arg)
  end.

(** [cp.checkpoint(f, a, b)]: in the forward pass [f(a, b)], the
    invocation of [f] being one made through the checkpoint. *)
Definition checkpoint {A B C} (f : A -> B -> outcome (C * ppl_call)) (a : A) (b : B)
  : outcome (C * ppl_call) :=
  r <- f a b ;;
  Ok (fst r, mkCall true (dummy_arg_of (snd r))).

(** [any(p.requires_grad for _, p in named_parameters())]. *)
Definition any_requires_grad {score} (pc : classifier score) : bool :=
  existsb (fun np => requires_grad (snd np)) (named_parameters pc).

(** State of the chunking loop: the counter, the chunks classified so
    far, and the invocations of [_ppl] made for them, in order. *)
Record chunk_state (score : Type) : Type := mkChunkState {
  count : Z;
  cp_chunks : list (tensor score);
  calls : list ppl_call
}.

(** The body of the [while] loop of [patch_predictions]. *)
Definition chunk_body {score} (self : GridNet score) (limit : Z)
    (patch_list : tensor Z) (st : chunk_state score)
  : outcome (chunk_state score) :=
  let length := Z.min limit (len patch_list - count st) in
  tmp <- torch.narrow patch_list (count st) length ;;
  chunk <- (if any_requires_grad (patch_classifier self)
            then checkpoint (_ppl self) tmp (Some (dummy_tensor self))
            else _ppl self tmp (Some (dummy_tensor self))) ;;
  Ok (mkChunkState (count st + limit) (cp_chunks st ++ [fst chunk])
        (calls st ++ [snd chunk])).

(** [while count < len(patch_list): ...] on fuel. *)
Fixpoint chunk_loop {score} (fuel : nat) (self : GridNet score) (limit : Z)
    (patch_list : tensor Z) (st : chunk_state score)
  : outcome (chunk_state score) :=
  if count st <? len patch_list then
    match fuel with
    | O => Diverge
    | S fuel' =>
        st' <- chunk_body self limit patch_list st ;;
        chunk_loop fuel' self limit patch_list st'
    end
  else Ok st.

(** The classification stage of [patch_predictions]: the flat prediction
    list and the record of [_ppl] invocations. *)
Definition classify_patches {score} (fuel : nat) (self : GridNet score)
    (patch_list : tensor Z) : outcome (tensor score * list ppl_call) :=
  match atonce_patch_limit self with
  | None =>
      r <- _ppl self patch_list (Some (dummy_tensor self)) ;;
      Ok (fst r, [snd r])
  | Some limit =>
      st <- chunk_loop fuel self limit patch_list (mkChunkState 0 [] []) ;;
      r <- torch.cat (cp_chunks st) ;;
      Ok (r, calls st)
  end.

(** [GridNet.patch_predictions], with the record of [_ppl] invocations. *)
Definition patch_predictions_traced {score} (fuel : nat) (self : GridNet score)
    (x : tensor Z) : outcome (tensor score * list ppl_call) :=
  patch_list <- torch.reshape x (patch_shape self) ;;
  rc <- classify_patches fuel self patch_list ;;
  patch_pred_grid <- torch.reshape (fst rc) (grid_shape self ++ [n_classes self]) ;;
  patch_pred_grid <- torch.permute patch_pred_grid [0; 3; 1; 2]%nat ;;
  Ok (patch_pred_grid, snd rc).

(** The loop needs no more iterations than there are patches as soon as
    the limit is positive, so the element count of the input is fuel enough
    for [patch_predictions] (see [chunk_loop_fuel_enough],
    [chunk_loop_limit_zero] and [patch_predictions_diverges_only_at_zero]). *)
Definition patch_predictions {score} (self : GridNet score) (x : tensor Z)
  : outcome (tensor score) :=
  r <- patch_predictions_traced (Z.to_nat (numel x)) self x ;;
  Ok (fst r).

(** ** The corrector networks, on shapes *)

(** What a layer does to the channel count of a (batch, channels, h, w)
    tensor.  A convolution refuses an input whose channel count is not its
    [in_channels]; batch normalization refuses one whose channel count is
    not its [num_features].  This is the check on the channels alone; the
    checks of a layer on the whole shape are [layer_shape]. *)
Definition layer_channels (l : layer) (c : Z) : outcome Z :=
  match l with
  | Conv2d i o _ _ => if c =? i then Ok o else Raise RuntimeError
  | HexConv2d i o _ _ _ => if c =? i then Ok o else Raise RuntimeError
  | BatchNorm2d f => if c =? f then Ok c else Raise RuntimeError
  | ReLU => Ok c
  end.

(** [nn.Sequential] over the layers, on the channel count. *)
Fixpoint sequential_channels (layers : list layer) (c : Z) : outcome Z :=
  match layers with
  | [] => Ok c
  | l :: rest => c' <- layer_channels l c ;; sequential_channels rest c'
  end.

(** The channel counts seen by each layer of a stack, in order, as far as
    the stack accepts its input. *)
Fixpoint channels_seen (layers : list layer) (c : Z) : list (layer * Z) :=
  match layers with
  | [] => []
  | l :: rest =>
      (l, c) :: match layer_channels l c with
                | Ok c' => channels_seen rest c'
                | _ => []
                end
  end.

(** Output size of a convolution of stride 1 along one axis. *)
Definition conv_out_size (size kernel_size padding : Z) : Z :=
  size + 2 * padding - kernel_size + 1.

(** The values per channel of a (batch, channels, ...) shape: the
    [size_prods] of [_verify_batch_size]. *)
Definition values_per_channel (sh : list Z) : Z := hd 0 sh * prod (skipn 2 sh).

(** What a layer does to the shape of its input, in a module in training
    mode or not.  Patch predictions have four dimensions, and the layers
    keep them four.
    - [Conv2d] (stride 1): the channel check, and a kernel that fits the
      padded input; height and width become [conv_out_size].
    - [hexagdly.Conv2d], built with stride 1 here: the channel check;
      height and width stay.
    - [BatchNorm2d]: in training mode [F.batch_norm] first refuses, with a
      [ValueError], an input with a single value per channel; then the
      channel check against the statistics kept for [num_features]
      channels. *)
Definition layer_shape (training : bool) (l : layer) (sh : list Z)
  : outcome (list Z) :=
  match sh with
  | [b; c; h; w] =>
      match l with
      | Conv2d _ _ k p =>
          c' <- layer_channels l c ;;
          if (conv_out_size h k p <? 1) || (conv_out_size w k p <? 1)
          then Raise RuntimeError
          else Ok [b; c'; conv_out_size h k p; conv_out_size w k p]
      | HexConv2d _ _ _ _ _ =>
          c' <- layer_channels l c ;; Ok [b; c'; h; w]
      | BatchNorm2d _ =>
          if training && (values_per_channel sh =? 1) then Raise ValueError
          else (c' <- layer_channels l c ;; Ok [b; c'; h; w])
      | ReLU => Ok sh
      end
  | _ =>
      match l with
      | BatchNorm2d _ => Raise ValueError
      | ReLU => Ok sh
      | _ => Raise RuntimeError
      end
  end.

(** [nn.Sequential] over the layers, on the shape. *)
Fixpoint sequential_shape (training : bool) (layers : list layer) (sh : list Z)
  : outcome (list Z) :=
  match layers with
  | [] => Ok sh
  | l :: rest => sh' <- layer_shape training l sh ;; sequential_shape training rest sh'
  end.

(** [GridNet.forward]: the corrector applied to the patch predictions.
    What a layer computes is the tensor library's; [apply_layer] stands
    for it.  [model.train()] and [model.eval()] set the mode of the
    module and of its layers together. *)
Definition forward {score} (apply_layer : layer -> tensor score -> tensor score)
    (self : GridNet score) (x : tensor Z) : outcome (tensor score) :=
  patch_pred_grid <- patch_predictions self x ;;
  _ <- sequential_shape (module_training self) (corrector self)
         (shape patch_pred_grid) ;;
  Ok (fold_left (fun t l => apply_layer l t) (corrector self) patch_pred_grid).

(** ** Paths *)

Module os_path.

(** [str.rfind] of a character: the last index, or -1. *)
Fixpoint rfind_from (c : Ascii.ascii) (s : string) (i : Z) : Z :=
  match s with
  | EmptyString => -1
  | String a s' =>
      let r := rfind_from c s' (i + 1) in
      if 0 <=? r then r else if Ascii.eqb a c then i else -1
  end.

Definition rfind (c : Ascii.ascii) (s : string) : Z := rfind_from c s 0.

Fixpoint all_dots (s : string) : bool :=
  match s with
  | EmptyString => true
  | String a s' => Ascii.eqb a "."%char && all_dots s'
  end.

(** [os.path.splitext] on POSIX: the extension starts at the last dot of
    the last path component, leading dots of that component not counting. *)
Definition splitext (p : string) : string * string :=
  let sepIndex := rfind "/"%char p in
  let dotIndex := rfind "."%char p in
  if sepIndex <? dotIndex then
    let filenameIndex := sepIndex + 1 in
    if all_dots (substring (Z.to_nat filenameIndex)
                   (Z.to_nat (dotIndex - filenameIndex)) p)
    then (p, EmptyString)
    else (substring 0 (Z.to_nat dotIndex) p,
          substring (Z.to_nat dotIndex)
            (String.length p - Z.to_nat dotIndex) p)
  else (p, EmptyString).

End os_path.

(** ** The training loop *)

(** [train_model] with its state passed explicitly.  Left out are what
    the loop only reports (timing, printed losses and accuracies, the AUROC
    computed from the collected labels and softmax outputs), the placement
    on a device, and the evaluation mode of the patch classifier, which
    only the classifier's own forward pass sees.  The weights are a value
    of type [W]: [copy.deepcopy] makes the best-weights snapshot
    independent of the later in-place updates of the model, so the snapshot
    is a value as well. *)

(** An epoch accuracy is a quotient of two counts, or not a number when
    the epoch had no foreground position. *)
Inductive accuracy : Set :=
| NaN
| Acc (q : Q).

(** [a > b] on accuracies; a comparison with NaN is false. *)
Definition acc_gt (a b : accuracy) : bool :=
  match a, b with
  | Acc x, Acc y => negb (Qle_bool x y)
  | _, _ => false
  end.

Inductive phase : Set := train | val.

Definition is_train (p : phase) : bool :=
  match p with train => true | val => false end.

Inductive optimizer_id : Set := g_opt | f_opt.

(** What the optimizers are asked to do, in order. *)
Inductive event : Set :=
| Backward
| Step (o : optimizer_id)
| ZeroGrad (o : optimizer_id).

(** [n] blocks of [p] consecutive elements. *)
Fixpoint blocks {A} (n p : nat) (d : list A) : list (list A) :=
  match n with
  | O => []
  | S n' => firstn p d :: blocks n' p (skipn p d)
  end.

(** The entries of [xs] at which [mask] holds. *)
Fixpoint select {A} (mask : list bool) (xs : list A) : list A :=
  match mask, xs with
  | m :: mask', x :: xs' => if m then x :: select mask' xs' else select mask' xs'
  | _, _ => []
  end.

Definition count_true (mask : list bool) : Z :=
  Z.of_nat (length (filter (fun b => b) mask)).

(** [labels > 0]. *)
Definition gt0 (labels : tensor Z) : tensor bool :=
  mkTensor (shape labels) (map (fun l => 0 <? l) (data labels)).

(** [t[mask]] for a one-dimensional boolean [mask]: the mask has to be as
    long as the first dimension of [t]. *)
Definition mask_select {A} (t : tensor A) (mask : tensor bool) : outcome (tensor A) :=
  match shape t with
  | [] => Raise IndexError
  | d0 :: rest =>
      if shape_eqb (shape mask) [d0]
      then Ok (mkTensor (count_true (data mask) :: rest)
                 (concat (select (data mask)
                            (blocks (Z.to_nat d0) (Z.to_nat (prod rest)) (data t)))))
      else Raise IndexError
  end.

(** [labels -= 1]. *)
Definition decrement (labels : tensor Z) : tensor Z :=
  mkTensor (shape labels) (map (fun l => l - 1) (data labels)).

(** [shape[i]]. *)
Definition index (sh : list Z) (i : nat) : outcome Z :=
  match nth_error sh i with
  | Some d => Ok d
  | None => Raise IndexError
  end.

Section Training.

Context {W G O L score : Type}.

(** Payload of [torch.save]. *)
Inductive payload : Type :=
| ModelState (w : W)
| OptimizerState (o : O)
| OptimizerStates (record : list (string * O)).

(** The model as the loop sees it. *)
Record model : Type := mkModel {
  state_dict : W;
  grads : G;
  training : bool;
  classifier_requires_grad : bool
}.

Record optimizer : Type := mkOptimizer {
  opt_state : O;
  step : O -> W -> G -> W * O;
  zero_grad : G -> G
}.

(** The numerical collaborators. *)
Record collaborators : Type := mkCollaborators {
  model_call : model -> tensor Z -> tensor score;
  criterion : tensor score -> tensor Z -> L;
  loss_div : L -> Z -> L;
  argmax : list score -> Z;
  softmax : tensor score -> tensor score;
  backward : (W -> outcome L) -> model -> G
}.

Record dataloader : Type := mkDataLoader {
  dataset_len : Z;
  batches : nat -> list (tensor Z * tensor Z)
}.

(** Per-phase accumulators.  [running_corrects] is [None] while it is
    still the Python integer it starts as. *)
Record running : Type := mkRunning {
  running_loss : list (L * Z);
  running_corrects : option Z;
  running_foreground : Z;
  epoch_labels : list (tensor Z);
  epoch_softmax : list (tensor score)
}.

Record train_state : Type := mkTrainState {
  the_model : model;
  the_optimizer : optimizer;
  the_f_opt : option optimizer;
  best_acc : accuracy;
  best_model_wts : W;
  val_acc_history : list accuracy;
  saved : list (string * payload);
  events : list event
}.

(** Lines 227-231: the shape assertion, then predictions made channel-last
    and flattened together with the labels. *)
Definition flatten_batch (outputs : tensor score) (labels : tensor Z)
  : outcome (tensor score * tensor Z) :=
  o2 <- index (shape outputs) 2 ;;
  l1 <- index (shape labels) 1 ;;
  if negb (o2 =? l1) then Raise AssertionError else
  o3 <- index (shape outputs) 3 ;;
  l2 <- index (shape labels) 2 ;;
  if negb (o3 =? l2) then Raise AssertionError else
  outputs <- torch.permute outputs [0; 2; 3; 1]%nat ;;
  outputs <- torch.reshape outputs [last (shape outputs) 0] ;;
  labels <- torch.reshape labels [] ;;
  Ok (outputs, labels).

(** The labels retained by the mask, before the decrement. *)
Definition retained_labels (labels : tensor Z) : outcome (tensor Z) :=
  mask_select labels (gt0 labels).

(** Lines 232-234: background masked out, labels shifted down. *)
Definition mask_foreground (outputs : tensor score) (labels : tensor Z)
  : outcome (tensor score * tensor Z) :=
  outputs' <- mask_select outputs (gt0 labels) ;;
  labels' <- retained_labels labels ;;
  Ok (outputs', decrement labels').

(** Rows of a two-dimensional tensor. *)
Definition rows {A} (t : tensor A) : list (list A) :=
  blocks (Z.to_nat (len t)) (Z.to_nat (nth 1 (shape t) 0)) (data t).

(** Line 237: the predicted class of each retained position. *)
Definition predictions (env : collaborators) (outputs : tensor score) : list Z :=
  map (argmax env) (rows outputs).

(** Line 256: [torch.sum(preds == labels.data)]. *)
Definition corrects (preds : list Z) (labels : tensor Z) : Z :=
  Z.of_nat (length (filter (fun pl => fst pl =? snd pl) (combine preds (data labels)))).

(** Line 236. *)
Definition batch_loss (env : collaborators) (accum_iters : Z)
    (outputs : tensor score) (labels : tensor Z) : L :=
  loss_div env (criterion env outputs labels) accum_iters.

(** Lines 223-237 as a function of the model: the masked predictions and
    labels of a batch. *)
Definition batch_forward (env : collaborators) (inputs labels : tensor Z)
    (m : model) : outcome (tensor score * tensor Z) :=
  fl <- flatten_batch (model_call env m inputs) labels ;;
  mask_foreground (fst fl) (snd fl).

Definition set_state_dict (m : model) (w : W) : model :=
  mkModel w (grads m) (training m) (classifier_requires_grad m).

Definition set_grads (m : model) (g : G) : model :=
  mkModel (state_dict m) g (training m) (classifier_requires_grad m).

(** [opt.step(); opt.zero_grad()]. *)
Definition step_and_zero (who : optimizer_id) (opt : optimizer) (m : model)
  : model * optimizer :=
  let wo := step opt (opt_state opt) (state_dict m) (grads m) in
  let m1 := set_state_dict m (fst wo) in
  let m2 := set_grads m1 (zero_grad opt (grads m1)) in
  (m2, mkOptimizer (snd wo) (step opt) (zero_grad opt)).

(** Lines 244-252. *)
Definition optimize (env : collaborators) (accum_iters batch_ind : Z)
    (loss_of : W -> outcome L) (st : train_state) : outcome train_state :=
  let m := the_model st in
  let m := set_grads m (backward env loss_of m) in
  let ev := events st ++ [Backward] in
  if accum_iters =? 0 then Raise ZeroDivisionError
  else if batch_ind mod accum_iters =? 0 then
    let mo := step_and_zero g_opt (the_optimizer st) m in
    let ev := ev ++ [Step g_opt; ZeroGrad g_opt] in
    match the_f_opt st with
    | Some f =>
        let mf := step_and_zero f_opt f (fst mo) in
        Ok (mkTrainState (fst mf) (snd mo) (Some (snd mf)) (best_acc st)
              (best_model_wts st) (val_acc_history st) (saved st)
              (ev ++ [Step f_opt; ZeroGrad f_opt]))
    | None =>
        Ok (mkTrainState (fst mo) (snd mo) None (best_acc st)
              (best_model_wts st) (val_acc_history st) (saved st) ev)
    end
  else
    Ok (mkTrainState m (the_optimizer st) (the_f_opt st) (best_acc st)
          (best_model_wts st) (val_acc_history st) (saved st) ev).

(** Lines 214-257: one batch. *)
Definition batch_step (env : collaborators) (ph : phase) (accum_iters batch_ind : Z)
    (batch : tensor Z * tensor Z) (sr : train_state * running)
  : outcome (train_state * running) :=
  let (st, run) := sr in
  let (inputs, labels) := batch in
  ol <- batch_forward env inputs labels (the_model st) ;;
  let (outputs, labels') := ol in
  let loss := batch_loss env accum_iters outputs labels' in
  let preds := predictions env outputs in
  let loss_of := fun w =>
      ol' <- batch_forward env inputs labels (set_state_dict (the_model st) w) ;;
      Ok (batch_loss env accum_iters (fst ol') (snd ol')) in
  st' <- (if is_train ph then optimize env accum_iters batch_ind loss_of st
          else Ok st) ;;
  Ok (st',
      mkRunning
        (running_loss run ++ [(loss, len inputs)])
        (Some (match running_corrects run with
               | None => corrects preds labels'
               | Some c => c + corrects preds labels'
               end))
        (running_foreground run + len labels')
        (epoch_labels run ++ [labels'])
        (epoch_softmax run ++ [softmax env outputs])).

(** [for batch_ind, (inputs, labels) in enumerate(...)]. *)
Fixpoint batch_loop (env : collaborators) (ph : phase) (accum_iters batch_ind : Z)
    (bs : list (tensor Z * tensor Z)) (sr : train_state * running)
  : outcome (train_state * running) :=
  match bs with
  | [] => Ok sr
  | b :: bs' =>
      sr' <- batch_step env ph accum_iters batch_ind b sr ;;
      batch_loop env ph accum_iters (batch_ind + 1) bs' sr'
  end.

(** Line 261: [running_corrects.double() / running_foreground]. *)
Definition epoch_accuracy (run : running) : outcome accuracy :=
  match running_corrects run with
  | None => Raise AttributeError
  | Some c =>
      if running_foreground run =? 0 then Ok NaN
      else Ok (Acc (Qmake c (Z.to_pos (running_foreground run))))
  end.

(** Lines 272-285: keep the best weights, and save them when asked to. *)
Definition keep_best (ph : phase) (epoch_acc : accuracy) (outfile : option string)
    (st : train_state) : train_state :=
  let st1 :=
    if (negb (is_train ph)) && acc_gt epoch_acc (best_acc st) then
      let w := state_dict (the_model st) in
      let writes :=
        match outfile with
        | Some path =>
            let opt_path := (fst (os_path.splitext path) ++ ".opt")%string in
            [(path, ModelState w);
             (opt_path,
              match the_f_opt st with
              | Some f => OptimizerStates
                            [("g_opt"%string, opt_state (the_optimizer st));
                             ("f_opt"%string, opt_state f)]
              | None => OptimizerState (opt_state (the_optimizer st))
              end)]
        | None => []
        end in
      mkTrainState (the_model st) (the_optimizer st) (the_f_opt st) epoch_acc w
        (val_acc_history st) (saved st ++ writes) (events st)
    else st in
  if negb (is_train ph) then
    mkTrainState (the_model st1) (the_optimizer st1) (the_f_opt st1) (best_acc st1)
      (best_model_wts st1) (val_acc_history st1 ++ [epoch_acc]) (saved st1)
      (events st1)
  else st1.

(** Lines 195-204: the model put in training or evaluation mode, and the
    parameters of the patch classifier made trainable when fine-tuning. *)
Definition enter_phase (finetune : bool) (ph : phase) (st : train_state)
  : train_state :=
  let m := the_model st in
  let m := mkModel (state_dict m) (grads m) (is_train ph)
             (if finetune && is_train ph then true else classifier_requires_grad m) in
  mkTrainState m (the_optimizer st) (the_f_opt st) (best_acc st)
    (best_model_wts st) (val_acc_history st) (saved st) (events st).

(** Lines 195-285: one phase of one epoch. *)
Definition run_phase (env : collaborators) (dataloaders : phase -> dataloader)
    (outfile : option string) (finetune : bool) (accum_iters : Z)
    (epoch : nat) (ph : phase) (st : train_state) : outcome train_state :=
  let st := enter_phase finetune ph st in
  sr <- batch_loop env ph accum_iters 0 (batches (dataloaders ph) epoch)
          (st, mkRunning [] None 0 [] []) ;;
  if dataset_len (dataloaders ph) =? 0 then Raise ZeroDivisionError else
  epoch_acc <- epoch_accuracy (snd sr) ;;
  Ok (keep_best ph epoch_acc outfile (fst sr)).

(** [for epoch in range(num_epochs): for phase in ['train', 'val']: ...]. *)
Fixpoint epoch_loop (env : collaborators) (dataloaders : phase -> dataloader)
    (outfile : option string) (finetune : bool) (accum_iters : Z)
    (epochs : list nat) (st : train_state) : outcome train_state :=
  match epochs with
  | [] => Ok st
  | epoch :: rest =>
      st1 <- run_phase env dataloaders outfile finetune accum_iters epoch train st ;;
      st2 <- run_phase env dataloaders outfile finetune accum_iters epoch val st1 ;;
      epoch_loop env dataloaders outfile finetune accum_iters rest st2
  end.

(** [train_model] up to the end of the epochs: the state then. *)
Definition train_model_epochs (env : collaborators) (m : model)
    (dataloaders : phase -> dataloader) (opt : optimizer) (num_epochs : Z)
    (outfile : option string) (f_opt : option optimizer) (finetune : bool)
    (accum_iters : Z) : outcome train_state :=
  let val_acc_history := [] in
  let best_model_wts := state_dict m in
  let best_acc := Acc 0 in
  epoch_loop env dataloaders outfile finetune accum_iters
    (seq 0 (Z.to_nat num_epochs))
    (mkTrainState m opt f_opt best_acc best_model_wts val_acc_history [] []).

(** [train_model]: the model with the best weights loaded, and the
    validation accuracies. *)
Definition train_model (env : collaborators) (m : model)
    (dataloaders : phase -> dataloader) (opt : optimizer) (num_epochs : Z)
    (outfile : option string) (f_opt : option optimizer) (finetune : bool)
    (accum_iters : Z) : outcome (model * list accuracy) :=
  st <- train_model_epochs env m dataloaders opt num_epochs outfile f_opt
          finetune accum_iters ;;
  Ok (set_state_dict (the_model st) (best_model_wts st), val_acc_history st).

End Training.

(** ** Specification-side definitions *)

(** The [size] entries of the first dimension of [t] from [start] on. *)
Definition slice {A} (t : tensor A) (start size : Z) : tensor A :=
  let p := prod (tl (shape t)) in
  mkTensor (size :: tl (shape t))
    (firstn (Z.to_nat (size * p)) (skipn (Z.to_nat (start * p)) (data t))).

(** How many chunks of at most [limit] cover [n] patches. *)
Definition n_chunks (limit n : Z) : nat := Z.to_nat ((n + limit - 1) / limit).

(** The partition of [n] patches into contiguous chunks of [limit]
    patches, the last one holding what is left: (start, size) of each. *)
Definition chunk_bounds (limit n : Z) : list (Z * Z) :=
  map (fun i => let s := Z.of_nat i * limit in
                (s, if s + limit <=? n then limit else n - s))
      (seq 0 (n_chunks limit n)).

(** Each chunk of the partition classified on its own. *)
Definition classified_chunks {score} (pc : classifier score) (limit : Z)
    (patch_list : tensor Z) : list (tensor score) :=
  map (fun b => call pc (slice patch_list (fst b) (snd b)))
      (chunk_bounds limit (len patch_list)).

(** A classifier scores a batch patch by patch when classifying a
    contiguous part of the batch gives that part of the scores of the
    whole batch. *)
Definition patchwise {score} (pc : classifier score) (patch_list : tensor Z) : Prop :=
  forall start size,
    0 <= start -> 0 <= size -> start + size <= len patch_list ->
    call pc (slice patch_list start size) = slice (call pc patch_list) start size.

(** The classifier returns [n_classes] scores for every patch it is
    given. *)
Definition scores_per_patch {score} (self : GridNet score) : Prop :=
  forall t, tl (shape t) = patch_shape self -> shape t <> [] -> 0 <= len t ->
    shape (call (patch_classifier self) t) = [len t; n_classes self]
    /\ numel (call (patch_classifier self) t) = len t * n_classes self.

(** A classifier that applies [f] to every patch of the batch. *)
Definition per_patch {score} (f : list Z -> list score) (k : Z) (t : tensor Z)
  : tensor score :=
  mkTensor [len t; k]
    (flat_map f (blocks (Z.to_nat (len t)) (Z.to_nat (prod (tl (shape t)))) (data t))).

(** What one training batch asks of the optimizers: a backward pass, and
    on the batches whose index is a multiple of [accum_iters] a step and a
    zeroing of the primary optimizer, then of the secondary one if there
    is one. *)
Definition batch_events (accum_iters : Z) (has_f_opt : bool) (batch_ind : Z)
  : list event :=
  Backward ::
  (if batch_ind mod accum_iters =? 0
   then Step g_opt :: ZeroGrad g_opt ::
        (if has_f_opt then [Step f_opt; ZeroGrad f_opt] else [])
   else []).

(** The same for the [n] batches of a phase from batch [start] on. *)
Definition phase_events (accum_iters : Z) (has_f_opt : bool) (start n : nat)
  : list event :=
  flat_map (fun i => batch_events accum_iters has_f_opt (Z.of_nat i)) (seq start n).

Section Requests.

Context {W G O L score : Type}.
Variable env : @collaborators W G L score.
Variable accum_iters : Z.

(** What the requests act on: the model and the two optimizers. *)
Definition view (st : @train_state W G O)
  : @model W G * @optimizer W G O * option (@optimizer W G O) :=
  (the_model st, the_optimizer st, the_f_opt st).

(** The loss of a batch as a function of the weights (lines 223-236):
    what [loss.backward()] differentiates. *)
Definition loss_closure (batch : tensor Z * tensor Z) (m : @model W G)
  : W -> outcome L :=
  fun w =>
    ol' <- batch_forward env (fst batch) (snd batch) (set_state_dict m w) ;;
    Ok (batch_loss env accum_iters (fst ol') (snd ol')).

(** [opt.step()]: the weights and the state of the optimizer are replaced
    by what its update rule makes of them and of the gradients. *)
Definition apply_step (opt : @optimizer W G O) (m : @model W G)
  : @model W G * @optimizer W G O :=
  let wo := step opt (opt_state opt) (state_dict m) (grads m) in
  (set_state_dict m (fst wo), mkOptimizer (snd wo) (step opt) (zero_grad opt)).

(** What one request does, on the batch it is made for: a backward pass
    replaces the gradients by those accumulated with the loss of the
    batch, a step is [apply_step], a zeroing replaces the gradients by
    what [zero_grad] leaves; a request to a secondary optimizer that does
    not exist does nothing. *)
Definition perform (batch : tensor Z * tensor Z) (e : event)
    (s : @model W G * @optimizer W G O * option (@optimizer W G O))
  : @model W G * @optimizer W G O * option (@optimizer W G O) :=
  let m := fst (fst s) in
  let opt := snd (fst s) in
  let f := snd s in
  match e with
  | Backward => (set_grads m (backward env (loss_closure batch m) m), opt, f)
  | Step g_opt => (fst (apply_step opt m), snd (apply_step opt m), f)
  | ZeroGrad g_opt => (set_grads m (zero_grad opt (grads m)), opt, f)
  | Step f_opt =>
      match f with
      | Some fo => (fst (apply_step fo m), opt, Some (snd (apply_step fo m)))
      | None => s
      end
  | ZeroGrad f_opt =>
      match f with
      | Some fo => (set_grads m (zero_grad fo (grads m)), opt, f)
      | None => s
      end
  end.

(** The requests of one batch, performed in order. *)
Definition perform_all (batch : tensor Z * tensor Z) (evs : list event)
    (s : @model W G * @optimizer W G O * option (@optimizer W G O))
  : @model W G * @optimizer W G O * option (@optimizer W G O) :=
  fold_left (fun s e => perform batch e s) evs s.

(** The requests of the batches of a phase from batch [k] on, performed
    in order. *)
Fixpoint replay (has_f_opt : bool) (k : nat) (bs : list (tensor Z * tensor Z))
    (s : @model W G * @optimizer W G O * option (@optimizer W G O))
  : @model W G * @optimizer W G O * option (@optimizer W G O) :=
  match bs with
  | [] => s
  | b :: bs' =>
      replay has_f_opt (S k) bs'
        (perform_all b (batch_events accum_iters has_f_opt (Z.of_nat k)) s)
  end.

(** Backward passes only, batch after batch: gradients accumulate, and
    nothing else changes. *)
Definition accumulate (bs : list (tensor Z * tensor Z)) (m : @model W G)
  : @model W G :=
  fold_left (fun m b => set_grads m (backward env (loss_closure b m) m)) bs m.

End Requests.

Definition optimizer_id_eqb (a b : optimizer_id) : bool :=
  match a, b with
  | g_opt, g_opt | f_opt, f_opt => true
  | _, _ => false
  end.

(** Whether optimizer [who] is one of those stepped. *)
Definition steps_for (has_f_opt : bool) (who : optimizer_id) : bool :=
  match who with g_opt => true | f_opt => has_f_opt end.

(** For every step of optimizer [who], the number of backward passes since
    its previous step (since the beginning, for its first step). *)
Fixpoint backward_counts_from (who : optimizer_id) (evs : list event) (acc : nat)
  : list nat :=
  match evs with
  | [] => []
  | Backward :: rest => backward_counts_from who rest (S acc)
  | Step o :: rest =>
      if optimizer_id_eqb o who then acc :: backward_counts_from who rest 0
      else backward_counts_from who rest acc
  | ZeroGrad _ :: rest => backward_counts_from who rest acc
  end.

Definition backward_counts (who : optimizer_id) (evs : list event) : list nat :=
  backward_counts_from who evs 0.

Definition is_some {A} (o : option A) : bool :=
  match o with Some _ => true | None => false end.

(** Two training states hold the same record of the best epoch, of the
    files written and of the validation accuracies. *)
Definition same_record {W G O} (st st' : @train_state W G O) : Prop :=
  best_acc st' = best_acc st
  /\ best_model_wts st' = best_model_wts st
  /\ saved st' = saved st
  /\ val_acc_history st' = val_acc_history st.

(** The same collaborators around another model function. *)
Definition with_model_call {W G L score} (env : @collaborators W G L score)
    (model_call' : @model W G -> tensor Z -> tensor score)
  : @collaborators W G L score :=
  mkCollaborators model_call' (criterion env) (loss_div env) (argmax env)
    (softmax env) (backward env).

(** What is written when the best weights are saved to [path]. *)
Definition checkpoint_files {W G O} (path : string) (st : @train_state W G O)
  : list (string * @payload W O) :=
  [(path, ModelState (state_dict (the_model st)));
   ((fst (os_path.splitext path) ++ ".opt")%string,
    match the_f_opt st with
    | Some f => OptimizerStates [("g_opt"%string, opt_state (the_optimizer st));
                                 ("f_opt"%string, opt_state f)]
    | None => OptimizerState (opt_state (the_optimizer st))
    end)].

(** The same network with another chunk limit. *)
Definition with_limit {score} (self : GridNet score) (limit : option Z)
  : GridNet score :=
  mkGridNet (patch_shape self) (grid_shape self) (n_classes self)
    (patch_classifier self) (use_bn self) limit (corrector self) (bg_const self)
    (dummy_tensor self) (module_training self).

(** ** Concrete instances *)

(** A classifier with two classes: the sum and the first pixel of a patch
    are the scores.  Its one parameter is trainable. *)
Definition ex_classifier : classifier Z :=
  mkClassifier (per_patch (fun p => [sum p; hd 0 p]) 2)
    [("weight"%string, mkParameter true)].

(** The same with a frozen parameter. *)
Definition ex_frozen_classifier : classifier Z :=
  mkClassifier (call ex_classifier) [("weight"%string, mkParameter false)].

(** A classifier whose scores depend on the batch it is given: every patch
    is scored with the number of patches in the batch. *)
Definition ex_batch_classifier : classifier Z :=
  mkClassifier (fun t => mkTensor [len t; 1] (repeat (len t) (Z.to_nat (len t)))) [].

(** Patches of shape (1, 1, 2) on a 2 x 1 grid. *)
Definition ex_net (limit : option Z) : GridNet Z :=
  GridNet_init 0 ex_classifier [1; 1; 2] [2; 1] 2 true limit.

(** A batch of three grids, and its six patches. *)
Definition ex_input : tensor Z :=
  mkTensor [3; 2; 1; 1; 1; 2] [1; 2; 3; 4; 5; 6; 7; 8; 9; 10; 11; 12].

Definition ex_patch_list : tensor Z :=
  mkTensor [6; 1; 1; 2] [1; 2; 3; 4; 5; 6; 7; 8; 9; 10; 11; 12].

(** An empty batch of grids. *)
Definition ex_empty_input : tensor Z := mkTensor [0; 2; 1; 1; 1; 2] [].

(** A patch that is not all zero, with maximum 0, and a patch of negative
    values only. *)
Definition ex_nonpositive_patch : tensor Z := mkTensor [1; 2; 2] [0; -3; 0; -1].

Definition ex_negative_patch : tensor Z := mkTensor [1; 1; 2] [-1; -2].

(** A training set-up on integers: the model has one weight [w] and
    predicts, on a 1 x 2 grid with two classes, the scores (w, 0) for the
    first cell and (0, w) for the second; a backward pass adds 1 to the
    gradient, a step adds the gradient to the weight. *)
Definition ex_argmax (row : list Z) : Z :=
  match row with
  | [a; b] => if a <? b then 1 else 0
  | _ => 0
  end.

Definition ex_env : @collaborators Z Z Z Z :=
  mkCollaborators
    (fun m _ => mkTensor [1; 2; 1; 2] [state_dict m; 0; 0; state_dict m])
    (fun _ labels => numel labels)
    Z.div
    ex_argmax
    (fun t => t)
    (fun _ m => grads m + 1).

Definition ex_model : @model Z Z := mkModel 1 0 false false.

Definition ex_optimizer : @optimizer Z Z nat :=
  mkOptimizer 0%nat (fun o w g => (w + g, S o)) (fun _ => 0).

Definition ex_inputs : tensor Z := mkTensor [1; 1; 2; 1; 1; 1] [5; 6].

(** One batch per phase and epoch, with the given labels for the two
    cells. *)
Definition ex_loaders (cells : list Z) (_ : phase) : dataloader :=
  mkDataLoader 1 (fun _ => [(ex_inputs, mkTensor [1; 1; 2] cells)]).

Definition ex_batch : tensor Z * tensor Z := (ex_inputs, mkTensor [1; 1; 2] [1; 0]).

Definition ex_state : @train_state Z Z nat :=
  mkTrainState ex_model ex_optimizer None (Acc 0) 1 [] [] [].

Definition ex_running : @running Z Z := mkRunning [] None 0 [] [].

(** The hexagonal variant of [ex_net]. *)
Definition ex_hex_net (use_bn : bool) : GridNet Z :=
  GridNetHex_init 0 ex_classifier [1; 1; 2] [2; 1] 2 use_bn None.

(** ** Further instances *)

(** The same network with another background vector. *)
Definition with_bg {score} (self : GridNet score) (bg : tensor score)
  : GridNet score :=
  mkGridNet (patch_shape self) (grid_shape self) (n_classes self)
    (patch_classifier self) (use_bn self) (atonce_patch_limit self)
    (corrector self) bg (dummy_tensor self) (module_training self).

(** Three pixels: not a whole number of the two-pixel patches of [ex_net]. *)
Definition ex_ragged_input : tensor Z := mkTensor [3] [1; 2; 3].

(** A classifier that returns the patches it is given, and a network that
    uses it. *)
Definition identity_classifier : classifier Z := mkClassifier (fun t => t) [].

Definition ex_identity_net (limit : option Z) : GridNet Z :=
  GridNet_init 0 identity_classifier [1; 1; 2] [2; 1] 2 true limit.

(** An all-zero patch. *)
Definition ex_zero_patch : tensor Z := mkTensor [1; 1; 2] [0; 0].

(** The backward passes whose gradients no step has applied yet: those
    since the last step of the primary optimizer. *)
Fixpoint pending_from (evs : list event) (acc : nat) : nat :=
  match evs with
  | [] => acc
  | Backward :: rest => pending_from rest (S acc)
  | Step g_opt :: rest => pending_from rest 0
  | _ :: rest => pending_from rest acc
  end.

Definition pending_backwards (evs : list event) : nat := pending_from evs 0.

(** What the file [path] holds after the writes of [log]: the payload of
    the last write to it. *)
Definition last_write {P} (path : string) (log : list (string * P)) : option P :=
  fold_left (fun held w => if String.eqb (fst w) path then Some (snd w) else held)
    log None.

(** An accuracy that is a fraction between 0 and 1, or not a number. *)
Definition in_unit_range (a : accuracy) : Prop :=
  match a with
  | NaN => True
  | Acc q => (0 <= q)%Q /\ (q <= 1)%Q
  end.

(** The counts of a phase so far: the correct predictions are among the
    foreground positions. *)
Definition counts_in_range {L score} (run : @running L score) : Prop :=
  0 <= running_foreground run
  /\ match running_corrects run with
     | None => True
     | Some c => 0 <= c <= running_foreground run
     end.

(** The best accuracy is not exceeded by any recorded one, and is the
    initial 0.0, with the initial snapshot [w0] and nothing written, or a
    recorded accuracy greater than 0.0. *)
Definition best_so_far {W G O} (w0 : W) (st : @train_state W G O) : Prop :=
  Forall (fun a => acc_gt a (best_acc st) = false) (val_acc_history st)
  /\ ((best_acc st = Acc 0 /\ best_model_wts st = w0 /\ saved st = [])
      \/ (In (best_acc st) (val_acc_history st)
          /\ acc_gt (best_acc st) (Acc 0) = true)).

(* ================================================================== *)
(** * Part II: properties *)
(* ================================================================== *)

(** ** Lists and arithmetic *)

Lemma firstn_firstn_skipn {A} (a b : nat) (d : list A) :
  firstn a d ++ firstn b (skipn a d) = firstn (a + b) d.
Proof.
  revert d; induction a as [|a IH]; intros d; simpl.
  - reflexivity.
  - destruct d as [|x d]; simpl.
    + now rewrite firstn_nil.
    + now rewrite IH.
Qed.

Lemma nth_map_seq {B} (f : nat -> B) (m i : nat) (d : B) :
  (i < m)%nat -> nth i (map f (seq 0 m)) d = f i.
Proof.
  intros Hi. rewrite (nth_indep _ d (f 0%nat)) by (rewrite length_map, length_seq; lia).
  rewrite map_nth, seq_nth by lia. reflexivity.
Qed.

Lemma n_chunks_bounds (limit n : Z) :
  1 <= limit -> 0 < n ->
  (Z.of_nat (n_chunks limit n) - 1) * limit < n <= Z.of_nat (n_chunks limit n) * limit.
Proof.
  intros Hl Hn. unfold n_chunks.
  assert (H0 : 0 <= (n + limit - 1) / limit) by (apply Z.div_pos; lia).
  rewrite Z2Nat.id by exact H0.
  pose proof (Z.div_mod (n + limit - 1) limit ltac:(lia)) as Hd.
  pose proof (Z.mod_pos_bound (n + limit - 1) limit ltac:(lia)) as Hm.
  nia.
Qed.

Lemma n_chunks_nonpos (limit n : Z) :
  1 <= limit -> n <= 0 -> n_chunks limit n = 0%nat.
Proof.
  intros Hl Hn. unfold n_chunks.
  assert ((n + limit - 1) / limit <= 0); [|lia].
  assert ((n + limit - 1) / limit < 1); [|lia].
  apply Z.div_lt_upper_bound; lia.
Qed.

Lemma n_chunks_le (limit n : Z) :
  1 <= limit -> (n_chunks limit n <= Z.to_nat n)%nat.
Proof.
  intros Hl. destruct (Z_lt_le_dec 0 n) as [Hn|Hn].
  - pose proof (n_chunks_bounds Hl Hn). nia.
  - rewrite n_chunks_nonpos by lia. lia.
Qed.

(** ** The chunking loop *)

Section ChunkLoop.

Context {score : Type}.
Variable self : GridNet score.
Variable patch_list : tensor Z.

Let pc := patch_classifier self.
Let the_call := mkCall (any_requires_grad pc) (Some (dummy_tensor self)).

Lemma narrow_slice (start size : Z) :
  shape patch_list <> [] ->
  0 <= start -> 0 <= size -> start + size <= len patch_list ->
  torch.narrow patch_list start size = Ok (slice patch_list start size).
Proof.
  intros Hs H0 H1 H2. unfold torch.narrow, slice, len in *.
  destruct (shape patch_list) as [|d0 rest]; [congruence|]. simpl in *.
  destruct (Z.ltb_spec size 0); [lia|].
  destruct (Z.ltb_spec start (- d0)); [lia|].
  destruct (Z.ltb_spec d0 start); [lia|]. simpl.
  destruct (Z.ltb_spec start 0); [lia|].
  destruct (Z.ltb_spec (d0 - size) start); [lia|].
  reflexivity.
Qed.

Lemma chunk_body_count (limit : Z) (st st' : chunk_state score) :
  chunk_body self limit patch_list st = Ok st' ->
  count st' = count st + limit.
Proof.
  unfold chunk_body. destruct (torch.narrow _ _ _); simpl; try discriminate.
  destruct (any_requires_grad _); simpl; intros H; injection H as <-; reflexivity.
Qed.

Lemma chunk_body_slice (limit : Z) (st : chunk_state score) :
  1 <= limit -> 0 <= count st < len patch_list ->
  chunk_body self limit patch_list st =
  Ok (mkChunkState (count st + limit)
        (cp_chunks st ++
           [call pc (slice patch_list (count st)
                       (if count st + limit <=? len patch_list then limit
                        else len patch_list - count st))])
        (calls st ++ [the_call])).
Proof.
  intros Hl Hc. unfold chunk_body.
  assert (Hs : shape patch_list <> []).
  { unfold len in Hc. destruct (shape patch_list); simpl in *; [lia|congruence]. }
  replace (Z.min limit (len patch_list - count st))
    with (if count st + limit <=? len patch_list then limit
          else len patch_list - count st)
    by (destruct (Z.leb_spec (count st + limit) (len patch_list)); lia).
  rewrite narrow_slice; try lia; try assumption.
  2:{ destruct (Z.leb_spec (count st + limit) (len patch_list)); lia. }
  2:{ destruct (Z.leb_spec (count st + limit) (len patch_list)); lia. }
  simpl. unfold the_call, pc, checkpoint.
  destruct (any_requires_grad (patch_classifier self)); reflexivity.
Qed.

(** [j] more iterations from chunk [k] on, when that many are left. *)
Lemma chunk_loop_from (limit : Z) (j : nat) :
  1 <= limit ->
  forall (k fuel : nat) (acc : list (tensor score)) (cl : list ppl_call),
    (j <= fuel)%nat ->
    (j <> 0%nat -> (Z.of_nat (k + j) - 1) * limit < len patch_list) ->
    len patch_list <= Z.of_nat (k + j) * limit ->
    chunk_loop fuel self limit patch_list
      (mkChunkState (Z.of_nat k * limit) acc cl) =
    Ok (mkChunkState (Z.of_nat (k + j) * limit)
          (acc ++ map (fun i =>
                         let s := Z.of_nat i * limit in
                         call pc (slice patch_list s
                                    (if s + limit <=? len patch_list then limit
                                     else len patch_list - s)))
                      (seq k j))
          (cl ++ repeat the_call j)).
Proof.
  intros Hl. induction j as [|j IH]; intros k fuel acc cl Hf Hlo Hhi.
  - rewrite Nat.add_0_r in *. simpl. rewrite !app_nil_r.
    destruct fuel; simpl;
      (destruct (Z.ltb_spec (Z.of_nat k * limit) (len patch_list)); [lia|reflexivity]).
  - destruct fuel as [|fuel]; [lia|].
    assert (Hk : Z.of_nat k * limit < len patch_list).
    { specialize (Hlo ltac:(discriminate)). nia. }
    cbn [chunk_loop count].
    destruct (Z.ltb_spec (Z.of_nat k * limit) (len patch_list)); [|lia].
    rewrite chunk_body_slice by (cbn [count]; nia).
    cbn [bind count cp_chunks calls].
    replace (Z.of_nat k * limit + limit) with (Z.of_nat (S k) * limit) by lia.
    assert (Hlo' : j <> 0%nat -> (Z.of_nat (S k + j) - 1) * limit < len patch_list).
    { intros _. replace (S k + j)%nat with (k + S j)%nat by lia.
      apply Hlo. discriminate. }
    assert (Hhi' : len patch_list <= Z.of_nat (S k + j) * limit).
    { replace (S k + j)%nat with (k + S j)%nat by lia. exact Hhi. }
    rewrite (IH (S k) fuel _ _ ltac:(lia) Hlo' Hhi').
    f_equal. f_equal.
    + replace (k + S j)%nat with (S k + j)%nat by lia. reflexivity.
    + rewrite <- app_assoc. cbn [seq map app].
      replace (Z.of_nat (S k) * limit) with (Z.of_nat k * limit + limit) by lia.
      reflexivity.
    + rewrite <- app_assoc. reflexivity.
Qed.

(** With a positive limit the loop ends, on any fuel from the number of
    chunks on, with the classified chunks of the partition. *)
Lemma chunk_loop_fuel_enough (limit : Z) (fuel : nat) :
  1 <= limit -> (n_chunks limit (len patch_list) <= fuel)%nat ->
  chunk_loop fuel self limit patch_list (mkChunkState 0 [] []) =
  Ok (mkChunkState (Z.of_nat (n_chunks limit (len patch_list)) * limit)
        (classified_chunks pc limit patch_list)
        (repeat the_call (n_chunks limit (len patch_list)))).
Proof.
  intros Hl Hf.
  pose proof (@chunk_loop_from limit (n_chunks limit (len patch_list)) Hl
                0%nat fuel [] [] Hf) as H.
  cbn [Nat.add Z.of_nat Z.mul app] in H.
  unfold classified_chunks, chunk_bounds. rewrite map_map. cbn [fst snd].
  destruct (Z_lt_le_dec 0 (len patch_list)) as [Hpos|Hneg].
  - pose proof (n_chunks_bounds Hl Hpos). apply H; lia.
  - rewrite n_chunks_nonpos in * by lia. apply H; [congruence|lia].
Qed.

(** With a zero limit and a non-empty patch list the loop is still running
    whatever the fuel. *)
Lemma chunk_loop_limit_zero (fuel : nat) :
  0 < len patch_list ->
  forall acc cl,
    chunk_loop fuel self 0 patch_list (mkChunkState 0 acc cl) = Diverge.
Proof.
  intros Hn. induction fuel as [|fuel IH]; intros acc cl; cbn [chunk_loop count].
  - destruct (Z.ltb_spec 0 (len patch_list)); [reflexivity|lia].
  - destruct (Z.ltb_spec 0 (len patch_list)); [|lia].
    unfold chunk_body. cbn [count].
    replace (Z.min 0 (len patch_list - 0)) with 0 by lia.
    rewrite narrow_slice; try lia.
    2:{ unfold len in Hn. destruct (shape patch_list); simpl in *; [lia|congruence]. }
    cbn [bind]. unfold checkpoint.
    destruct (any_requires_grad (patch_classifier self)); cbn [_ppl bind];
      apply IH.
Qed.

(** A negative limit makes the first [narrow] raise. *)
Lemma chunk_loop_limit_negative (limit : Z) (fuel : nat) :
  limit < 0 -> 0 < len patch_list ->
  chunk_loop (S fuel) self limit patch_list (mkChunkState 0 [] []) =
  Raise RuntimeError.
Proof.
  intros Hl Hn. cbn [chunk_loop count].
  destruct (Z.ltb_spec 0 (len patch_list)); [|lia].
  unfold chunk_body, torch.narrow. cbn [count].
  unfold len in *. destruct (shape patch_list) as [|d0 rest]; simpl in *; [lia|].
  destruct (Z.ltb_spec (Z.min limit (d0 - 0)) 0); [reflexivity|lia].
Qed.

(** No iteration of the loop fails the assertion of [_ppl]. *)
Lemma chunk_loop_no_assertion (limit : Z) (fuel : nat) :
  forall st, chunk_loop fuel self limit patch_list st <> Raise AssertionError.
Proof.
  induction fuel as [|fuel IH]; intros st; cbn [chunk_loop].
  - destruct (count st <? len patch_list); discriminate.
  - destruct (count st <? len patch_list); [|discriminate].
    unfold chunk_body, torch.narrow.
    destruct (shape patch_list) as [|d0 rest]; cbn [bind]; [discriminate|].
    repeat match goal with
           | |- context [if ?b then _ else _] => destruct b; cbn [bind]; try discriminate
           end; unfold checkpoint; cbn [_ppl bind]; apply IH.
Qed.

(** Every recorded call of a finished loop is [the_call]. *)
Lemma chunk_loop_calls (limit : Z) (fuel : nat) :
  forall st st',
    chunk_loop fuel self limit patch_list st = Ok st' ->
    Forall (eq the_call) (calls st) -> Forall (eq the_call) (calls st').
Proof.
  induction fuel as [|fuel IH]; intros st st'; cbn [chunk_loop].
  - destruct (count st <? len patch_list); [discriminate|].
    intros H; injection H as <-; auto.
  - destruct (count st <? len patch_list).
    2:{ intros H; injection H as <-; auto. }
    destruct (chunk_body self limit patch_list st) as [st1| |] eqn:Hb;
      cbn [bind]; try discriminate.
    intros Hrun Hc. apply (IH _ _ Hrun).
    unfold chunk_body in Hb.
    destruct (torch.narrow _ _ _); cbn [bind] in Hb; try discriminate.
    unfold checkpoint in Hb.
    destruct (any_requires_grad (patch_classifier self)) eqn:Hany;
      cbn [_ppl bind] in Hb; injection Hb as <-; cbn [calls];
      apply Forall_app; split; auto; constructor; auto;
      unfold the_call, pc; rewrite Hany; reflexivity.
Qed.

End ChunkLoop.

(** ** Termination of the chunking loop *)

(** C9: for a non-empty patch list the chunking loop of
    [patch_predictions] ends whenever [atonce_patch_limit >= 1] (on any
    fuel from some bound on it returns the same final state, whose counter
    has reached the length of the list), every iteration adds the limit to
    the counter, and with a limit of 0 the loop never ends: it is still
    running on whatever fuel. *)
Theorem chunk_loop_terminates_iff_limit_positive
    {score} (self : GridNet score) (patch_list : tensor Z) :
  0 < len patch_list ->
  (forall limit, 1 <= limit ->
     exists n st,
       (forall fuel, (n <= fuel)%nat ->
          chunk_loop fuel self limit patch_list (mkChunkState 0 [] []) = Ok st)
       /\ len patch_list <= count st)
  /\ (forall limit st st',
        chunk_body self limit patch_list st = Ok st' ->
        count st' = count st + limit)
  /\ (forall fuel,
        chunk_loop fuel self 0 patch_list (mkChunkState 0 [] []) = Diverge).
Proof.
  intros Hn. split; [|split].
  - intros limit Hl.
    exists (n_chunks limit (len patch_list)). eexists. split.
    + intros fuel Hf. apply chunk_loop_fuel_enough; assumption.
    + cbn [count]. pose proof (n_chunks_bounds Hl Hn). lia.
  - intros limit st st'. apply chunk_body_count.
  - intros fuel. apply chunk_loop_limit_zero. exact Hn.
Qed.

Lemma chunk_loop_terminates_witness :
  (forall limit, 1 <= limit ->
     exists n st,
       (forall fuel, (n <= fuel)%nat ->
          chunk_loop fuel (ex_net None) limit ex_patch_list (mkChunkState 0 [] [])
          = Ok st)
       /\ len ex_patch_list <= count st)
  /\ (forall limit st st',
        chunk_body (ex_net None) limit ex_patch_list st = Ok st' ->
        count st' = count st + limit)
  /\ (forall fuel,
        chunk_loop fuel (ex_net None) 0 ex_patch_list (mkChunkState 0 [] [])
        = Diverge).
Proof.
  apply (chunk_loop_terminates_iff_limit_positive (ex_net None) ex_patch_list).
  reflexivity.
Defined.

(** ** Checkpointing and the auxiliary tensor *)

Lemma any_requires_grad_iff {score} (pc : classifier score) :
  any_requires_grad pc = true <->
  exists name p, In (name, p) (named_parameters pc) /\ requires_grad p = true.
Proof.
  unfold any_requires_grad. rewrite existsb_exists. split.
  - intros [[name p] [Hin Hp]]. exists name, p. auto.
  - intros [name [p [Hin Hp]]]. exists (name, p). auto.
Qed.

Lemma bind_no_assertion {A B} (c : outcome A) (k : A -> outcome B) :
  c <> Raise AssertionError ->
  (forall a, k a <> Raise AssertionError) ->
  bind c k <> Raise AssertionError.
Proof.
  intros Hc Hk. destruct c; cbn [bind]; [apply Hk| |discriminate].
  intros H; apply Hc; injection H as ->; reflexivity.
Qed.

Lemma reshape_no_assertion {A} (x : tensor A) (dims : list Z) :
  torch.reshape x dims <> Raise AssertionError.
Proof.
  unfold torch.reshape. destruct (existsb _ _); [discriminate|].
  destruct (_ && _); discriminate.
Qed.

Lemma permute_no_assertion {A} (t : tensor A) (perm : list nat) :
  torch.permute t perm <> Raise AssertionError.
Proof. unfold torch.permute. destruct (torch.is_permutation _ _); discriminate. Qed.

Lemma classify_patches_no_assertion {score} (fuel : nat) (self : GridNet score)
    (patch_list : tensor Z) :
  classify_patches fuel self patch_list <> Raise AssertionError.
Proof.
  unfold classify_patches. destruct (atonce_patch_limit self) as [limit|].
  - destruct (chunk_loop fuel self limit patch_list (mkChunkState 0 [] []))
      as [st| |] eqn:Hloop; cbn [bind]; try discriminate.
    + unfold torch.cat. destruct (cp_chunks st); [discriminate|].
      destruct (forallb _ _); discriminate.
    + intros H; injection H as ->.
      exact (chunk_loop_no_assertion _ _ _ _ _ Hloop).
  - cbn [_ppl bind]. discriminate.
Qed.

Lemma classify_patches_calls {score} (fuel : nat) (self : GridNet score)
    (patch_list : tensor Z) r cl :
  classify_patches fuel self patch_list = Ok (r, cl) ->
  Forall (fun c => dummy_arg_of c = Some (dummy_tensor self)
                   /\ checkpointed c =
                      match atonce_patch_limit self with
                      | Some _ => any_requires_grad (patch_classifier self)
                      | None => false
                      end) cl.
Proof.
  unfold classify_patches. destruct (atonce_patch_limit self) as [limit|].
  - destruct (chunk_loop fuel self limit patch_list (mkChunkState 0 [] []))
      as [st| |] eqn:Hloop; cbn [bind]; try discriminate.
    destruct (torch.cat (cp_chunks st)); cbn [bind]; try discriminate.
    intros H; injection H as _ <-.
    pose proof (chunk_loop_calls _ _ _ _ _ Hloop (Forall_nil _)) as Hc.
    eapply Forall_impl; [|exact Hc]. cbn beta. intros c <-. split; reflexivity.
  - cbn [_ppl bind]. intros H; injection H as _ <-.
    constructor; [split; reflexivity|constructor].
Qed.

(** C5: in the chunked path every classification call goes through
    [cp.checkpoint] exactly when some named parameter of the patch
    classifier has [requires_grad] set; every invocation of [_ppl], chunked
    or not, checkpointed or not, receives the network's auxiliary tensor,
    which tracks gradients, as its second argument; so the assertion of
    [_ppl] never fails.  The invocations are those that [_ppl] and
    [cp.checkpoint] themselves report: without a limit there is exactly
    one, made directly. *)
Theorem ppl_calls_checkpointed_and_guarded
    {score} (zero : score) (pc : classifier score) (pshape gshape : list Z)
    (n : Z) (bn : bool) (limit : option Z) (fuel : nat) (x : tensor Z) :
  let self := GridNet_init zero pc pshape gshape n bn limit in
  patch_predictions_traced fuel self x <> Raise AssertionError
  /\ patch_predictions self x <> Raise AssertionError
  /\ (forall r cl,
        patch_predictions_traced fuel self x = Ok (r, cl) ->
        Forall (fun c =>
                  (exists d, dummy_arg_of c = Some d /\ d = dummy_tensor self
                             /\ aux_requires_grad d = true)
                  /\ (limit <> None ->
                      (checkpointed c = true <->
                       exists name p, In (name, p) (named_parameters pc)
                                      /\ requires_grad p = true))) cl
        /\ (limit = None -> cl = [mkCall false (Some (dummy_tensor self))])).
Proof.
  intros self.
  assert (Hno : forall f, patch_predictions_traced f self x <> Raise AssertionError).
  { intros f. unfold patch_predictions_traced.
    apply bind_no_assertion; [apply reshape_no_assertion|intros pl].
    apply bind_no_assertion; [apply classify_patches_no_assertion|intros rc].
    apply bind_no_assertion; [apply reshape_no_assertion|intros g].
    apply bind_no_assertion; [apply permute_no_assertion|discriminate]. }
  split; [apply Hno|]. split.
  - unfold patch_predictions. specialize (Hno (Z.to_nat (numel x))).
    destruct (patch_predictions_traced _ self x); cbn [bind]; congruence.
  - intros r cl. unfold patch_predictions_traced.
    destruct (torch.reshape x (patch_shape self)) as [pl|e|]; cbn [bind];
      try discriminate.
    destruct (classify_patches fuel self pl) as [[r' cl']|e|] eqn:Hc; cbn [bind];
      try discriminate.
    destruct (torch.reshape _ _); cbn [bind]; try discriminate.
    destruct (torch.permute _ _); cbn [bind]; try discriminate.
    cbn [snd]. intros H; injection H as _ <-. split.
    + eapply Forall_impl; [|exact (classify_patches_calls _ _ _ Hc)].
      cbn beta. intros c [Hd Hk]. split.
      * exists (dummy_tensor self). repeat split; assumption.
      * intros Hlim. rewrite Hk. subst self. cbn [atonce_patch_limit GridNet_init].
        destruct limit; [|congruence]. apply any_requires_grad_iff.
    + intros ->. subst self. unfold classify_patches in Hc.
      cbn [atonce_patch_limit GridNet_init _ppl bind fst snd dummy_tensor] in Hc.
      injection Hc as _ <-. reflexivity.
Qed.

Lemma ppl_calls_witness :
  patch_predictions_traced 6 (ex_net (Some 4)) ex_input
  = Ok (mkTensor [3; 2; 2; 1] [3; 7; 1; 3; 11; 15; 5; 7; 19; 23; 9; 11],
        [mkCall true (Some (mkAux true)); mkCall true (Some (mkAux true))])
  /\ Forall (fun c =>
               (exists d, dummy_arg_of c = Some d
                          /\ d = dummy_tensor (ex_net (Some 4))
                          /\ aux_requires_grad d = true)
               /\ (Some 4 <> None ->
                   (checkpointed c = true <->
                    exists name p,
                      In (name, p) (named_parameters ex_classifier)
                      /\ requires_grad p = true)))
            [mkCall true (Some (mkAux true)); mkCall true (Some (mkAux true))].
Proof.
  split; [reflexivity|].
  apply (proj1 (proj2 (proj2 (ppl_calls_checkpointed_and_guarded
                                0 ex_classifier [1; 1; 2] [2; 1] 2 true (Some 4) 6
                                ex_input)) _ _ eq_refl)).
Defined.

(** ** Reshaping, slicing and concatenating *)

Lemma prod_pos (dims : list Z) :
  Forall (fun d => 0 < d) dims -> 0 < prod dims.
Proof.
  induction 1 as [|d ds Hd _ IH]; cbn [prod fold_right]; [lia|].
  change (fold_right Z.mul 1 ds) with (prod ds). nia.
Qed.

Lemma existsb_negative (dims : list Z) :
  Forall (fun d => 0 < d) dims -> existsb (fun d => d <? 0) dims = false.
Proof.
  induction 1 as [|d ds Hd _ IH]; cbn [existsb]; [reflexivity|].
  rewrite IH. destruct (Z.ltb_spec d 0); [lia|reflexivity].
Qed.

(** A tensor of [n * prod dims] elements reshapes to [n :: dims]. *)
Lemma reshape_exact {A} (x : tensor A) (dims : list Z) (n : Z) :
  Forall (fun d => 0 < d) dims -> numel x = n * prod dims ->
  torch.reshape x dims = Ok (mkTensor (n :: dims) (data x)).
Proof.
  intros Hd Hn. unfold torch.reshape. rewrite (existsb_negative Hd).
  pose proof (prod_pos Hd) as Hp. rewrite Hn.
  destruct (Z.ltb_spec 0 (prod dims)); [|lia].
  rewrite Z.mod_mul by lia. rewrite Z.div_mul by lia. reflexivity.
Qed.

Lemma to_nat_mul_nonpos (a p : Z) : 0 <= a -> p <= 0 -> Z.to_nat (a * p) = 0%nat.
Proof. intros Ha Hp. assert (a * p <= 0) by nia. lia. Qed.

Lemma to_nat_mul_add (a b p : Z) :
  0 <= a -> 0 <= b ->
  (Z.to_nat (a * p) + Z.to_nat (b * p))%nat = Z.to_nat ((a + b) * p).
Proof.
  intros Ha Hb. destruct (Z_lt_le_dec 0 p) as [Hp|Hp].
  - rewrite Z.mul_add_distr_r. rewrite Z2Nat.inj_add by nia. reflexivity.
  - rewrite !to_nat_mul_nonpos by lia. reflexivity.
Qed.

Section Chunks.

Variable limit n : Z.
Hypothesis limit_pos : 1 <= limit.
Hypothesis n_nonneg : 0 <= n.

Let bound (i : nat) : Z * Z :=
  let s := Z.of_nat i * limit in (s, if s + limit <=? n then limit else n - s).

(** The sizes of the first [m] chunks add up to what they cover. *)
Lemma sum_chunk_sizes (m : nat) :
  (m <> 0%nat -> (Z.of_nat m - 1) * limit < n) ->
  sum (map (fun i => snd (bound i)) (seq 0 m)) = Z.min (Z.of_nat m * limit) n.
Proof.
  induction m as [|m IH]; intros Hm.
  - cbn. lia.
  - rewrite seq_S, map_app. cbn [Nat.add map].
    unfold sum in *. rewrite fold_right_app. cbn [fold_right].
    assert (Hlt : Z.of_nat m * limit < n) by (specialize (Hm ltac:(discriminate)); lia).
    assert (Hsum : forall (l : list Z) (z : Z),
               fold_right Z.add z l = fold_right Z.add 0 l + z).
    { induction l as [|y l IHl]; intros z; cbn [fold_right]; [lia|].
      rewrite IHl. lia. }
    rewrite Hsum, IH by (intros; nia).
    unfold bound. cbn [snd].
    destruct (Z.leb_spec (Z.of_nat m * limit + limit) n); lia.
Qed.

(** The first [m] chunks of some data, one after the other, are its
    beginning. *)
Lemma concat_chunk_data {A} (d : list A) (p : Z) (m : nat) :
  (m <> 0%nat -> (Z.of_nat m - 1) * limit < n) ->
  concat (map (fun i => firstn (Z.to_nat (snd (bound i) * p))
                          (skipn (Z.to_nat (fst (bound i) * p)) d))
              (seq 0 m))
  = firstn (Z.to_nat (Z.min (Z.of_nat m * limit) n * p)) d.
Proof.
  induction m as [|m IH]; intros Hm.
  - cbn [seq map concat]. replace (Z.min (Z.of_nat 0 * limit) n) with 0 by lia.
    reflexivity.
  - rewrite seq_S, map_app, concat_app. cbn [Nat.add map concat].
    rewrite app_nil_r.
    assert (Hlt : Z.of_nat m * limit < n) by (specialize (Hm ltac:(discriminate)); lia).
    rewrite IH by (intros; nia).
    replace (Z.min (Z.of_nat m * limit) n) with (Z.of_nat m * limit) by lia.
    unfold bound. cbn [fst snd].
    rewrite firstn_firstn_skipn. f_equal.
    rewrite to_nat_mul_add.
    + f_equal. f_equal.
      destruct (Z.leb_spec (Z.of_nat m * limit + limit) n); lia.
    + lia.
    + destruct (Z.leb_spec (Z.of_nat m * limit + limit) n); lia.
Qed.

(** Every chunk of the partition holds between 1 and [limit] patches and
    starts where the one before it stops. *)
Lemma chunk_bounds_sizes :
  Forall (fun b => 1 <= snd b <= limit /\ 0 <= fst b /\ fst b + snd b <= n)
         (chunk_bounds limit n).
Proof.
  unfold chunk_bounds. apply Forall_forall. intros b Hb.
  apply in_map_iff in Hb. destruct Hb as [i [<- Hi]]. apply in_seq in Hi.
  cbn [fst snd].
  destruct (Z_lt_le_dec 0 n) as [Hn|Hn].
  - pose proof (n_chunks_bounds limit_pos Hn).
    assert (Z.of_nat i * limit < n) by nia.
    destruct (Z.leb_spec (Z.of_nat i * limit + limit) n); lia.
  - rewrite n_chunks_nonpos in Hi by lia. lia.
Qed.

Lemma chunk_bounds_contiguous (i : nat) :
  (S i < n_chunks limit n)%nat ->
  nth (S i) (map fst (chunk_bounds limit n)) 0
  = nth i (map fst (chunk_bounds limit n)) 0
    + nth i (map snd (chunk_bounds limit n)) 0.
Proof.
  intros Hi. unfold chunk_bounds. rewrite !map_map. cbn [fst snd].
  assert (Hn : 0 < n).
  { destruct (Z_lt_le_dec 0 n); [assumption|].
    rewrite n_chunks_nonpos in Hi by lia. lia. }
  pose proof (n_chunks_bounds limit_pos Hn) as Hb.
  rewrite !nth_map_seq by lia.
  assert (Z.of_nat (S i) * limit < n) by nia.
  destruct (Z.leb_spec (Z.of_nat i * limit + limit) n); lia.
Qed.

End Chunks.

(** The slices of a tensor along the partition, concatenated, are its
    first [n] entries. *)
Lemma cat_slices {A} (q : tensor A) (limit n : Z) :
  1 <= limit -> 0 < n ->
  torch.cat (map (fun b => slice q (fst b) (snd b)) (chunk_bounds limit n))
  = Ok (slice q 0 n).
Proof.
  intros Hl Hn. pose proof (n_chunks_bounds Hl Hn) as Hb.
  unfold torch.cat.
  destruct (map _ (chunk_bounds limit n)) as [|t ts] eqn:Hmap.
  { unfold chunk_bounds in Hmap. rewrite map_map in Hmap.
    destruct (n_chunks limit n); [lia|discriminate]. }
  rewrite <- Hmap.
  assert (Ht : tl (shape t) = tl (shape q)).
  { assert (Hin : In t (map (fun b => slice q (fst b) (snd b)) (chunk_bounds limit n)))
      by (rewrite Hmap; left; reflexivity).
    apply in_map_iff in Hin. destruct Hin as [b [<- _]]. reflexivity. }
  rewrite Ht.
  assert (Hall : forallb (fun u => match shape u with
                                   | [] => false
                                   | _ :: r => shape_eqb r (tl (shape q))
                                   end)
                   (map (fun b => slice q (fst b) (snd b)) (chunk_bounds limit n))
                 = true).
  { apply forallb_forall. intros u Hu. apply in_map_iff in Hu.
    destruct Hu as [b [<- _]]. cbn [slice shape].
    generalize (tl (shape q)). induction l as [|d l IHl]; cbn [shape_eqb];
      [reflexivity|]. rewrite Z.eqb_refl. exact IHl. }
  rewrite Hall. f_equal. unfold chunk_bounds, slice. rewrite !map_map.
  cbn [len shape hd data fst snd].
  rewrite (sum_chunk_sizes Hl (n := n)) by (intros; lia).
  rewrite (concat_chunk_data Hl (n := n)) by (intros; lia).
  replace (Z.min _ n) with n by lia.
  replace (Z.to_nat (0 * prod (tl (shape q)))) with 0%nat by lia.
  reflexivity.
Qed.

(** A well-formed tensor is the slice of all its entries. *)
Lemma slice_all {A} (t : tensor A) :
  shape t <> [] -> numel t = prod (shape t) -> slice t 0 (len t) = t.
Proof.
  intros Hs Hn. unfold slice, len. destruct t as [sh d]. cbn [shape data] in *.
  destruct sh as [|d0 rest]; [congruence|]. cbn [hd tl]. f_equal.
  replace (Z.to_nat (0 * prod rest)) with 0%nat by lia. cbn [skipn].
  apply firstn_all2. unfold numel in Hn. cbn [data prod fold_right] in Hn.
  change (fold_right Z.mul 1 rest) with (prod rest) in Hn. lia.
Qed.

(** ** Classifiers that score patch by patch *)

Lemma to_nat_mul (a p : Z) :
  0 <= a -> Z.to_nat (a * p) = (Z.to_nat a * Z.to_nat p)%nat.
Proof.
  intros Ha. destruct (Z_lt_le_dec 0 p) as [Hp|Hp].
  - apply Z2Nat.inj_mul; lia.
  - rewrite to_nat_mul_nonpos by lia. replace (Z.to_nat p) with 0%nat by lia. lia.
Qed.

Lemma blocks_firstn_data {A} (z p : nat) (d : list A) :
  blocks z p (firstn (z * p) d) = blocks z p d.
Proof.
  revert d. induction z as [|z IH]; intros d; cbn [blocks]; [reflexivity|].
  cbn [Nat.mul]. rewrite firstn_firstn. replace (Nat.min p (p + z * p)) with p by lia.
  f_equal. rewrite skipn_firstn_comm. replace (p + z * p - p)%nat with (z * p)%nat by lia.
  apply IH.
Qed.

Lemma blocks_skipn {A} (s n p : nat) (d : list A) :
  (s <= n)%nat -> skipn s (blocks n p d) = blocks (n - s) p (skipn (s * p) d).
Proof.
  revert n d. induction s as [|s IH]; intros n d Hs.
  - cbn [skipn Nat.mul]. now rewrite Nat.sub_0_r.
  - destruct n as [|n]; [lia|]. cbn [blocks skipn Nat.sub].
    rewrite IH by lia. rewrite skipn_skipn. cbn [Nat.mul].
    replace (s * p + p)%nat with (p + s * p)%nat by lia. reflexivity.
Qed.

Lemma blocks_firstn {A} (z m p : nat) (d : list A) :
  (z <= m)%nat -> firstn z (blocks m p d) = blocks z p d.
Proof.
  revert m d. induction z as [|z IH]; intros m d Hz; [reflexivity|].
  destruct m as [|m]; [lia|]. cbn [blocks firstn]. rewrite IH by lia. reflexivity.
Qed.

Section Uniform.

Context {A B : Type}.
Variable f : A -> list B.
Variable k : nat.
Hypothesis f_length : forall a, length (f a) = k.

Lemma flat_map_firstn (z : nat) (l : list A) :
  firstn (z * k) (flat_map f l) = flat_map f (firstn z l).
Proof.
  revert l. induction z as [|z IH]; intros l; [reflexivity|].
  destruct l as [|a l]; [now rewrite firstn_nil|].
  cbn [flat_map firstn Nat.mul]. rewrite firstn_app, f_length.
  rewrite firstn_all2 by (rewrite f_length; lia).
  replace (k + z * k - k)%nat with (z * k)%nat by lia. now rewrite IH.
Qed.

Lemma flat_map_skipn (s : nat) (l : list A) :
  skipn (s * k) (flat_map f l) = flat_map f (skipn s l).
Proof.
  revert l. induction s as [|s IH]; intros l; [reflexivity|].
  destruct l as [|a l]; [now rewrite skipn_nil|].
  cbn [flat_map skipn Nat.mul]. rewrite skipn_app, f_length.
  rewrite skipn_all2 by (rewrite f_length; lia).
  replace (k + s * k - k)%nat with (s * k)%nat by lia. now rewrite IH.
Qed.

End Uniform.

(** A classifier that applies a function to every patch scores patch by
    patch. *)
Lemma per_patch_patchwise {score} (f : list Z -> list score) (k : Z)
    (params : list (string * parameter)) (t : tensor Z) :
  (forall p, length (f p) = Z.to_nat k) ->
  patchwise (mkClassifier (per_patch f k) params) t.
Proof.
  intros Hf start size H0 H1 H2. cbn [call].
  unfold per_patch, slice. cbn [shape data len hd tl prod fold_right].
  f_equal.
  set (p := prod (tl (shape t))). change (fold_right Z.mul 1 (tl (shape t))) with p.
  change (hd 0 (shape t)) with (len t).
  rewrite Z.mul_1_r. rewrite !to_nat_mul by lia.
  rewrite (flat_map_skipn f Hf), (flat_map_firstn f Hf).
  rewrite blocks_skipn by lia. rewrite blocks_firstn by lia.
  rewrite blocks_firstn_data. reflexivity.
Qed.

Lemma ex_classifier_patchwise (t : tensor Z) : patchwise ex_classifier t.
Proof. apply per_patch_patchwise. reflexivity. Qed.

(** ** Chunked and unchunked classification *)

Section Refinement.

Context {score : Type}.
Variable self : GridNet score.
Variable limit : Z.
Variable patch_list : tensor Z.

Let pc := patch_classifier self.

Hypothesis limit_pos : 1 <= limit.
Hypothesis nonempty : 0 < len patch_list.
Hypothesis well_formed : numel patch_list = prod (shape patch_list).
Hypothesis scores_patchwise : patchwise pc patch_list.

Lemma shape_nonempty : shape patch_list <> [].
Proof.
  unfold len in nonempty. destruct (shape patch_list); cbn in *; [lia|congruence].
Qed.

Lemma classified_chunks_slices :
  classified_chunks pc limit patch_list
  = map (fun b => slice (call pc patch_list) (fst b) (snd b))
        (chunk_bounds limit (len patch_list)).
Proof.
  unfold classified_chunks. apply map_ext_in. intros b Hb.
  pose proof (@chunk_bounds_sizes limit (len patch_list) limit_pos) as Hs.
  rewrite Forall_forall in Hs. specialize (Hs b Hb).
  apply scores_patchwise; lia.
Qed.

(** The classified chunks, concatenated, are the scores of the whole
    patch list. *)
Lemma cat_classified_chunks :
  torch.cat (classified_chunks pc limit patch_list) = Ok (call pc patch_list).
Proof.
  rewrite classified_chunks_slices, cat_slices by assumption. f_equal.
  rewrite <- scores_patchwise by lia.
  rewrite slice_all; [reflexivity|apply shape_nonempty|exact well_formed].
Qed.

Lemma classify_patches_chunked (fuel : nat) :
  (n_chunks limit (len patch_list) <= fuel)%nat ->
  classify_patches fuel (with_limit self (Some limit)) patch_list
  = Ok (call pc patch_list,
        repeat (mkCall (any_requires_grad pc) (Some (dummy_tensor self)))
               (n_chunks limit (len patch_list))).
Proof.
  intros Hf. unfold classify_patches. cbn [atonce_patch_limit with_limit].
  rewrite chunk_loop_fuel_enough by assumption. cbn [bind cp_chunks calls].
  cbn [patch_classifier with_limit]. fold pc.
  rewrite cat_classified_chunks. reflexivity.
Qed.

Lemma classify_patches_whole (fuel : nat) :
  classify_patches fuel (with_limit self None) patch_list
  = Ok (call pc patch_list, [mkCall false (Some (dummy_tensor self))]).
Proof. reflexivity. Qed.

End Refinement.

Lemma patch_predictions_stages {score} (self : GridNet score) (x : tensor Z) :
  patch_predictions self x =
  (patch_list <- torch.reshape x (patch_shape self) ;;
   rc <- classify_patches (Z.to_nat (numel x)) self patch_list ;;
   grid <- torch.reshape (fst rc) (grid_shape self ++ [n_classes self]) ;;
   torch.permute grid [0; 3; 1; 2]%nat).
Proof.
  unfold patch_predictions, patch_predictions_traced.
  destruct (torch.reshape x (patch_shape self)); cbn [bind]; try reflexivity.
  destruct (classify_patches _ self a); cbn [bind]; try reflexivity.
  destruct (torch.reshape (fst a0) _); cbn [bind]; try reflexivity.
  destruct (torch.permute _ _); reflexivity.
Qed.

(** C1 (as amended): for an input of [batch >= 1] grids, that is with a
    non-empty flat patch list, a patch classifier that scores the batch
    patch by patch and a chunk limit of at least 1, [patch_predictions] with
    the limit returns what it returns without one; the loop leaves the
    patch list classified in the contiguous chunks of the partition, each of
    1 to [limit] patches, together all the patches, and their
    concatenation is the classification of the whole list. *)
Theorem chunked_predictions_equal_unchunked
    {score} (self : GridNet score) (limit batch : Z) (x : tensor Z) :
  Forall (fun d => 0 < d) (patch_shape self) ->
  Forall (fun d => 0 < d) (grid_shape self) ->
  0 < batch -> 1 <= limit ->
  numel x = batch * prod (grid_shape self) * prod (patch_shape self) ->
  let patch_list :=
    mkTensor (batch * prod (grid_shape self) :: patch_shape self) (data x) in
  patchwise (patch_classifier self) patch_list ->
  patch_predictions (with_limit self (Some limit)) x
  = patch_predictions (with_limit self None) x
  /\ torch.reshape x (patch_shape self) = Ok patch_list
  /\ (exists st,
        chunk_loop (Z.to_nat (numel x)) (with_limit self (Some limit)) limit
          patch_list (mkChunkState 0 [] []) = Ok st
        /\ cp_chunks st = classified_chunks (patch_classifier self) limit patch_list
        /\ torch.cat (cp_chunks st) = Ok (call (patch_classifier self) patch_list))
  /\ Forall (fun b => 1 <= snd b <= limit /\ 0 <= fst b
                      /\ fst b + snd b <= len patch_list)
            (chunk_bounds limit (len patch_list))
  /\ sum (map snd (chunk_bounds limit (len patch_list))) = len patch_list.
Proof.
  intros Hps Hgs Hb Hl Hn patch_list Hpw.
  pose proof (prod_pos Hps) as Hpp. pose proof (prod_pos Hgs) as Hgp.
  assert (Hlen : len patch_list = batch * prod (grid_shape self)) by reflexivity.
  assert (Hpos : 0 < len patch_list) by (rewrite Hlen; nia).
  assert (Hwf : numel patch_list = prod (shape patch_list)).
  { unfold numel. cbn [patch_list data shape prod fold_right].
    unfold numel in Hn. rewrite Hn. reflexivity. }
  assert (Hfuel : (n_chunks limit (len patch_list) <= Z.to_nat (numel x))%nat).
  { etransitivity; [apply n_chunks_le; assumption|].
    apply Z2Nat.inj_le; try lia. rewrite Hn, Hlen. nia. }
  assert (Hr : torch.reshape x (patch_shape self) = Ok patch_list)
    by (apply reshape_exact; assumption).
  split; [|split; [exact Hr|split; [|split]]].
  - rewrite !patch_predictions_stages. cbn [patch_shape with_limit].
    rewrite Hr. cbn [bind].
    rewrite (classify_patches_chunked self Hl Hpos Hwf Hpw Hfuel).
    rewrite classify_patches_whole. reflexivity.
  - eexists. split; [apply chunk_loop_fuel_enough; assumption|].
    cbn [cp_chunks patch_classifier with_limit]. split; [reflexivity|].
    apply cat_classified_chunks; assumption.
  - apply chunk_bounds_sizes. exact Hl.
  - unfold chunk_bounds. rewrite map_map.
    rewrite (sum_chunk_sizes Hl (n := len patch_list)) by
      (try lia; intros; pose proof (n_chunks_bounds Hl Hpos); lia).
    pose proof (n_chunks_bounds Hl Hpos). lia.
Qed.

Lemma chunked_predictions_witness :
  patch_predictions (with_limit (ex_net None) (Some 4)) ex_input
  = patch_predictions (with_limit (ex_net None) None) ex_input
  /\ patch_predictions (with_limit (ex_net None) (Some 4)) ex_input
     = Ok (mkTensor [3; 2; 2; 1] [3; 7; 1; 3; 11; 15; 5; 7; 19; 23; 9; 11])
  /\ chunk_bounds 4 (len ex_patch_list) = [(0, 4); (4, 2)].
Proof.
  split; [|split; reflexivity].
  apply (chunked_predictions_equal_unchunked (ex_net None) (limit := 4)
           (batch := 3) ex_input).
  - repeat constructor.
  - repeat constructor.
  - reflexivity.
  - discriminate.
  - reflexivity.
  - apply ex_classifier_patchwise.
Defined.

(** C1 as stated does not hold for an empty batch: the input has
    0 * 2 * 1 * 1 * 1 * 2 elements, the unchunked path returns an empty
    prediction tensor, and the chunked path, whose loop body never runs,
    fails in [torch.cat] on the empty list of chunks. *)
Lemma chunked_raises_on_empty_batch :
  numel ex_empty_input = 0 * 2 * 1 * 1 * 1 * 2
  /\ patch_predictions (ex_net None) ex_empty_input = Ok (mkTensor [0; 2; 2; 1] [])
  /\ patch_predictions (ex_net (Some 2)) ex_empty_input = Raise RuntimeError
  /\ patch_predictions (ex_net (Some 2)) ex_empty_input
     <> patch_predictions (ex_net None) ex_empty_input.
Proof. repeat split; try reflexivity. discriminate. Qed.

(** The hypothesis on the classifier is needed as well: a classifier whose
    scores depend on the batch gives other predictions chunk by chunk. *)
Lemma chunked_differs_for_batch_dependent_classifier :
  let net limit := GridNet_init 0 ex_batch_classifier [1; 1; 2] [2; 1] 1 true limit in
  patch_predictions (net None) ex_input = Ok (mkTensor [3; 1; 2; 1] [6; 6; 6; 6; 6; 6])
  /\ patch_predictions (net (Some 4)) ex_input
     = Ok (mkTensor [3; 1; 2; 1] [4; 4; 4; 4; 2; 2]).
Proof. split; reflexivity. Qed.

(** ** Transposition *)

Lemma nth_error_flat_map_uniform {A B} (F : A -> list B) (m : nat) (l : list A) :
  (forall a, In a l -> length (F a) = m) ->
  forall i r, (r < m)%nat ->
    nth_error (flat_map F l) (i * m + r)
    = match nth_error l i with
      | Some a => nth_error (F a) r
      | None => None
      end.
Proof.
  induction l as [|a l IH]; intros Hlen i r Hr.
  - cbn [flat_map]. destruct i; now rewrite ?nth_error_nil.
  - cbn [flat_map]. destruct i as [|i].
    + cbn [Nat.mul Nat.add nth_error]. apply nth_error_app1.
      rewrite Hlen by (left; reflexivity). exact Hr.
    + cbn [nth_error]. rewrite nth_error_app2
        by (rewrite Hlen by (left; reflexivity); cbn [Nat.mul]; lia).
      rewrite Hlen by (left; reflexivity).
      replace (S i * m + r - m)%nat with (i * m + r)%nat by (cbn [Nat.mul]; lia).
      apply IH; [|exact Hr]. intros b Hb. apply Hlen. right. exact Hb.
Qed.

Lemma indices_in_range (dims idx : list nat) :
  In idx (torch.indices dims) -> Forall2 lt idx dims.
Proof.
  revert idx. induction dims as [|d ds IH]; intros idx Hin; cbn [torch.indices] in Hin.
  - destruct Hin as [<-|[]]. constructor.
  - apply in_flat_map in Hin. destruct Hin as [i [Hi Hin]].
    apply in_map_iff in Hin. destruct Hin as [idx' [<- Hin']].
    apply in_seq in Hi. constructor; [lia|]. apply IH. exact Hin'.
Qed.

Lemma indices_length (dims : list nat) :
  length (torch.indices dims) = fold_right Nat.mul 1%nat dims.
Proof.
  induction dims as [|d ds IH]; [reflexivity|]. cbn [torch.indices fold_right].
  rewrite (flat_map_constant_length (c := fold_right Nat.mul 1%nat ds)).
  - now rewrite length_seq.
  - intros i _. now rewrite length_map.
Qed.

Lemma offset_in_range (dims idx : list nat) :
  Forall2 lt idx dims ->
  (torch.offset (torch.strides dims) idx < fold_right Nat.mul 1%nat dims)%nat.
Proof.
  induction 1 as [|i d idx ds Hi _ IH]; cbn [torch.strides torch.offset fold_right].
  - destruct (torch.strides []); cbn; lia.
  - nia.
Qed.

(** The multi-indices come in row-major order. *)
Lemma indices_nth (dims idx : list nat) :
  Forall2 lt idx dims ->
  nth_error (torch.indices dims) (torch.offset (torch.strides dims) idx) = Some idx.
Proof.
  induction 1 as [|i d idx ds Hi Hrest IH].
  - reflexivity.
  - cbn [torch.indices torch.strides torch.offset].
    rewrite nth_error_flat_map_uniform with (m := fold_right Nat.mul 1%nat ds).
    + rewrite nth_error_seq. destruct (Nat.ltb_spec i d); [|lia].
      cbn [Nat.add]. rewrite nth_error_map, IH. reflexivity.
    + intros a _. rewrite length_map. apply indices_length.
    + apply offset_in_range. exact Hrest.
Qed.

Lemma flat_map_lookup_length {A I} (h : I -> option A) (l : list I) :
  (forall a, In a l -> h a <> None) ->
  length (flat_map (fun a => match h a with Some v => [v] | None => [] end) l)
  = length l.
Proof.
  intros Hh. rewrite (flat_map_constant_length (c := 1%nat)); [lia|].
  intros a Ha. specialize (Hh a Ha). destruct (h a); [reflexivity|congruence].
Qed.

Lemma flat_map_lookup_nth {A I} (h : I -> option A) (l : list I) (k : nat) (a : I) :
  (forall a, In a l -> h a <> None) ->
  nth_error l k = Some a ->
  nth_error (flat_map (fun a => match h a with Some v => [v] | None => [] end) l) k
  = h a.
Proof.
  intros Hh Hk.
  replace k with (k * 1 + 0)%nat by lia.
  rewrite nth_error_flat_map_uniform with (m := 1%nat); [| |lia].
  - rewrite Hk. pose proof (Hh a (nth_error_In _ _ Hk)).
    destruct (h a); [reflexivity|congruence].
  - intros b Hb. specialize (Hh b Hb). destruct (h b); [reflexivity|congruence].
Qed.

(** [permute((0, 3, 1, 2))] of a well-formed (b, h, w, c) tensor is the
    (b, c, h, w) tensor with the last axis moved to position 1. *)
Lemma permute_channels_first {A} (g : tensor A) (B H W C : Z) :
  shape g = [B; H; W; C] -> 0 <= B -> 0 <= H -> 0 <= W -> 0 <= C ->
  numel g = B * H * W * C ->
  exists t,
    torch.permute g [0; 3; 1; 2]%nat = Ok t
    /\ shape t = [B; C; H; W]
    /\ numel t = numel g
    /\ forall b c i j,
         (b < Z.to_nat B)%nat -> (c < Z.to_nat C)%nat ->
         (i < Z.to_nat H)%nat -> (j < Z.to_nat W)%nat ->
         torch.at_ t [b; c; i; j] = torch.at_ g [b; i; j; c]
         /\ torch.at_ g [b; i; j; c]
            = nth_error (data g)
                (((b * Z.to_nat H + i) * Z.to_nat W + j) * Z.to_nat C + c)
         /\ torch.at_ g [b; i; j; c] <> None.
Proof.
  intros Hs HB HH HW HC Hn. unfold torch.permute. rewrite Hs.
  cbn [length torch.is_permutation Nat.eqb seq forallb existsb andb orb map nth
       torch.strides fold_right].
  eexists. split; [reflexivity|].
  set (nB := Z.to_nat B). set (nH := Z.to_nat H).
  set (nW := Z.to_nat W). set (nC := Z.to_nat C).
  assert (Hlen : length (data g) = (nB * nH * nW * nC)%nat).
  { unfold numel in Hn. subst nB nH nW nC.
    rewrite <- !Z2Nat.inj_mul by nia. lia. }
  assert (Hoff : forall b c i j,
             torch.offset [(nH * (nW * (nC * 1)))%nat; 1%nat; (nW * (nC * 1))%nat;
                           (nC * 1)%nat] [b; c; i; j]
             = (((b * nH + i) * nW + j) * nC + c)%nat).
  { intros. cbn [torch.offset]. lia. }
  assert (Hbound : forall b c i j,
             (b < nB)%nat -> (c < nC)%nat -> (i < nH)%nat -> (j < nW)%nat ->
             ((((b * nH + i) * nW + j) * nC + c) < nB * nH * nW * nC)%nat).
  { intros b c i j Hb Hc Hi Hj.
    assert (Hr : Forall2 lt [b; i; j; c] [nB; nH; nW; nC])
      by (repeat constructor; assumption).
    pose proof (offset_in_range Hr) as Ho.
    cbn [torch.strides torch.offset fold_right] in Ho. lia. }
  assert (Hin : forall idx, In idx (torch.indices [nB; nC; nH; nW]) ->
             nth_error (data g)
               (torch.offset [(nH * (nW * (nC * 1)))%nat; 1%nat;
                              (nW * (nC * 1))%nat; (nC * 1)%nat] idx) <> None).
  { intros idx Hidx. apply indices_in_range in Hidx.
    inversion Hidx as [|b ? idx1 ? Hb H1]; subst.
    inversion H1 as [|c ? idx2 ? Hc H2]; subst.
    inversion H2 as [|i ? idx3 ? Hi H3]; subst.
    inversion H3 as [|j ? idx4 ? Hj H4]; subst.
    inversion H4; subst.
    rewrite Hoff. apply nth_error_Some. rewrite Hlen. apply Hbound; assumption. }
  cbn [shape data]. split; [reflexivity|]. split.
  - unfold numel. cbn [data].
    rewrite (flat_map_lookup_length _ _ Hin), indices_length, Hlen.
    cbn [fold_right]. f_equal. lia.
  - intros b c i j Hb Hc Hi Hj. unfold torch.at_. cbn [shape data]. rewrite Hs.
    cbn [map torch.strides fold_right]. fold nB nH nW nC.
    assert (Hr : Forall2 lt [b; c; i; j] [nB; nC; nH; nW])
      by (repeat constructor; assumption).
    pose proof (indices_nth Hr) as Hnth.
    cbn [torch.strides fold_right] in Hnth.
    rewrite (@flat_map_lookup_nth _ _ _ _ _ _ Hin Hnth). rewrite Hoff.
    assert (Ho2 : torch.offset [(nH * (nW * (nC * 1)))%nat; (nW * (nC * 1))%nat;
                                (nC * 1)%nat; 1%nat] [b; i; j; c]
                  = (((b * nH + i) * nW + j) * nC + c)%nat)
      by (cbn [torch.offset]; lia).
    rewrite Ho2. split; [reflexivity|]. split; [reflexivity|].
    apply nth_error_Some. rewrite Hlen. apply Hbound; assumption.
Qed.

(** ** The shape of the predictions *)

Lemma blocks_length {A} (n p : nat) (d : list A) : length (blocks n p d) = n.
Proof.
  revert d. induction n as [|n IH]; intros d; cbn [blocks length]; [reflexivity|].
  now rewrite IH.
Qed.

Lemma per_patch_shape {score} (f : list Z -> list score) (k : Z) (t : tensor Z) :
  (forall p, length (f p) = Z.to_nat k) -> 0 <= k -> 0 <= len t ->
  shape (per_patch f k t) = [len t; k]
  /\ numel (per_patch f k t) = len t * k.
Proof.
  intros Hf Hk Hl. split; [reflexivity|]. unfold numel, per_patch. cbn [data].
  rewrite (flat_map_constant_length (c := Z.to_nat k)) by (intros; apply Hf).
  rewrite blocks_length. nia.
Qed.

(** Concatenating batches of rows of [n] scores. *)
Lemma cat_rows {A} (ts : list (tensor A)) (n : Z) :
  ts <> [] ->
  Forall (fun u => shape u = [len u; n] /\ numel u = len u * n) ts ->
  exists r,
    torch.cat ts = Ok r
    /\ shape r = [sum (map len ts); n]
    /\ numel r = sum (map len ts) * n.
Proof.
  intros Hne Hall. unfold torch.cat. destruct ts as [|t ts]; [congruence|].
  assert (Ht : tl (shape t) = [n]).
  { inversion Hall as [|? ? [Hs _] _]; subst. rewrite Hs. reflexivity. }
  rewrite Ht.
  assert (Hb : forallb (fun u => match shape u with
                                 | [] => false
                                 | _ :: r => shape_eqb r [n]
                                 end) (t :: ts) = true).
  { apply forallb_forall. intros u Hu. rewrite Forall_forall in Hall.
    destruct (Hall u Hu) as [Hs _]. rewrite Hs. cbn [shape_eqb].
    now rewrite Z.eqb_refl. }
  rewrite Hb. eexists. split; [reflexivity|]. cbn [shape]. split; [reflexivity|].
  unfold numel. cbn [data]. clear Hne Ht Hb.
  induction Hall as [|u us [_ Hu] _ IH]; cbn [map concat sum fold_right].
  - reflexivity.
  - rewrite length_app. unfold numel in Hu. unfold sum in IH. nia.
Qed.

Section Shape.

Context {score : Type}.
Variable self : GridNet score.

Lemma classify_patches_shape (fuel : nat) (patch_list : tensor Z) :
  scores_per_patch self ->
  tl (shape patch_list) = patch_shape self ->
  0 < len patch_list ->
  (forall limit, atonce_patch_limit self = Some limit ->
     1 <= limit /\ (n_chunks limit (len patch_list) <= fuel)%nat) ->
  exists preds cl,
    classify_patches fuel self patch_list = Ok (preds, cl)
    /\ shape preds = [len patch_list; n_classes self]
    /\ numel preds = len patch_list * n_classes self.
Proof.
  intros Hsp Htl Hpos Hlim.
  assert (Hne : shape patch_list <> []).
  { unfold len in Hpos. destruct (shape patch_list); cbn in *; [lia|congruence]. }
  unfold classify_patches. destruct (atonce_patch_limit self) as [limit|].
  - destruct (Hlim limit eq_refl) as [Hl Hf].
    rewrite chunk_loop_fuel_enough by assumption. cbn [bind cp_chunks calls].
    pose proof (n_chunks_bounds Hl Hpos) as Hb.
    destruct (@cat_rows _ (classified_chunks (patch_classifier self) limit patch_list)
                (n_classes self)) as [r [Hr [Hs Hn]]].
    + unfold classified_chunks, chunk_bounds. rewrite map_map.
      destruct (n_chunks limit (len patch_list)); [lia|discriminate].
    + unfold classified_chunks. apply Forall_forall. intros u Hu.
      apply in_map_iff in Hu. destruct Hu as [b [<- Hb']].
      pose proof (@chunk_bounds_sizes limit (len patch_list) Hl) as Hsz.
      rewrite Forall_forall in Hsz. specialize (Hsz b Hb').
      destruct (Hsp (slice patch_list (fst b) (snd b))) as [Hs Hn];
        try (cbn [slice shape len hd tl]; first [assumption|discriminate|lia]).
      rewrite Hs, Hn. unfold len at 2 4. rewrite Hs. cbn [hd].
      split; reflexivity.
    + rewrite Hr. cbn [bind]. eexists. eexists. split; [reflexivity|].
      assert (Hsum : sum (map len (classified_chunks (patch_classifier self) limit
                                     patch_list)) = len patch_list).
      { unfold classified_chunks. rewrite map_map.
        transitivity (sum (map snd (chunk_bounds limit (len patch_list)))).
        - f_equal. apply map_ext_in. intros b Hb'.
          pose proof (@chunk_bounds_sizes limit (len patch_list) Hl) as Hsz.
          rewrite Forall_forall in Hsz. specialize (Hsz b Hb').
          destruct (Hsp (slice patch_list (fst b) (snd b))) as [Hs' _];
            try (cbn [slice shape len hd tl]; first [assumption|discriminate|lia]).
          unfold len at 1. rewrite Hs'. reflexivity.
        - unfold chunk_bounds. rewrite map_map.
          rewrite (sum_chunk_sizes Hl (n := len patch_list)) by (try lia; intros; lia).
          lia. }
      rewrite Hs, Hn, Hsum. split; reflexivity.
  - cbn [_ppl bind]. eexists. eexists. split; [reflexivity|].
    apply Hsp; [assumption|assumption|lia].
Qed.

End Shape.

(** C4: for a valid input (batch, grid_h, grid_w, channels, patch_h,
    patch_w) matching the declared patch and grid shapes, with a classifier
    that returns [n_classes] scores per patch (and a chunk limit, if any, of
    at least 1), [patch_predictions] returns a tensor of shape
    (batch, n_classes, grid_h, grid_w): the flat predictions, reshaped to
    (batch, grid_h, grid_w, n_classes), with the class axis moved to
    position 1, so that entry (b, c, i, j) is score c of patch
    (b * grid_h + i) * grid_w + j. *)
Theorem patch_predictions_shape
    {score} (self : GridNet score) (batch gh gw : Z) (x : tensor Z) :
  Forall (fun d => 0 < d) (patch_shape self) ->
  grid_shape self = [gh; gw] -> 0 < gh -> 0 < gw ->
  0 < n_classes self -> 0 < batch ->
  numel x = batch * gh * gw * prod (patch_shape self) ->
  (forall limit, atonce_patch_limit self = Some limit -> 1 <= limit) ->
  scores_per_patch self ->
  exists preds grid t,
    (exists cl,
       classify_patches (Z.to_nat (numel x)) self
         (mkTensor (batch * gh * gw :: patch_shape self) (data x)) = Ok (preds, cl))
    /\ shape preds = [batch * gh * gw; n_classes self]
    /\ torch.reshape preds [gh; gw; n_classes self] = Ok grid
    /\ shape grid = [batch; gh; gw; n_classes self]
    /\ data grid = data preds
    /\ torch.permute grid [0; 3; 1; 2]%nat = Ok t
    /\ patch_predictions self x = Ok t
    /\ shape t = [batch; n_classes self; gh; gw]
    /\ forall b c i j,
         (b < Z.to_nat batch)%nat -> (c < Z.to_nat (n_classes self))%nat ->
         (i < Z.to_nat gh)%nat -> (j < Z.to_nat gw)%nat ->
         torch.at_ t [b; c; i; j] = torch.at_ grid [b; i; j; c]
         /\ torch.at_ grid [b; i; j; c]
            = nth_error (data preds)
                (((b * Z.to_nat gh + i) * Z.to_nat gw + j)
                 * Z.to_nat (n_classes self) + c)
         /\ torch.at_ grid [b; i; j; c] <> None.
Proof.
  intros Hps Hgs Hgh Hgw Hnc Hb Hn Hlim Hsp.
  pose proof (prod_pos Hps) as Hpp.
  set (patch_list := mkTensor (batch * gh * gw :: patch_shape self) (data x)).
  assert (Hr : torch.reshape x (patch_shape self) = Ok patch_list)
    by (apply reshape_exact; assumption).
  assert (Hlen : len patch_list = batch * gh * gw) by reflexivity.
  assert (Hpos : 0 < len patch_list) by (rewrite Hlen; nia).
  destruct (@classify_patches_shape _ self (Z.to_nat (numel x)) patch_list Hsp
              eq_refl Hpos) as [preds [cl [Hc [Hs Hnp]]]].
  { intros limit Hl. split; [apply Hlim; exact Hl|].
    etransitivity; [apply n_chunks_le; apply (Hlim _ Hl)|].
    apply Z2Nat.inj_le; try lia. rewrite Hn, Hlen. nia. }
  assert (Hg : torch.reshape preds [gh; gw; n_classes self]
               = Ok (mkTensor [batch; gh; gw; n_classes self] (data preds))).
  { apply reshape_exact.
    - repeat constructor; assumption.
    - rewrite Hnp, Hlen. cbn [prod fold_right]. lia. }
  destruct (@permute_channels_first _
              (mkTensor [batch; gh; gw; n_classes self] (data preds))
              batch gh gw (n_classes self) eq_refl)
    as [t [Hp [Hst [_ Hat]]]]; try lia.
  { unfold numel in *. cbn [data]. rewrite Hnp, Hlen. reflexivity. }
  exists preds, (mkTensor [batch; gh; gw; n_classes self] (data preds)), t.
  split; [exists cl; exact Hc|]. rewrite Hlen in Hs.
  repeat (split; [first [assumption|reflexivity]|]).
  split.
  - rewrite patch_predictions_stages, Hr. cbn [bind]. rewrite Hc. cbn [bind fst].
    rewrite Hgs. cbn [app]. rewrite Hg. cbn [bind]. exact Hp.
  - split; [exact Hst|]. exact Hat.
Qed.

Lemma ex_classifier_scores_per_patch (limit : option Z) :
  scores_per_patch (ex_net limit).
Proof.
  intros t _ _ Hl. cbn [ex_net GridNet_init patch_classifier n_classes ex_classifier call].
  apply per_patch_shape; [reflexivity|lia|exact Hl].
Qed.

Lemma patch_predictions_shape_witness :
  exists t,
    patch_predictions (ex_net (Some 4)) ex_input = Ok t
    /\ shape t = [3; 2; 2; 1]
    /\ torch.at_ t [2; 1; 0; 0]%nat = Some 9.
Proof.
  destruct (@patch_predictions_shape _ (ex_net (Some 4)) 3 2 1 ex_input)
    as [preds [grid [t [_ [_ [_ [_ [_ [_ [Hp [Hs _]]]]]]]]]]].
  - repeat constructor.
  - reflexivity.
  - reflexivity.
  - reflexivity.
  - reflexivity.
  - reflexivity.
  - reflexivity.
  - intros limit H. injection H as <-. discriminate.
  - apply ex_classifier_scores_per_patch.
  - exists t. split; [exact Hp|]. split; [exact Hs|].
    assert (Ht : Ok t = Ok (mkTensor [3; 2; 2; 1]
                              [3; 7; 1; 3; 11; 15; 5; 7; 19; 23; 9; 11]))
      by (rewrite <- Hp; reflexivity).
    injection Ht as ->. reflexivity.
Defined.

(** ** The background short-circuit *)

Lemma fold_left_max_ge (vs : list Z) (v : Z) :
  v <= fold_left Z.max vs v /\ Forall (fun u => u <= fold_left Z.max vs v) vs.
Proof.
  revert v. induction vs as [|u vs IH]; intros v; cbn [fold_left].
  - split; [lia|constructor].
  - destruct (IH (Z.max v u)) as [H1 H2]. split; [lia|].
    constructor; [lia|exact H2].
Qed.

Lemma fold_left_max_in (vs : list Z) (v : Z) :
  fold_left Z.max vs v = v \/ In (fold_left Z.max vs v) vs.
Proof.
  revert v. induction vs as [|u vs IH]; intros v; cbn [fold_left]; [left; reflexivity|].
  destruct (IH (Z.max v u)) as [H|H].
  - rewrite H. destruct (Z.max_spec v u) as [[_ ->]|[_ ->]]; [right; left|left];
      reflexivity.
  - right. right. exact H.
Qed.

Lemma torch_max_spec (x : tensor Z) :
  data x <> [] ->
  exists m, torch.max x = Ok m /\ In m (data x) /\ Forall (fun v => v <= m) (data x).
Proof.
  intros Hne. unfold torch.max. destruct (data x) as [|v vs]; [congruence|].
  eexists. split; [reflexivity|]. destruct (fold_left_max_ge vs v) as [H1 H2]. split.
  - destruct (fold_left_max_in vs v) as [->|H]; [left; reflexivity|right; exact H].
  - constructor; assumption.
Qed.

(** C8: for a patch [x] (of at least one pixel), [foreground_classifier]
    returns the constant background vector when the maximum element of [x]
    is 0, and the classifier's output on [x] otherwise.  So a patch with
    no positive value and some zero is treated as background even if it has
    negative values, and a patch of negative values only goes to the
    classifier. *)
Theorem foreground_classifier_tests_maximum
    {score} (self : GridNet score) (x : tensor Z) :
  data x <> [] ->
  (exists m,
     torch.max x = Ok m /\ In m (data x) /\ Forall (fun v => v <= m) (data x)
     /\ (m = 0 -> foreground_classifier self x = Ok (bg_const self))
     /\ (m <> 0 ->
         foreground_classifier self x
         = Ok (call (patch_classifier self) (torch.unsqueeze0 x))))
  /\ (In 0 (data x) -> Forall (fun v => v <= 0) (data x) ->
      foreground_classifier self x = Ok (bg_const self))
  /\ (Forall (fun v => v < 0) (data x) ->
      foreground_classifier self x
      = Ok (call (patch_classifier self) (torch.unsqueeze0 x))).
Proof.
  intros Hne. destruct (@torch_max_spec x Hne) as [m [Hm [Hin Hle]]].
  assert (H0 : m = 0 -> foreground_classifier self x = Ok (bg_const self)).
  { intros ->. unfold foreground_classifier. rewrite Hm. reflexivity. }
  assert (H1 : m <> 0 -> foreground_classifier self x
                         = Ok (call (patch_classifier self) (torch.unsqueeze0 x))).
  { intros Hm0. unfold foreground_classifier. rewrite Hm. cbn [bind].
    destruct (Z.eqb_spec m 0); [contradiction|reflexivity]. }
  split; [|split].
  - exists m. repeat split; assumption.
  - intros Hz Hall. apply H0. rewrite Forall_forall in Hall, Hle.
    specialize (Hall m Hin). specialize (Hle 0 Hz). lia.
  - intros Hall. apply H1. rewrite Forall_forall in Hall.
    specialize (Hall m Hin). lia.
Qed.

Lemma foreground_classifier_witness :
  foreground_classifier (ex_net None) ex_nonpositive_patch
  = Ok (mkTensor [1; 2] [0; 0])
  /\ foreground_classifier (ex_net None) ex_negative_patch
     = Ok (mkTensor [1; 2] [-3; -1]).
Proof.
  split.
  - apply (proj1 (proj2 (@foreground_classifier_tests_maximum _ (ex_net None)
                           ex_nonpositive_patch ltac:(discriminate)))).
    + right. right. left. reflexivity.
    + repeat constructor; discriminate.
  - apply (proj2 (proj2 (@foreground_classifier_tests_maximum _ (ex_net None)
                           ex_negative_patch ltac:(discriminate)))).
    repeat constructor.
Defined.

(** ** The corrector networks *)

(** The rectangular corrector keeps [n_classes] channels throughout. *)
Lemma corrector_channels (n : Z) (bn : bool) :
  sequential_channels (_init_corrector n bn) n = Ok n.
Proof.
  destruct bn; cbn [_init_corrector app sequential_channels layer_channels bind];
    repeat (rewrite Z.eqb_refl; cbn [bind]); reflexivity.
Qed.

(** Without batch normalization the hexagonal corrector is a stack from
    [n_classes] over 32 channels back to [n_classes]. *)
Lemma hex_corrector_channels_without_bn (n : Z) :
  sequential_channels (GridNetHex._init_corrector n false) n = Ok n
  /\ map snd (channels_seen (GridNetHex._init_corrector n false) n)
     = [n; 32; 32; 32; 32; 32; 32].
Proof.
  cbn [GridNetHex._init_corrector app sequential_channels channels_seen
       layer_channels bind map snd].
  repeat (rewrite Z.eqb_refl; cbn [bind map snd]). split; reflexivity.
Qed.

(** With batch normalization it only is when [n_classes] is 32. *)
Lemma hex_corrector_channels_with_bn (n : Z) :
  n <> 32 ->
  sequential_channels (GridNetHex._init_corrector n true) n = Raise RuntimeError
  /\ channels_seen (GridNetHex._init_corrector n true) n
     = [(HexConv2d n 32 1 1 true, n); (HexConv2d 32 32 1 1 true, 32);
        (BatchNorm2d n, 32)].
Proof.
  intros Hn.
  cbn [GridNetHex._init_corrector app sequential_channels channels_seen
       layer_channels bind].
  repeat (rewrite Z.eqb_refl; cbn [bind]).
  destruct (Z.eqb_spec 32 n); [congruence|]. split; reflexivity.
Qed.

(** C6: what the code does against the claim, for two classes with
    [use_bn] set: the batch-normalization layers are built for [n_classes]
    channels, the first of them receives the 32 channels of the convolution
    before it, and the forward pass of the network fails there, whatever the
    layers compute; without [use_bn] the same network has a forward pass. *)
Theorem hex_corrector_batchnorm_mismatch :
  corrector (ex_hex_net true)
  = [HexConv2d 2 32 1 1 true; HexConv2d 32 32 1 1 true; BatchNorm2d 2; ReLU;
     HexConv2d 32 32 1 1 true; HexConv2d 32 32 1 1 true; BatchNorm2d 2; ReLU;
     HexConv2d 32 2 1 1 true]
  /\ channels_seen (corrector (ex_hex_net true)) 2
     = [(HexConv2d 2 32 1 1 true, 2); (HexConv2d 32 32 1 1 true, 32);
        (BatchNorm2d 2, 32)]
  /\ sequential_channels (corrector (ex_hex_net true)) 2 = Raise RuntimeError
  /\ (forall apply_layer,
        forward apply_layer (ex_hex_net true) ex_input = Raise RuntimeError)
  /\ (forall apply_layer,
        exists t, forward apply_layer (ex_hex_net false) ex_input = Ok t).
Proof.
  repeat split. intros apply_layer. eexists. reflexivity.
Qed.

(** ** Flattening a batch: rows and positions *)

(** [permute((0, 2, 3, 1))] of a well-formed (b, c, h, w) tensor is the
    (b, h, w, c) tensor with the channel axis moved to the end. *)
Lemma permute_channels_last {A} (g : tensor A) (B C H W : Z) :
  shape g = [B; C; H; W] -> 0 <= B -> 0 <= C -> 0 <= H -> 0 <= W ->
  numel g = B * C * H * W ->
  exists t,
    torch.permute g [0; 2; 3; 1]%nat = Ok t
    /\ shape t = [B; H; W; C]
    /\ numel t = numel g
    /\ forall b i j c,
         (b < Z.to_nat B)%nat -> (i < Z.to_nat H)%nat ->
         (j < Z.to_nat W)%nat -> (c < Z.to_nat C)%nat ->
         nth_error (data t)
           (((b * Z.to_nat H + i) * Z.to_nat W + j) * Z.to_nat C + c)
         = torch.at_ g [b; c; i; j]
         /\ torch.at_ g [b; c; i; j] <> None.
Proof.
  intros Hs HB HC HH HW Hn. unfold torch.permute. rewrite Hs.
  cbn [length torch.is_permutation Nat.eqb seq forallb existsb andb orb map nth
       torch.strides fold_right].
  eexists. split; [reflexivity|].
  set (nB := Z.to_nat B). set (nC := Z.to_nat C).
  set (nH := Z.to_nat H). set (nW := Z.to_nat W).
  assert (Hlen : length (data g) = (nB * nC * nH * nW)%nat).
  { unfold numel in Hn. subst nB nH nW nC.
    rewrite <- !Z2Nat.inj_mul by nia. lia. }
  assert (Hoff : forall b i j c,
             torch.offset [(nC * (nH * (nW * 1)))%nat; (nW * 1)%nat; 1%nat;
                           (nH * (nW * 1))%nat] [b; i; j; c]
             = (((b * nC + c) * nH + i) * nW + j)%nat).
  { intros. cbn [torch.offset]. lia. }
  assert (Hbound : forall b c i j,
             (b < nB)%nat -> (c < nC)%nat -> (i < nH)%nat -> (j < nW)%nat ->
             ((((b * nC + c) * nH + i) * nW + j) < nB * nC * nH * nW)%nat).
  { intros b c i j Hb Hc Hi Hj.
    assert (Hr : Forall2 lt [b; c; i; j] [nB; nC; nH; nW])
      by (repeat constructor; assumption).
    pose proof (offset_in_range Hr) as Ho.
    cbn [torch.strides torch.offset fold_right] in Ho. lia. }
  assert (Hin : forall idx, In idx (torch.indices [nB; nH; nW; nC]) ->
             nth_error (data g)
               (torch.offset [(nC * (nH * (nW * 1)))%nat; (nW * 1)%nat; 1%nat;
                              (nH * (nW * 1))%nat] idx) <> None).
  { intros idx Hidx. apply indices_in_range in Hidx.
    inversion Hidx as [|b ? idx1 ? Hb H1]; subst.
    inversion H1 as [|i ? idx2 ? Hi H2]; subst.
    inversion H2 as [|j ? idx3 ? Hj H3]; subst.
    inversion H3 as [|c ? idx4 ? Hc H4]; subst.
    inversion H4; subst.
    rewrite Hoff. apply nth_error_Some. rewrite Hlen. apply Hbound; assumption. }
  cbn [shape data]. split; [reflexivity|]. split.
  - unfold numel. cbn [data].
    rewrite (flat_map_lookup_length _ _ Hin), indices_length, Hlen.
    cbn [fold_right]. f_equal. lia.
  - intros b i j c Hb Hi Hj Hc. unfold torch.at_. rewrite Hs.
    cbn [map torch.strides fold_right]. fold nB nH nW nC.
    assert (Hr : Forall2 lt [b; i; j; c] [nB; nH; nW; nC])
      by (repeat constructor; assumption).
    pose proof (indices_nth Hr) as Hnth.
    cbn [torch.strides torch.offset fold_right] in Hnth.
    replace (((b * nH + i) * nW + j) * nC + c)%nat
      with (b * (nH * (nW * (nC * 1))) + (i * (nW * (nC * 1))
            + (j * (nC * 1) + (c * 1 + 0))))%nat by lia.
    rewrite (@flat_map_lookup_nth _ _ _ _ _ _ Hin Hnth). rewrite Hoff.
    assert (Ho2 : torch.offset [(nC * (nH * (nW * 1)))%nat; (nH * (nW * 1))%nat;
                                (nW * 1)%nat; 1%nat] [b; c; i; j]
                  = (((b * nC + c) * nH + i) * nW + j)%nat)
      by (cbn [torch.offset]; lia).
    rewrite Ho2. split; [reflexivity|].
    apply nth_error_Some. rewrite Hlen. apply Hbound; assumption.
Qed.

(** Predictions (b, c, h, w) and labels (b', h, w) pass the assertion and
    are flattened to rows of [c] scores and to a list of labels. *)
Lemma flatten_batch_ok {score} (outputs : tensor score) (labels : tensor Z)
    (B B' C H W : Z) :
  shape outputs = [B; C; H; W] -> 0 <= B -> 0 < C -> 0 <= H -> 0 <= W ->
  numel outputs = B * C * H * W ->
  shape labels = [B'; H; W] ->
  exists o,
    flatten_batch outputs labels = Ok (o, mkTensor [numel labels] (data labels))
    /\ shape o = [B * H * W; C]
    /\ forall b i j c,
         (b < Z.to_nat B)%nat -> (i < Z.to_nat H)%nat ->
         (j < Z.to_nat W)%nat -> (c < Z.to_nat C)%nat ->
         nth_error (data o)
           (((b * Z.to_nat H + i) * Z.to_nat W + j) * Z.to_nat C + c)
         = torch.at_ outputs [b; c; i; j]
         /\ torch.at_ outputs [b; c; i; j] <> None.
Proof.
  intros Hs HB HC HH HW Hn Hl. unfold flatten_batch. rewrite Hs, Hl.
  cbn [index nth_error bind]. rewrite !Z.eqb_refl. cbn [negb].
  destruct (@permute_channels_last _ outputs B C H W Hs)
    as [t [Hp [Hst [Hnt Hat]]]]; try lia.
  rewrite Hp. cbn [bind]. rewrite Hst. cbn [last].
  rewrite (@reshape_exact _ t [C] (B * H * W)).
  2:{ repeat constructor. exact HC. }
  2:{ rewrite Hnt, Hn. cbn [prod fold_right]. lia. }
  cbn [bind].
  rewrite (@reshape_exact _ labels [] (numel labels)).
  2:{ constructor. }
  2:{ cbn [prod fold_right]. lia. }
  cbn [bind]. eexists. split; [reflexivity|]. cbn [shape data].
  split; [reflexivity|exact Hat].
Qed.

Lemma index_decompose (nB nH nW nC k : nat) :
  (k < nB * nH * nW * nC)%nat ->
  exists b i j c,
    (b < nB)%nat /\ (i < nH)%nat /\ (j < nW)%nat /\ (c < nC)%nat
    /\ k = (((b * nH + i) * nW + j) * nC + c)%nat.
Proof.
  intros Hk.
  assert (HC : nC <> 0%nat) by (intros ->; lia).
  assert (HW : nW <> 0%nat) by (intros ->; lia).
  assert (HH : nH <> 0%nat) by (intros ->; lia).
  exists (k / nC / nW / nH)%nat, ((k / nC / nW) mod nH)%nat,
         ((k / nC) mod nW)%nat, (k mod nC)%nat.
  split; [|split; [|split; [|split]]].
  - apply Nat.Div0.div_lt_upper_bound. apply Nat.Div0.div_lt_upper_bound.
    apply Nat.Div0.div_lt_upper_bound. lia.
  - apply Nat.mod_upper_bound. exact HH.
  - apply Nat.mod_upper_bound. exact HW.
  - apply Nat.mod_upper_bound. exact HC.
  - pose proof (Nat.div_mod_eq k nC) as H1.
    pose proof (Nat.div_mod_eq (k / nC) nW) as H2.
    pose proof (Nat.div_mod_eq (k / nC / nW) nH) as H3.
    replace (k / nC / nW / nH * nH + (k / nC / nW) mod nH)%nat
      with (k / nC / nW)%nat by lia.
    replace (k / nC / nW * nW + (k / nC) mod nW)%nat with (k / nC)%nat by lia.
    lia.
Qed.

(** ** Background masking *)

Lemma select_single_blocks (f : Z -> bool) (d : list Z) :
  concat (select (map f d) (blocks (length d) 1 d)) = filter f d.
Proof.
  induction d as [|v d IH]; [reflexivity|].
  cbn [length blocks firstn skipn map select filter].
  destruct (f v); cbn [concat app]; now rewrite IH.
Qed.

Lemma count_true_map (f : Z -> bool) (d : list Z) :
  count_true (map f d) = Z.of_nat (length (filter f d)).
Proof.
  unfold count_true. f_equal. induction d as [|v d IH]; [reflexivity|].
  cbn [map filter]. destruct (f v); cbn [length]; now rewrite IH.
Qed.

Lemma shape_eqb_refl (sh : list Z) : shape_eqb sh sh = true.
Proof.
  induction sh as [|d sh IH]; [reflexivity|]. cbn [shape_eqb].
  now rewrite Z.eqb_refl.
Qed.

Lemma select_agree {A} (mask : list bool) :
  forall rs rs' : list A,
    length rs = length rs' ->
    (forall i, nth_error mask i = Some true -> nth_error rs i = nth_error rs' i) ->
    select mask rs = select mask rs'.
Proof.
  induction mask as [|m mask IH]; intros rs rs' Hlen Hag; [reflexivity|].
  destruct rs as [|r rs], rs' as [|r' rs']; try discriminate; [reflexivity|].
  cbn [select].
  assert (Hrest : select mask rs = select mask rs').
  { apply IH; [cbn in Hlen; lia|]. intros i Hi. exact (Hag (S i) Hi). }
  destruct m; [|exact Hrest].
  specialize (Hag 0%nat eq_refl). cbn in Hag. injection Hag as ->.
  now rewrite Hrest.
Qed.

(** The retained labels are the positive labels, in order. *)
Lemma retained_labels_filter (labels : tensor Z) (n : Z) :
  shape labels = [n] -> numel labels = n ->
  retained_labels labels
  = Ok (mkTensor [Z.of_nat (length (filter (fun l => 0 <? l) (data labels)))]
          (filter (fun l => 0 <? l) (data labels))).
Proof.
  intros Hs Hn. unfold retained_labels, mask_select. rewrite Hs.
  cbn [gt0 shape data]. rewrite Hs, shape_eqb_refl.
  cbn [prod fold_right]. change (Z.to_nat 1) with 1%nat.
  replace (Z.to_nat n) with (length (data labels)) by (unfold numel in Hn; lia).
  rewrite select_single_blocks, count_true_map. reflexivity.
Qed.

Section Masking.

Context {W G O L score : Type}.
Variable env : @collaborators W G L score.

(** Masking by [label > 0]: what is retained, and that predictions which
    agree on the rows of positive labels are masked to the same rows. *)
Lemma mask_foreground_agree
    (accum_iters n : Z) (rest : list Z) (outputs outputs' : tensor score)
    (labels : tensor Z) :
  shape labels = [n] -> numel labels = n ->
  shape outputs = n :: rest -> shape outputs' = n :: rest ->
  (forall i l, nth_error (data labels) i = Some l -> 0 < l ->
     nth_error (blocks (Z.to_nat n) (Z.to_nat (prod rest)) (data outputs)) i
     = nth_error (blocks (Z.to_nat n) (Z.to_nat (prod rest)) (data outputs')) i) ->
  exists retained masked,
    retained_labels labels = Ok retained
    /\ data retained = filter (fun l => 0 <? l) (data labels)
    /\ Forall (fun l => 1 <= l) (data retained)
    /\ Forall (fun l => 0 <= l) (data (decrement retained))
    /\ mask_foreground outputs labels = Ok (masked, decrement retained)
    /\ masked
       = mkTensor (Z.of_nat (length (filter (fun l => 0 <? l) (data labels))) :: rest)
           (concat (select (map (fun l => 0 <? l) (data labels))
                      (blocks (Z.to_nat n) (Z.to_nat (prod rest)) (data outputs))))
    /\ len (decrement retained)
       = Z.of_nat (length (filter (fun l => 0 <? l) (data labels)))
    /\ mask_foreground outputs' labels = Ok (masked, decrement retained)
    /\ (forall masked' labels',
          mask_foreground outputs' labels = Ok (masked', labels') ->
          batch_loss env accum_iters masked' labels'
          = batch_loss env accum_iters masked (decrement retained)
          /\ corrects (predictions env masked') labels'
             = corrects (predictions env masked) (decrement retained)
          /\ len labels' = len (decrement retained)).
Proof.
  intros Hs Hn Ho Ho' Hag.
  pose proof (@retained_labels_filter labels n Hs Hn) as Hr.
  assert (Hm : forall o : tensor score, shape o = n :: rest ->
             mask_select o (gt0 labels)
             = Ok (mkTensor (count_true (data (gt0 labels)) :: rest)
                     (concat (select (data (gt0 labels))
                                (blocks (Z.to_nat n) (Z.to_nat (prod rest)) (data o)))))).
  { intros o Hso. unfold mask_select. rewrite Hso. cbn [gt0 shape].
    rewrite Hs, shape_eqb_refl. reflexivity. }
  assert (Hsel : select (data (gt0 labels))
                   (blocks (Z.to_nat n) (Z.to_nat (prod rest)) (data outputs'))
                 = select (data (gt0 labels))
                     (blocks (Z.to_nat n) (Z.to_nat (prod rest)) (data outputs))).
  { apply select_agree; [now rewrite !blocks_length|].
    intros i Hi. cbn [gt0 data] in Hi. rewrite nth_error_map in Hi.
    destruct (nth_error (data labels) i) as [l|] eqn:Hl; [|discriminate].
    cbn in Hi. injection Hi as Hi. symmetry. apply (Hag i l Hl).
    destruct (Z.ltb_spec 0 l); [assumption|discriminate]. }
  eexists. eexists. split; [exact Hr|]. cbn [data].
  split; [reflexivity|].
  assert (Hpos : Forall (fun l => 1 <= l) (filter (fun l => 0 <? l) (data labels))).
  { apply Forall_forall. intros l Hl. apply filter_In in Hl. destruct Hl as [_ Hl].
    destruct (Z.ltb_spec 0 l); [lia|discriminate]. }
  split; [exact Hpos|]. split.
  { cbn [decrement data]. rewrite Forall_map. eapply Forall_impl; [|exact Hpos].
    cbn beta. intros; lia. }
  assert (Hmf : forall o : tensor score, shape o = n :: rest ->
             mask_foreground o labels
             = Ok (mkTensor (count_true (data (gt0 labels)) :: rest)
                     (concat (select (data (gt0 labels))
                                (blocks (Z.to_nat n) (Z.to_nat (prod rest)) (data o)))),
                   decrement
                     (mkTensor
                        [Z.of_nat (length (filter (fun l => 0 <? l) (data labels)))]
                        (filter (fun l => 0 <? l) (data labels))))).
  { intros o Hso. unfold mask_foreground. rewrite (Hm o Hso). cbn [bind].
    rewrite Hr. reflexivity. }
  split; [apply Hmf; exact Ho|].
  split; [cbn [gt0 data]; rewrite count_true_map; reflexivity|].
  split; [reflexivity|].
  assert (Hsame : mask_foreground outputs' labels
                  = mask_foreground outputs labels).
  { rewrite (Hmf _ Ho), (Hmf _ Ho'), Hsel. reflexivity. }
  split; [rewrite Hsame; apply Hmf; exact Ho|].
  intros masked' labels' H'. rewrite Hsame, (Hmf _ Ho) in H'.
  injection H' as <- <-. repeat split; reflexivity.
Qed.


Lemma blocks_nth {A} (n p : nat) :
  forall (d : list A) (i : nat),
    (i < n)%nat -> nth_error (blocks n p d) i = Some (firstn p (skipn (i * p) d)).
Proof.
  induction n as [|n IH]; intros d i Hi; [lia|]. cbn [blocks].
  destruct i as [|i]; [reflexivity|]. cbn [nth_error].
  rewrite IH by lia. rewrite skipn_skipn. do 3 f_equal. lia.
Qed.

Lemma position_decompose (nB nH nW k : nat) :
  (k < nB * nH * nW)%nat ->
  exists b i j,
    (b < nB)%nat /\ (i < nH)%nat /\ (j < nW)%nat
    /\ k = ((b * nH + i) * nW + j)%nat.
Proof.
  intros Hk.
  destruct (@index_decompose nB nH nW 1 k ltac:(lia))
    as [b [i [j [c [Hb [Hi [Hj [Hc Heq]]]]]]]].
  exists b, i, j. repeat split; try assumption. lia.
Qed.

(** C3: for every batch of the loop, in either phase: the labels that the
    mask [label > 0] retains are the positive labels, each at least 1
    before the decrement and at least 0 after it, and the predictions
    retained are the rows of the flattened predictions at these positions;
    the batch adds to the running loss the loss of the retained
    predictions and labels, to the correct count the correct ones among
    them, and to the foreground count the number of positive labels.
    Positions labelled 0 contribute to none of them: a model whose
    predictions differ only at such positions leaves the batch with the
    same retained predictions and labels and the same running loss,
    correct count and foreground count. *)
Theorem background_masking
    (model_call' : @model W G -> tensor Z -> tensor score)
    (ph : phase) (accum_iters batch_ind : Z) (inputs labels : tensor Z)
    (st : @train_state W G O) (run : @running L score)
    (batch classes height width : Z) :
  let env' := with_model_call env model_call' in
  let outputs := model_call env (the_model st) inputs in
  let outputs' := model_call' (the_model st) inputs in
  shape outputs = [batch; classes; height; width] ->
  numel outputs = batch * classes * height * width ->
  shape outputs' = [batch; classes; height; width] ->
  numel outputs' = batch * classes * height * width ->
  0 <= batch -> 0 < classes -> 0 <= height -> 0 <= width ->
  shape labels = [batch; height; width] ->
  numel labels = batch * height * width ->
  accum_iters <> 0 ->
  (forall b i j c l,
     (b < Z.to_nat batch)%nat -> (i < Z.to_nat height)%nat ->
     (j < Z.to_nat width)%nat -> (c < Z.to_nat classes)%nat ->
     nth_error (data labels) ((b * Z.to_nat height + i) * Z.to_nat width + j)
     = Some l ->
     0 < l ->
     torch.at_ outputs' [b; c; i; j] = torch.at_ outputs [b; c; i; j]) ->
  exists flat masked retained st1 st2 run',
    flatten_batch outputs labels
    = Ok (flat, mkTensor [numel labels] (data labels))
    /\ data retained = filter (fun l => 0 <? l) (data labels)
    /\ Forall (fun l => 1 <= l) (data retained)
    /\ Forall (fun l => 0 <= l) (data (decrement retained))
    /\ masked
       = mkTensor [Z.of_nat (length (filter (fun l => 0 <? l) (data labels)));
                   classes]
           (concat (select (map (fun l => 0 <? l) (data labels))
                      (blocks (Z.to_nat (batch * height * width))
                         (Z.to_nat classes) (data flat))))
    /\ batch_forward env inputs labels (the_model st)
       = Ok (masked, decrement retained)
    /\ batch_forward env' inputs labels (the_model st)
       = Ok (masked, decrement retained)
    /\ batch_step env ph accum_iters batch_ind (inputs, labels) (st, run)
       = Ok (st1, run')
    /\ batch_step env' ph accum_iters batch_ind (inputs, labels) (st, run)
       = Ok (st2, run')
    /\ running_loss run'
       = running_loss run
         ++ [(batch_loss env accum_iters masked (decrement retained), len inputs)]
    /\ running_corrects run'
       = Some (match running_corrects run with
               | None => corrects (predictions env masked) (decrement retained)
               | Some c => c + corrects (predictions env masked) (decrement retained)
               end)
    /\ running_foreground run'
       = running_foreground run
         + Z.of_nat (length (filter (fun l => 0 <? l) (data labels))).
Proof.
  intros env' outputs outputs' Hso Hno Hso' Hno' HB HC HH HW Hsl Hnl Ha Hag.
  destruct (@flatten_batch_ok _ outputs labels batch batch classes height width)
    as [o [Hf [Hos Hat]]]; try assumption.
  destruct (@flatten_batch_ok _ outputs' labels batch batch classes height width)
    as [o' [Hf' [Hos' Hat']]]; try assumption.
  set (l := mkTensor [numel labels] (data labels)) in *.
  assert (Hls : shape l = [batch * height * width])
    by (unfold l; cbn [shape]; now rewrite Hnl).
  assert (Hln : numel l = batch * height * width) by exact Hnl.
  assert (Hlen : length (data labels)
                 = (Z.to_nat batch * Z.to_nat height * Z.to_nat width)%nat).
  { unfold numel in Hnl. rewrite <- !Z2Nat.inj_mul by nia. lia. }
  assert (Hrows : forall i lab,
             nth_error (data l) i = Some lab -> 0 < lab ->
             nth_error (blocks (Z.to_nat (batch * height * width))
                          (Z.to_nat (prod [classes])) (data o)) i
             = nth_error (blocks (Z.to_nat (batch * height * width))
                            (Z.to_nat (prod [classes])) (data o')) i).
  { intros i lab Hi Hpos. cbn [l data] in Hi.
    assert (Hlt : (i < length (data labels))%nat)
      by (apply nth_error_Some; congruence).
    cbn [prod fold_right]. rewrite Z.mul_1_r.
    rewrite !blocks_nth by (unfold numel in Hnl; lia).
    f_equal. apply nth_error_ext. intros c.
    rewrite !nth_error_firstn, !nth_error_skipn.
    destruct (Nat.ltb_spec c (Z.to_nat classes)) as [Hc|_]; [|reflexivity].
    rewrite Hlen in Hlt.
    destruct (position_decompose _ _ _ Hlt) as [b [i' [j [Hb [Hi' [Hj ->]]]]]].
    destruct (Hat b i' j c Hb Hi' Hj Hc) as [-> _].
    destruct (Hat' b i' j c Hb Hi' Hj Hc) as [-> _].
    symmetry. exact (Hag b i' j c lab Hb Hi' Hj Hc Hi Hpos). }
  destruct (@mask_foreground_agree accum_iters (batch * height * width) [classes]
              o o' l Hls Hln Hos Hos' Hrows)
    as [retained [masked [_ [Hd [Hp1 [Hp0 [Hm [Hmasked [Hfg [Hm' _]]]]]]]]]].
  assert (Hbf : batch_forward env inputs labels (the_model st)
                = Ok (masked, decrement retained)).
  { unfold batch_forward. fold outputs. rewrite Hf. cbn [bind fst snd]. exact Hm. }
  assert (Hbf' : batch_forward env' inputs labels (the_model st)
                 = Ok (masked, decrement retained)).
  { unfold batch_forward, env'. cbn [with_model_call model_call]. fold outputs'.
    rewrite Hf'. cbn [bind fst snd]. exact Hm'. }
  assert (Hstep : forall e : @collaborators W G L score,
             batch_forward e inputs labels (the_model st)
             = Ok (masked, decrement retained) ->
             exists st1,
               batch_step e ph accum_iters batch_ind (inputs, labels) (st, run)
               = Ok (st1,
                     mkRunning
                       (running_loss run
                        ++ [(batch_loss e accum_iters masked (decrement retained),
                             len inputs)])
                       (Some (match running_corrects run with
                              | None => corrects (predictions e masked)
                                          (decrement retained)
                              | Some c => c + corrects (predictions e masked)
                                                (decrement retained)
                              end))
                       (running_foreground run + len (decrement retained))
                       (epoch_labels run ++ [decrement retained])
                       (epoch_softmax run ++ [softmax e masked]))).
  { intros e He. unfold batch_step. rewrite He. cbn [bind].
    destruct ph; cbn [is_train].
    - unfold optimize. destruct (Z.eqb_spec accum_iters 0); [contradiction|].
      destruct (_ =? 0); [destruct (the_f_opt st)|]; cbn [bind];
        eexists; reflexivity.
    - cbn [bind]. eexists. reflexivity. }
  destruct (Hstep env Hbf) as [st1 H1]. destruct (Hstep env' Hbf') as [st2 H2].
  exists o, masked, retained, st1, st2. eexists.
  split; [exact Hf|]. split; [exact Hd|]. split; [exact Hp1|]. split; [exact Hp0|].
  split.
  { rewrite Hmasked. cbn [l data prod fold_right]. now rewrite Z.mul_1_r. }
  split; [exact Hbf|]. split; [exact Hbf'|]. split; [exact H1|].
  split; [exact H2|]. cbn [running_loss running_corrects running_foreground].
  split; [reflexivity|]. split; [reflexivity|]. now rewrite Hfg.
Qed.

End Masking.

(** ** The training loop: batches *)

Section Loop.

Context {W G O L score : Type}.
Variable env : @collaborators W G L score.

Lemma optimize_spec (accum_iters batch_ind : Z) (loss_of : W -> outcome L)
    (st st' : @train_state W G O) :
  optimize env accum_iters batch_ind loss_of st = Ok st' ->
  accum_iters <> 0
  /\ events st'
     = events st ++ batch_events accum_iters (is_some (the_f_opt st)) batch_ind
  /\ is_some (the_f_opt st') = is_some (the_f_opt st)
  /\ same_record st st'.
Proof.
  unfold optimize, batch_events, same_record.
  destruct (Z.eqb_spec accum_iters 0); [discriminate|].
  destruct (batch_ind mod accum_iters =? 0).
  - destruct (the_f_opt st); intros H; injection H as <-;
      cbn [events the_f_opt best_acc best_model_wts saved val_acc_history is_some];
      rewrite <- ?app_assoc; repeat split; try assumption; reflexivity.
  - intros H; injection H as <-.
    cbn [events the_f_opt best_acc best_model_wts saved val_acc_history].
    repeat split; try assumption; reflexivity.
Qed.

Lemma batch_step_spec (ph : phase) (accum_iters batch_ind : Z)
    (batch : tensor Z * tensor Z) (st st' : @train_state W G O)
    (run run' : @running L score) :
  batch_step env ph accum_iters batch_ind batch (st, run) = Ok (st', run') ->
  same_record st st'
  /\ is_some (the_f_opt st') = is_some (the_f_opt st)
  /\ match ph with
     | train => accum_iters <> 0
                /\ events st'
                   = events st
                     ++ batch_events accum_iters (is_some (the_f_opt st)) batch_ind
     | val => st' = st
     end.
Proof.
  unfold batch_step. destruct batch as [inputs labels].
  destruct (batch_forward env inputs labels (the_model st)) as [[outputs labels']| |];
    cbn [bind]; try discriminate.
  destruct ph; cbn [is_train].
  - destruct (optimize _ _ _ _ st) as [st1| |] eqn:Hopt; cbn [bind]; try discriminate.
    intros H; injection H as <- _.
    apply optimize_spec in Hopt. destruct Hopt as [Ha [He [Hf Hr]]]. auto.
  - cbn [bind]. intros H; injection H as <- _.
    repeat split; reflexivity.
Qed.

Lemma same_record_trans (a b c : @train_state W G O) :
  same_record a b -> same_record b c -> same_record a c.
Proof.
  unfold same_record. intros [H1 [H2 [H3 H4]]] [H5 [H6 [H7 H8]]].
  repeat split; congruence.
Qed.

(** The batches of a phase, from batch [start] on. *)
Lemma batch_loop_spec (ph : phase) (accum_iters : Z)
    (bs : list (tensor Z * tensor Z)) :
  forall (start : nat) (st st' : @train_state W G O) (run run' : @running L score),
    batch_loop env ph accum_iters (Z.of_nat start) bs (st, run) = Ok (st', run') ->
    same_record st st'
    /\ is_some (the_f_opt st') = is_some (the_f_opt st)
    /\ match ph with
       | train => (bs <> [] -> accum_iters <> 0)
                  /\ events st'
                     = events st
                       ++ phase_events accum_iters (is_some (the_f_opt st))
                            start (length bs)
       | val => st' = st
       end.
Proof.
  induction bs as [|b bs IH]; intros start st st' run run'; cbn [batch_loop].
  - intros H; injection H as <- <-. unfold same_record, phase_events.
    cbn [length seq flat_map]. rewrite app_nil_r.
    destruct ph; repeat split; congruence.
  - destruct (batch_step env ph accum_iters (Z.of_nat start) b (st, run))
      as [[st1 run1]| |] eqn:Hstep; cbn [bind]; try discriminate.
    replace (Z.of_nat start + 1) with (Z.of_nat (S start)) by lia.
    intros Hloop.
    apply batch_step_spec in Hstep. destruct Hstep as [Hr1 [Hf1 Hp1]].
    destruct (IH _ _ _ _ _ Hloop) as [Hr2 [Hf2 Hp2]].
    split; [exact (same_record_trans Hr1 Hr2)|]. split; [congruence|].
    destruct ph.
    + destruct Hp1 as [Ha He1]. destruct Hp2 as [_ He2].
      split; [intros _; exact Ha|].
      rewrite He2, He1, Hf1, <- app_assoc. reflexivity.
    + congruence.
Qed.

(** *** The requests and the state *)

Lemma batch_loop_app (ph : phase) (accum_iters : Z)
    (bs1 bs2 : list (tensor Z * tensor Z)) :
  forall (i : Z) (sr : @train_state W G O * @running L score),
    batch_loop env ph accum_iters i (bs1 ++ bs2) sr
    = (sr1 <- batch_loop env ph accum_iters i bs1 sr ;;
       batch_loop env ph accum_iters (i + Z.of_nat (length bs1)) bs2 sr1).
Proof.
  induction bs1 as [|b bs1 IH]; intros i sr; cbn [app batch_loop length].
  - cbn [bind Z.of_nat]. now rewrite Z.add_0_r.
  - destruct (batch_step env ph accum_iters i b sr) as [sr1| |]; cbn [bind];
      try reflexivity.
    rewrite IH. replace (i + 1 + Z.of_nat (length bs1))
      with (i + Z.of_nat (S (length bs1))) by lia.
    reflexivity.
Qed.

Lemma firstn_length_app {A} (l1 l2 : list A) : firstn (length l1) (l1 ++ l2) = l1.
Proof. induction l1 as [|a l1 IH]; cbn; [reflexivity|now rewrite IH]. Qed.

Lemma skipn_length_app {A} (l1 l2 : list A) : skipn (length l1) (l1 ++ l2) = l2.
Proof. induction l1 as [|a l1 IH]; cbn; [reflexivity|exact IH]. Qed.

(** The run of a phase goes through each of its batches: the states
    before and after batch [k]. *)
Lemma batch_loop_at (ph : phase) (accum_iters : Z)
    (bs : list (tensor Z * tensor Z)) (k : nat) (b : tensor Z * tensor Z)
    (st st' : @train_state W G O) (run run' : @running L score) :
  batch_loop env ph accum_iters 0 bs (st, run) = Ok (st', run') ->
  nth_error bs k = Some b ->
  exists st_k run_k st_k1 run_k1,
    batch_loop env ph accum_iters 0 (firstn k bs) (st, run) = Ok (st_k, run_k)
    /\ batch_step env ph accum_iters (Z.of_nat k) b (st_k, run_k)
       = Ok (st_k1, run_k1)
    /\ batch_loop env ph accum_iters 0 (firstn (S k) bs) (st, run)
       = Ok (st_k1, run_k1)
    /\ batch_loop env ph accum_iters (Z.of_nat (S k)) (skipn (S k) bs)
         (st_k1, run_k1) = Ok (st', run').
Proof.
  intros Hrun Hk. apply nth_error_split in Hk. destruct Hk as [l1 [l2 [-> <-]]].
  rewrite batch_loop_app in Hrun. cbn [Z.add] in Hrun.
  destruct (batch_loop env ph accum_iters 0 l1 (st, run)) as [[st_k run_k]| |]
    eqn:H1; cbn [bind] in Hrun; try discriminate.
  cbn [batch_loop] in Hrun.
  destruct (batch_step env ph accum_iters (Z.of_nat (length l1)) b (st_k, run_k))
    as [[st_k1 run_k1]| |] eqn:H2; cbn [bind] in Hrun; try discriminate.
  exists st_k, run_k, st_k1, run_k1.
  rewrite firstn_length_app. split; [exact H1|]. split; [exact H2|]. split.
  - replace (firstn (S (length l1)) (l1 ++ b :: l2)) with (l1 ++ [b]).
    + rewrite batch_loop_app, H1. cbn [bind batch_loop Z.add]. rewrite H2.
      reflexivity.
    + change (b :: l2) with ([b] ++ l2). rewrite app_assoc.
      replace (S (length l1)) with (length (l1 ++ [b]))
        by (rewrite length_app; cbn; lia).
      now rewrite firstn_length_app.
  - replace (skipn (S (length l1)) (l1 ++ b :: l2)) with l2.
    + replace (Z.of_nat (S (length l1))) with (Z.of_nat (length l1) + 1) by lia.
      exact Hrun.
    + change (b :: l2) with ([b] ++ l2). rewrite app_assoc.
      replace (S (length l1)) with (length (l1 ++ [b]))
        by (rewrite length_app; cbn; lia).
      now rewrite skipn_length_app.
Qed.

(** A training batch leaves the model and the optimizers as the requests
    it makes leave them. *)
Lemma batch_step_view (accum_iters batch_ind : Z) (b : tensor Z * tensor Z)
    (st st' : @train_state W G O) (run run' : @running L score) :
  batch_step env train accum_iters batch_ind b (st, run) = Ok (st', run') ->
  view st'
  = perform_all env accum_iters b
      (batch_events accum_iters (is_some (the_f_opt st)) batch_ind) (view st).
Proof.
  unfold batch_step. destruct b as [inputs labels].
  destruct (batch_forward env inputs labels (the_model st)) as [[o l]| |];
    cbn [bind]; try discriminate.
  cbn [is_train]. unfold optimize.
  destruct (accum_iters =? 0); [discriminate|].
  unfold batch_events, perform_all, view.
  destruct (batch_ind mod accum_iters =? 0).
  - destruct (the_f_opt st) as [f|] eqn:Hf; cbn [bind]; intros H;
      injection H as <- _; cbn [the_model the_optimizer the_f_opt is_some];
      reflexivity.
  - cbn [bind]. intros H; injection H as <- _. reflexivity.
Qed.

Lemma batch_loop_view (accum_iters : Z) (bs : list (tensor Z * tensor Z)) :
  forall (k : nat) (st st' : @train_state W G O) (run run' : @running L score),
    batch_loop env train accum_iters (Z.of_nat k) bs (st, run) = Ok (st', run') ->
    view st' = replay env accum_iters (is_some (the_f_opt st)) k bs (view st).
Proof.
  induction bs as [|b bs IH]; intros k st st' run run'; cbn [batch_loop replay].
  - intros H; injection H as <- _. reflexivity.
  - destruct (batch_step env train accum_iters (Z.of_nat k) b (st, run))
      as [[st1 run1]| |] eqn:Hs; cbn [bind]; try discriminate.
    replace (Z.of_nat k + 1) with (Z.of_nat (S k)) by lia. intros Hl.
    rewrite (IH _ _ _ _ _ Hl). pose proof Hs as Hs2.
    apply batch_step_spec in Hs2. destruct Hs2 as [_ [Hf _]].
    apply batch_step_view in Hs. rewrite Hf, Hs. reflexivity.
Qed.

(** On a batch whose index is not a multiple of [accum_iters] the
    requests come to one backward pass. *)
Lemma perform_all_between (accum_iters : Z) (has_f : bool) (i : Z)
    (b : tensor Z * tensor Z)
    (s : @model W G * @optimizer W G O * option (@optimizer W G O)) :
  i mod accum_iters <> 0 ->
  perform_all env accum_iters b (batch_events accum_iters has_f i) s
  = (set_grads (fst (fst s))
       (backward env (loss_closure env accum_iters b (fst (fst s))) (fst (fst s))),
     snd (fst s), snd s).
Proof.
  intros Hi. unfold batch_events, perform_all.
  destruct (Z.eqb_spec (i mod accum_iters) 0); [contradiction|]. reflexivity.
Qed.

(** Batches none of which has an index that is a multiple of
    [accum_iters] accumulate gradients and leave the weights and the
    optimizers alone. *)
Lemma batch_loop_between (accum_iters : Z) (bs : list (tensor Z * tensor Z)) :
  forall (k : nat) (st st' : @train_state W G O) (run run' : @running L score),
    (forall j, (k <= j < k + length bs)%nat -> Z.of_nat j mod accum_iters <> 0) ->
    batch_loop env train accum_iters (Z.of_nat k) bs (st, run) = Ok (st', run') ->
    the_model st' = accumulate env accum_iters bs (the_model st)
    /\ the_optimizer st' = the_optimizer st
    /\ the_f_opt st' = the_f_opt st.
Proof.
  induction bs as [|b bs IH]; intros k st st' run run' Hno; cbn [batch_loop].
  - intros H; injection H as <- _. repeat split.
  - destruct (batch_step env train accum_iters (Z.of_nat k) b (st, run))
      as [[st1 run1]| |] eqn:Hs; cbn [bind]; try discriminate.
    replace (Z.of_nat k + 1) with (Z.of_nat (S k)) by lia. intros Hl.
    apply batch_step_view in Hs.
    rewrite perform_all_between in Hs by (apply Hno; cbn [length]; lia).
    unfold view in Hs. cbn [fst snd] in Hs. injection Hs as Hm Ho Hf.
    destruct (IH (S k) _ _ _ _ ltac:(intros j Hj; apply Hno; cbn [length]; lia) Hl)
      as [Hm' [Ho' Hf']].
    rewrite Hm', Ho', Hf', Hm, Ho, Hf. unfold accumulate. cbn [fold_left].
    repeat split.
Qed.

End Loop.

(** ** Gradient accumulation *)

Lemma backward_counts_batch (a : Z) (has_f : bool) (who : optimizer_id)
    (i : Z) (rest : list event) (acc : nat) :
  backward_counts_from who (batch_events a has_f i ++ rest) acc
  = if (i mod a =? 0) && steps_for has_f who
    then S acc :: backward_counts_from who rest 0
    else backward_counts_from who rest (S acc).
Proof.
  unfold batch_events. destruct (i mod a =? 0); cbn [andb app backward_counts_from].
  - destruct who, has_f; reflexivity.
  - reflexivity.
Qed.

(** From batch [k >= 1] of a phase on, every step comes after
    [accum_iters] backward passes. *)
Lemma backward_counts_later (a : Z) (has_f : bool) (who : optimizer_id) (m : nat) :
  1 <= a -> steps_for has_f who = true ->
  forall (k acc : nat),
    (1 <= k)%nat -> Z.of_nat acc = (Z.of_nat k - 1) mod a ->
    Forall (fun c => Z.of_nat c = a)
           (backward_counts_from who (phase_events a has_f k m) acc).
Proof.
  intros Ha Hs. induction m as [|m IH]; intros k acc Hk Hacc.
  - constructor.
  - unfold phase_events. cbn [seq flat_map]. fold (phase_events a has_f (S k) m).
    rewrite backward_counts_batch.
    pose proof (Z.mod_pos_bound (Z.of_nat k - 1) a ltac:(lia)) as Hb.
    pose proof (Z.div_mod (Z.of_nat k - 1) a ltac:(lia)) as Hd.
    destruct (Z.eqb_spec (Z.of_nat k mod a) 0) as [Hz|Hnz]; cbn [andb].
    + assert (Hlast : (Z.of_nat k - 1) mod a = a - 1).
      { apply Z.mod_divide in Hz; [|lia]. destruct Hz as [q Hq].
        symmetry. apply (Z.mod_unique _ _ (q - 1)); [lia|nia]. }
      rewrite Hs. constructor; [lia|]. apply IH; [lia|].
      replace (Z.of_nat (S k) - 1) with (Z.of_nat k) by lia. cbn. lia.
    + apply IH; [lia|].
      replace (Z.of_nat (S k) - 1) with (Z.of_nat k - 1 + 1) by lia.
      assert (Hk1 : (Z.of_nat k - 1) mod a <> a - 1).
      { intros Heq. apply Hnz.
        replace (Z.of_nat k) with (((Z.of_nat k - 1) / a + 1) * a) by lia.
        apply Z.mod_mul. lia. }
      apply (Z.mod_unique _ _ ((Z.of_nat k - 1) / a)); lia.
Qed.

(** In a phase the first step comes after one backward pass, the
    following ones after [accum_iters] each. *)
Lemma backward_counts_phase (a : Z) (has_f : bool) (who : optimizer_id) (n : nat) :
  1 <= a -> steps_for has_f who = true ->
  exists later,
    backward_counts who (phase_events a has_f 0 (S n)) = 1%nat :: later
    /\ Forall (fun c => Z.of_nat c = a) later.
Proof.
  intros Ha Hs. unfold backward_counts, phase_events. cbn [seq flat_map].
  fold (phase_events a has_f 1 n). rewrite backward_counts_batch, Hs.
  change (Z.of_nat 0) with 0. rewrite Z.mod_0_l by lia. cbn [Z.eqb andb].
  eexists. split; [reflexivity|].
  apply backward_counts_later; [assumption|assumption|lia|].
  change (Z.of_nat 1 - 1) with 0. rewrite Zmod_0_l. reflexivity.
Qed.

Lemma backward_counts_absent (a : Z) (n start acc : nat) :
  backward_counts_from f_opt (phase_events a false start n) acc = [].
Proof.
  revert start acc. induction n as [|n IH]; intros start acc; [reflexivity|].
  unfold phase_events. cbn [seq flat_map]. fold (phase_events a false (S start) n).
  rewrite backward_counts_batch. cbn [steps_for]. rewrite andb_false_r. apply IH.
Qed.

Lemma backward_counts_secondary (a : Z) (m : nat) :
  forall start acc,
    backward_counts_from f_opt (phase_events a true start m) acc
    = backward_counts_from g_opt (phase_events a true start m) acc.
Proof.
  induction m as [|m IH]; intros start acc; [reflexivity|].
  unfold phase_events. cbn [seq flat_map]. fold (phase_events a true (S start) m).
  rewrite !backward_counts_batch. cbn [steps_for].
  destruct (_ && _); now rewrite IH.
Qed.

Lemma step_in_batch_events (a : Z) (has_f : bool) (i : Z) (who : optimizer_id) :
  In (Step who) (batch_events a has_f i)
  <-> i mod a = 0 /\ steps_for has_f who = true.
Proof.
  unfold batch_events. destruct (Z.eqb_spec (i mod a) 0) as [Hz|Hz].
  - destruct who, has_f; cbn; intuition (try discriminate; try congruence).
  - cbn. intuition (try discriminate; try congruence).
Qed.

(** C2 (as amended): in a train phase, for every [accum_iters >= 1], the
    backward pass of each batch accumulates its gradients; on the batches
    whose index in the phase (from 0) is a multiple of [accum_iters] the
    primary optimizer then steps (its state and the weights become what
    its update rule makes of the accumulated gradients) and zeroes the
    gradients, followed by [f_opt] when there is one; on every other batch
    the weights and the state of both optimizers stay what they were, and
    the gradients stay accumulated.  The model and the optimizers are at
    the end what the requests of the phase, performed in order, make of
    them.  So the first step of a phase follows its first batch, and
    within the phase exactly [accum_iters] batches are backpropagated
    between two consecutive steps of an optimizer. *)
Theorem optimizer_steps_on_multiples
    {W G O L score} (env : @collaborators W G L score) (accum_iters : Z)
    (bs : list (tensor Z * tensor Z)) (st st' : @train_state W G O)
    (run run' : @running L score) :
  1 <= accum_iters ->
  batch_loop env train accum_iters 0 bs (st, run) = Ok (st', run') ->
  let has_f := is_some (the_f_opt st) in
  let asked := phase_events accum_iters has_f 0 (length bs) in
  events st' = events st ++ asked
  /\ view st' = replay env accum_iters has_f 0 bs (view st)
  /\ (forall k b,
        nth_error bs k = Some b ->
        exists st_k run_k st_k1 run_k1,
          batch_loop env train accum_iters 0 (firstn k bs) (st, run)
          = Ok (st_k, run_k)
          /\ batch_loop env train accum_iters 0 (firstn (S k) bs) (st, run)
             = Ok (st_k1, run_k1)
          /\ let m := the_model st_k in
             let opt := the_optimizer st_k in
             let g := backward env (loss_closure env accum_iters b m) m in
             if Z.of_nat k mod accum_iters =? 0
             then
               opt_state (the_optimizer st_k1)
               = snd (step opt (opt_state opt) (state_dict m) g)
               /\ view st_k1
                  = perform_all env accum_iters b
                      (Backward :: Step g_opt :: ZeroGrad g_opt
                       :: (if has_f then [Step f_opt; ZeroGrad f_opt] else []))
                      (view st_k)
               /\ (the_f_opt st_k = None ->
                   state_dict (the_model st_k1)
                   = fst (step opt (opt_state opt) (state_dict m) g)
                   /\ grads (the_model st_k1) = zero_grad opt g)
             else
               state_dict (the_model st_k1) = state_dict m
               /\ grads (the_model st_k1) = g
               /\ the_optimizer st_k1 = opt
               /\ the_f_opt st_k1 = the_f_opt st_k)
  /\ (forall i who,
        In (Step who) (batch_events accum_iters has_f i)
        <-> i mod accum_iters = 0 /\ steps_for has_f who = true)
  /\ (bs <> [] ->
      exists later,
        backward_counts g_opt asked = 1%nat :: later
        /\ Forall (fun c => Z.of_nat c = accum_iters) later)
  /\ backward_counts f_opt asked
     = (if has_f then backward_counts g_opt asked else []).
Proof.
  intros Ha Hrun has_f asked.
  pose proof Hrun as Hspec. change 0 with (Z.of_nat 0) in Hspec.
  pose proof Hspec as Hview. apply batch_loop_view in Hview.
  apply batch_loop_spec in Hspec. destruct Hspec as [_ [_ [_ He]]].
  split; [exact He|]. split; [exact Hview|]. split.
  { intros k b Hk.
    destruct (@batch_loop_at _ _ _ _ _ env train accum_iters bs k b st st' run run'
                Hrun Hk)
      as [st_k [run_k [st_k1 [run_k1 [H1 [H2 [H3 _]]]]]]].
    exists st_k, run_k, st_k1, run_k1. split; [exact H1|]. split; [exact H3|].
    assert (Hfk : is_some (the_f_opt st_k) = has_f).
    { destruct k as [|k'].
      - cbn [firstn batch_loop] in H1. injection H1 as <- _. reflexivity.
      - change 0 with (Z.of_nat 0) in H1. apply batch_loop_spec in H1.
        destruct H1 as [_ [Hf _]]. exact Hf. }
    pose proof H2 as Hv. apply batch_step_view in Hv. rewrite Hfk in Hv.
    cbv zeta.
    destruct (Z.eqb_spec (Z.of_nat k mod accum_iters) 0) as [Hz|Hz].
    - unfold batch_events in Hv. rewrite Hz in Hv. cbn [Z.eqb] in Hv.
      split; [|split; [exact Hv|]].
      + unfold view, perform_all in Hv. subst has_f.
        destruct (the_f_opt st) as [f0|]; cbn [is_some] in Hfk, Hv;
          destruct (the_f_opt st_k) as [f|]; try discriminate Hfk;
          cbn [fold_left perform fst snd apply_step] in Hv;
          injection Hv as _ -> _; reflexivity.
      + intros Hnone. unfold view, perform_all in Hv. subst has_f.
        rewrite Hnone in Hfk, Hv. cbn [is_some] in Hfk. rewrite <- Hfk in Hv.
        cbn [fold_left perform fst snd apply_step] in Hv.
        injection Hv as -> _ _. split; reflexivity.
    - rewrite perform_all_between in Hv by exact Hz.
      unfold view in Hv. cbn [fst snd] in Hv. injection Hv as -> -> ->.
      repeat split. }
  split; [intros i who; apply step_in_batch_events|]. split.
  - intros Hne. subst asked. destruct bs as [|b bs']; [congruence|].
    cbn [length]. apply backward_counts_phase; [assumption|reflexivity].
  - subst asked. unfold backward_counts. destruct has_f.
    + apply backward_counts_secondary.
    + apply backward_counts_absent.
Qed.

Lemma optimizer_steps_witness :
  exists st' run',
    batch_loop ex_env train 2 0 [ex_batch; ex_batch; ex_batch] (ex_state, ex_running)
    = Ok (st', run')
    /\ events st'
       = [Backward; Step g_opt; ZeroGrad g_opt; Backward; Backward; Step g_opt;
          ZeroGrad g_opt]
    /\ view st'
       = replay ex_env 2 false 0 [ex_batch; ex_batch; ex_batch] (view ex_state)
    /\ opt_state (the_optimizer st') = 2%nat
    /\ state_dict (the_model st') = 4
    /\ grads (the_model st') = 0.
Proof.
  assert (Hex : exists st' run',
             batch_loop ex_env train 2 0 [ex_batch; ex_batch; ex_batch]
               (ex_state, ex_running) = Ok (st', run'))
    by (eexists; eexists; vm_compute; reflexivity).
  destruct Hex as [st' [run' H]]. exists st', run'.
  destruct (@optimizer_steps_on_multiples _ _ _ _ _ ex_env 2
              [ex_batch; ex_batch; ex_batch] ex_state st' ex_running run'
              ltac:(discriminate) H) as [He [Hv _]].
  split; [exact H|]. split; [exact He|]. split; [exact Hv|].
  clear He Hv. vm_compute in H. injection H as <- _. repeat split; reflexivity.
Defined.

(** C2 as stated does not hold: with [accum_iters = 2] and one training
    batch per epoch the optimizer steps on every batch (two steps, each
    changing the weights, for two batches), so that a single batch is
    backpropagated between the consecutive steps of the first and the
    second epoch. *)
Lemma optimizer_steps_every_batch_across_epochs :
  match train_model_epochs ex_env ex_model (ex_loaders [1; 0]) ex_optimizer 2
          None None false 2 with
  | Ok st =>
      events st = [Backward; Step g_opt; ZeroGrad g_opt;
                   Backward; Step g_opt; ZeroGrad g_opt]
      /\ opt_state (the_optimizer st) = 2%nat
      /\ state_dict (the_model st) = 3
      /\ grads (the_model st) = 0
      /\ backward_counts g_opt (events st) = [1; 1]%nat
      /\ ~ Forall (fun c => Z.of_nat c = 2) (tl (backward_counts g_opt (events st)))
  | _ => False
  end.
Proof.
  vm_compute. repeat (split; [reflexivity|]).
  intros H. inversion H as [|c l Hc _]; subst. discriminate Hc.
Qed.

(** ** The training loop: phases and epochs *)

Lemma acc_gt_spec (a b : Q) : acc_gt (Acc a) (Acc b) = true <-> (b < a)%Q.
Proof.
  cbn [acc_gt]. rewrite negb_true_iff. split.
  - intros H. apply Qnot_le_lt. intros Hle. apply Qle_bool_iff in Hle. congruence.
  - intros H. destruct (Qle_bool a b) eqn:Hle; [|reflexivity].
    apply Qle_bool_iff in Hle. exfalso. exact (Qlt_not_le _ _ H Hle).
Qed.

Lemma acc_gt_nan (a : accuracy) : acc_gt NaN a = false /\ acc_gt a NaN = false.
Proof. destruct a; split; reflexivity. Qed.

Lemma substring_all (p : string) : substring 0 (String.length p) p = p.
Proof. induction p as [|c p IH]; [reflexivity|]. cbn. now rewrite IH. Qed.

Lemma substring_split (p : string) :
  forall n, (substring 0 n p ++ substring n (String.length p - n) p)%string = p.
Proof.
  induction p as [|c p IH]; intros n.
  - destruct n; reflexivity.
  - destruct n as [|n].
    + cbn [substring String.append Nat.sub String.length].
      f_equal. apply substring_all.
    + cbn [substring String.append Nat.sub String.length]. f_equal. apply IH.
Qed.

(** [splitext] cuts the path in two. *)
Lemma splitext_join (p : string) :
  (fst (os_path.splitext p) ++ snd (os_path.splitext p))%string = p.
Proof.
  unfold os_path.splitext.
  destruct (_ <? _); cbn [fst snd].
  - destruct (os_path.all_dots _); cbn [fst snd].
    + induction p as [|c p IH]; [reflexivity|]. cbn. now rewrite IH.
    + apply substring_split.
  - induction p as [|c p IH]; [reflexivity|]. cbn. now rewrite IH.
Qed.

Section Epochs.

Context {W G O L score : Type}.
Variable env : @collaborators W G L score.
Variable dataloaders : phase -> dataloader.
Variable outfile : option string.
Variable finetune : bool.
Variable accum_iters : Z.

Lemma run_phase_train (epoch : nat) (st st' : @train_state W G O) :
  run_phase env dataloaders outfile finetune accum_iters epoch train st = Ok st' ->
  same_record st st'.
Proof.
  unfold run_phase.
  destruct (batch_loop _ _ _ _ _ _) as [[st1 run1]| |] eqn:Hloop; cbn [bind];
    try discriminate.
  destruct (_ =? 0); [discriminate|].
  destruct (epoch_accuracy _) as [acc| |]; cbn [bind fst]; try discriminate.
  intros H; injection H as <-. change 0 with (Z.of_nat 0) in Hloop.
  apply batch_loop_spec in Hloop. destruct Hloop as [Hr _].
  unfold same_record in *. cbn [enter_phase best_acc best_model_wts saved
    val_acc_history] in Hr. exact Hr.
Qed.

Lemma run_phase_val (epoch : nat) (st st' : @train_state W G O) :
  run_phase env dataloaders outfile finetune accum_iters epoch val st = Ok st' ->
  exists epoch_acc, st' = keep_best val epoch_acc outfile (enter_phase finetune val st).
Proof.
  unfold run_phase.
  destruct (batch_loop _ _ _ _ _ _) as [[st1 run1]| |] eqn:Hloop; cbn [bind];
    try discriminate.
  destruct (_ =? 0); [discriminate|].
  destruct (epoch_accuracy _) as [acc| |]; cbn [bind fst]; try discriminate.
  intros H; injection H as <-. change 0 with (Z.of_nat 0) in Hloop.
  apply batch_loop_spec in Hloop. destruct Hloop as [_ [_ ->]].
  exists acc. reflexivity.
Qed.

Lemma run_phase_val_record (epoch : nat) (st st' : @train_state W G O) :
  run_phase env dataloaders outfile finetune accum_iters epoch val st = Ok st' ->
  exists epoch_acc,
    val_acc_history st' = val_acc_history st ++ [epoch_acc]
    /\ the_model st' = the_model (enter_phase finetune val st)
    /\ state_dict (the_model st') = state_dict (the_model st)
    /\ (acc_gt epoch_acc (best_acc st) = true ->
        best_acc st' = epoch_acc
        /\ best_model_wts st' = state_dict (the_model st)
        /\ saved st'
           = saved st ++ match outfile with
                         | Some path => checkpoint_files path st
                         | None => []
                         end)
    /\ (acc_gt epoch_acc (best_acc st) = false ->
        best_acc st' = best_acc st
        /\ best_model_wts st' = best_model_wts st
        /\ saved st' = saved st).
Proof.
  intros Hrun. apply run_phase_val in Hrun. destruct Hrun as [acc ->]. exists acc.
  unfold keep_best. cbn [is_train negb andb enter_phase best_acc].
  destruct (acc_gt acc (best_acc st)) eqn:Hgt;
    cbn [val_acc_history the_model state_dict best_acc best_model_wts saved];
    (split; [reflexivity|]); (split; [reflexivity|]); (split; [reflexivity|]);
    split; intros H; try discriminate; repeat split.
Qed.

(** C7: at the end of a validation phase the epoch accuracy is recorded,
    and the model is persisted exactly when that accuracy is strictly
    greater than the best so far: the weights are then kept as the
    in-memory best snapshot and, for the output path the caller has given,
    written to that path, with the optimizer state written to the path
    with its extension replaced by ".opt", as one record with the keys
    [g_opt] and [f_opt] when there is a second optimizer and as the state
    of the primary optimizer otherwise; when the accuracy is not greater,
    nothing is written and the snapshot stays; and a train phase neither
    writes nor touches the snapshot. *)
Theorem best_checkpoint_saved_on_improvement
    (epoch : nat) (st st' : @train_state W G O) :
  run_phase env dataloaders outfile finetune accum_iters epoch val st = Ok st' ->
  (exists epoch_acc,
     val_acc_history st' = val_acc_history st ++ [epoch_acc]
     /\ the_model st' = the_model (enter_phase finetune val st)
     /\ state_dict (the_model st') = state_dict (the_model st)
     /\ (acc_gt epoch_acc (best_acc st) = true ->
         best_acc st' = epoch_acc
         /\ best_model_wts st' = state_dict (the_model st)
         /\ saved st'
            = saved st ++ match outfile with
                          | Some path => checkpoint_files path st
                          | None => []
                          end)
     /\ (acc_gt epoch_acc (best_acc st) = false ->
         best_acc st' = best_acc st
         /\ best_model_wts st' = best_model_wts st
         /\ saved st' = saved st))
  /\ (forall path,
        checkpoint_files path st
        = [(path, ModelState (state_dict (the_model st)));
           ((fst (os_path.splitext path) ++ ".opt")%string,
            match the_f_opt st with
            | Some f =>
                OptimizerStates [("g_opt"%string, opt_state (the_optimizer st));
                                 ("f_opt"%string, opt_state f)]
            | None => OptimizerState (opt_state (the_optimizer st))
            end)]
        /\ (fst (os_path.splitext path) ++ snd (os_path.splitext path))%string
           = path)
  /\ (forall st0 st1 : @train_state W G O,
        run_phase env dataloaders outfile finetune accum_iters epoch train st0
        = Ok st1 ->
        saved st1 = saved st0 /\ best_model_wts st1 = best_model_wts st0
        /\ best_acc st1 = best_acc st0).
Proof.
  intros Hrun. split; [|split].
  - eapply run_phase_val_record. exact Hrun.
  - intros path. split; [reflexivity|apply splitext_join].
  - intros st0 st1 H. apply run_phase_train in H.
    destruct H as [H1 [H2 [H3 _]]]. auto.
Qed.

(** While no validation accuracy exceeds the best so far, the record of
    the best epoch and the files written stay as they are. *)
Lemma epoch_loop_record (epochs : list nat) :
  forall st st' : @train_state W G O,
    epoch_loop env dataloaders outfile finetune accum_iters epochs st = Ok st' ->
    exists new,
      val_acc_history st' = val_acc_history st ++ new
      /\ length new = length epochs
      /\ (Forall (fun a => acc_gt a (best_acc st) = false) new ->
          best_acc st' = best_acc st
          /\ best_model_wts st' = best_model_wts st
          /\ saved st' = saved st).
Proof.
  induction epochs as [|epoch rest IH]; intros st st'; cbn [epoch_loop].
  - intros H; injection H as <-. exists []. rewrite app_nil_r. auto.
  - destruct (run_phase _ _ _ _ _ epoch train st) as [st1| |] eqn:Ht; cbn [bind];
      try discriminate.
    destruct (run_phase _ _ _ _ _ epoch val st1) as [st2| |] eqn:Hv; cbn [bind];
      try discriminate.
    intros Hrest. apply run_phase_train in Ht. destruct Ht as [Hb [Hw [Hs Hh]]].
    apply run_phase_val_record in Hv.
    destruct Hv as [acc [Hh2 [_ [_ [Hyes Hno]]]]].
    destruct (IH _ _ Hrest) as [new [Hh3 [Hlen Hkeep]]].
    exists (acc :: new). split; [|split].
    + rewrite Hh3, Hh2, Hh, <- app_assoc. reflexivity.
    + cbn [length]. now rewrite Hlen.
    + intros Hall. inversion Hall as [|? ? Hacc Hnew]; subst.
      rewrite <- Hb in Hacc. destruct (Hno Hacc) as [Hb2 [Hw2 Hs2]].
      destruct Hkeep as [Hb3 [Hw3 Hs3]].
      { rewrite Hb2, Hb. exact Hnew. }
      repeat split; congruence.
Qed.

End Epochs.

(** ** The training loop returns *)

Section Returns.

Context {W G O L score : Type}.
Variable env : @collaborators W G L score.
Variable dataloaders : phase -> dataloader.
Variable outfile : option string.
Variable finetune : bool.
Variable accum_iters : Z.

Hypothesis accum_nonzero : accum_iters <> 0.
Hypothesis datasets_nonempty : forall ph, dataset_len (dataloaders ph) <> 0.
Hypothesis batches_nonempty : forall ph epoch, batches (dataloaders ph) epoch <> [].
Hypothesis batches_well_shaped :
  forall ph epoch b (m : @model W G),
    In b (batches (dataloaders ph) epoch) ->
    exists r, batch_forward env (fst b) (snd b) m = Ok r.

Lemma optimize_returns (batch_ind : Z) (loss_of : W -> outcome L)
    (st : @train_state W G O) :
  exists st', optimize env accum_iters batch_ind loss_of st = Ok st'.
Proof.
  unfold optimize. destruct (Z.eqb_spec accum_iters 0); [contradiction|].
  destruct (_ =? 0); [destruct (the_f_opt st)|]; eexists; reflexivity.
Qed.

Lemma batch_step_returns (ph : phase) (batch_ind : Z) (b : tensor Z * tensor Z)
    (st : @train_state W G O) (run : @running L score) :
  (exists r, batch_forward env (fst b) (snd b) (the_model st) = Ok r) ->
  exists st' run',
    batch_step env ph accum_iters batch_ind b (st, run) = Ok (st', run')
    /\ running_corrects run' <> None.
Proof.
  intros [[outputs labels'] Hf]. unfold batch_step. destruct b as [inputs labels].
  cbn [fst snd] in Hf. rewrite Hf. cbn [bind].
  destruct ph; cbn [is_train].
  - match goal with
    | |- context [optimize env accum_iters batch_ind ?f st] =>
        destruct (optimize_returns batch_ind f st) as [st1 ->]
    end.
    cbn [bind]. eexists. eexists. split; [reflexivity|]. cbn. discriminate.
  - cbn [bind]. eexists. eexists. split; [reflexivity|]. cbn. discriminate.
Qed.

Lemma batch_loop_returns (ph : phase) (bs : list (tensor Z * tensor Z)) :
  (forall b (m : @model W G), In b bs ->
     exists r, batch_forward env (fst b) (snd b) m = Ok r) ->
  forall (batch_ind : Z) (st : @train_state W G O) (run : @running L score),
    exists st' run',
      batch_loop env ph accum_iters batch_ind bs (st, run) = Ok (st', run')
      /\ (bs <> [] \/ running_corrects run <> None -> running_corrects run' <> None).
Proof.
  induction bs as [|b bs IH]; intros Hok batch_ind st run; cbn [batch_loop].
  - eexists. eexists. split; [reflexivity|]. intros [H|H]; congruence.
  - destruct (@batch_step_returns ph batch_ind b st run) as [st1 [run1 [Hs Hc]]].
    { apply Hok. left. reflexivity. }
    rewrite Hs. cbn [bind].
    destruct (IH (fun b' m H => Hok b' m (or_intror H)) (batch_ind + 1) st1 run1)
      as [st' [run' [Hl Hc']]].
    exists st', run'. split; [exact Hl|]. intros _. apply Hc'. right. exact Hc.
Qed.

Lemma run_phase_returns (epoch : nat) (ph : phase) (st : @train_state W G O) :
  exists st',
    run_phase env dataloaders outfile finetune accum_iters epoch ph st = Ok st'.
Proof.
  unfold run_phase.
  destruct (@batch_loop_returns ph (batches (dataloaders ph) epoch)
              (fun b m H => batches_well_shaped ph epoch b m H) 0
              (enter_phase finetune ph st) (mkRunning [] None 0 [] []))
    as [st1 [run1 [Hl Hc]]].
  rewrite Hl. cbn [bind snd fst].
  destruct (Z.eqb_spec (dataset_len (dataloaders ph)) 0) as [Hz|_];
    [exfalso; exact (datasets_nonempty ph Hz)|].
  unfold epoch_accuracy.
  destruct (running_corrects run1) as [c|] eqn:Hrc.
  - destruct (_ =? 0); cbn [bind]; eexists; reflexivity.
  - exfalso. apply Hc; [left; apply batches_nonempty|reflexivity].
Qed.

Lemma epoch_loop_returns (epochs : list nat) :
  forall st : @train_state W G O,
    exists st',
      epoch_loop env dataloaders outfile finetune accum_iters epochs st = Ok st'.
Proof.
  induction epochs as [|epoch rest IH]; intros st; cbn [epoch_loop].
  - eexists. reflexivity.
  - destruct (run_phase_returns epoch train st) as [st1 ->]. cbn [bind].
    destruct (run_phase_returns epoch val st1) as [st2 ->]. cbn [bind].
    apply IH.
Qed.

(** C10: training on well-shaped, non-empty batches returns; and if no
    validation epoch has reached an accuracy strictly greater than 0.0,
    what [train_model] returns is the model with the weights of the
    snapshot taken before the first epoch, whatever the updates made while
    training, and no weight or optimizer file has been written, whether an
    output path was given or not. *)
Theorem no_improvement_returns_initial_weights
    (m : @model W G) (opt : @optimizer W G O) (num_epochs : Z)
    (f_opt : option (@optimizer W G O)) :
  exists st,
    train_model_epochs env m dataloaders opt num_epochs outfile f_opt finetune
      accum_iters = Ok st
    /\ length (val_acc_history st) = Z.to_nat num_epochs
    /\ (Forall (fun acc => acc_gt acc (Acc 0) = false) (val_acc_history st) ->
        train_model env m dataloaders opt num_epochs outfile f_opt finetune
          accum_iters
        = Ok (set_state_dict (the_model st) (state_dict m), val_acc_history st)
        /\ state_dict (set_state_dict (the_model st) (state_dict m)) = state_dict m
        /\ best_model_wts st = state_dict m
        /\ saved st = []).
Proof.
  unfold train_model, train_model_epochs.
  destruct (epoch_loop_returns (seq 0 (Z.to_nat num_epochs))
              (mkTrainState m opt f_opt (Acc 0) (state_dict m) [] [] []))
    as [st Hst].
  exists st. split; [exact Hst|].
  pose proof Hst as Hrec. apply epoch_loop_record in Hrec.
  destruct Hrec as [new [Hh [Hlen Hkeep]]].
  cbn [val_acc_history best_acc best_model_wts saved app] in Hh, Hkeep.
  split; [rewrite Hh, Hlen; apply length_seq|].
  intros Hall. rewrite Hh in Hall. destruct (Hkeep Hall) as [_ [Hw Hs]].
  rewrite Hst. cbn [bind]. rewrite Hw. repeat split; assumption.
Qed.

End Returns.

(** ** What the whole run asks of the optimizers *)

Section RunEvents.

Context {W G O L score : Type}.
Variable env : @collaborators W G L score.
Variable dataloaders : phase -> dataloader.
Variable outfile : option string.
Variable finetune : bool.
Variable accum_iters : Z.

Lemma keep_best_events (ph : phase) (acc : accuracy) (st : @train_state W G O) :
  events (keep_best ph acc outfile st) = events st
  /\ the_f_opt (keep_best ph acc outfile st) = the_f_opt st.
Proof.
  unfold keep_best. destruct ph; cbn [is_train negb andb].
  - split; reflexivity.
  - destruct (acc_gt acc (best_acc st)); split; reflexivity.
Qed.

Lemma run_phase_events (epoch : nat) (ph : phase) (st st' : @train_state W G O) :
  run_phase env dataloaders outfile finetune accum_iters epoch ph st = Ok st' ->
  is_some (the_f_opt st') = is_some (the_f_opt st)
  /\ events st'
     = events st
       ++ match ph with
          | train => phase_events accum_iters (is_some (the_f_opt st)) 0
                       (length (batches (dataloaders train) epoch))
          | val => []
          end.
Proof.
  unfold run_phase.
  destruct (batch_loop _ _ _ _ _ _) as [[st1 run1]| |] eqn:Hloop; cbn [bind];
    try discriminate.
  destruct (_ =? 0); [discriminate|].
  destruct (epoch_accuracy _) as [acc| |]; cbn [bind fst]; try discriminate.
  intros H; injection H as <-. change 0 with (Z.of_nat 0) in Hloop.
  apply batch_loop_spec in Hloop. destruct Hloop as [_ [Hf Hp]].
  destruct (keep_best_events ph acc st1) as [-> ->].
  destruct ph.
  - destruct Hp as [_ He]. split; [exact Hf|exact He].
  - subst st1. rewrite app_nil_r. split; reflexivity.
Qed.

(** Over the epochs the optimizers are asked what the train phases ask,
    one after the other; the validation phases ask nothing. *)
Lemma epoch_loop_events (epochs : list nat) :
  forall st st' : @train_state W G O,
    epoch_loop env dataloaders outfile finetune accum_iters epochs st = Ok st' ->
    events st'
    = events st
      ++ flat_map (fun epoch =>
                     phase_events accum_iters (is_some (the_f_opt st)) 0
                       (length (batches (dataloaders train) epoch))) epochs.
Proof.
  induction epochs as [|epoch rest IH]; intros st st'; cbn [epoch_loop flat_map].
  - intros H; injection H as <-. now rewrite app_nil_r.
  - destruct (run_phase _ _ _ _ _ epoch train st) as [st1| |] eqn:Ht; cbn [bind];
      try discriminate.
    destruct (run_phase _ _ _ _ _ epoch val st1) as [st2| |] eqn:Hv; cbn [bind];
      try discriminate.
    intros Hrest. apply run_phase_events in Ht, Hv.
    destruct Ht as [Hf1 He1]. destruct Hv as [Hf2 He2].
    rewrite (IH _ _ Hrest), He2, He1, app_nil_r, Hf2, Hf1, <- app_assoc.
    reflexivity.
Qed.

End RunEvents.

(** ** Flattening a batch *)

Lemma reshape_inv {A} (x t : tensor A) (dims : list Z) :
  torch.reshape x dims = Ok t ->
  t = mkTensor (numel x / prod dims :: dims) (data x) /\ 0 < prod dims.
Proof.
  unfold torch.reshape. destruct (existsb _ _); [discriminate|].
  destruct (Z.ltb_spec 0 (prod dims)) as [Hp|Hp]; cbn [andb]; [|discriminate].
  destruct (_ =? 0); [|discriminate].
  intros Heq; injection Heq as <-. split; [reflexivity|assumption].
Qed.

(** The flattened labels are one label per position, and the flattened
    predictions one row of scores per position. *)
Lemma flatten_batch_shapes {score} (outputs o : tensor score) (labels l : tensor Z) :
  flatten_batch outputs labels = Ok (o, l) ->
  shape l = [numel labels] /\ data l = data labels
  /\ exists c, 0 < c /\ shape o = [numel o / c; c].
Proof.
  unfold flatten_batch.
  destruct (index (shape outputs) 2); cbn [bind]; try discriminate.
  destruct (index (shape labels) 1); cbn [bind]; try discriminate.
  destruct (negb _); [discriminate|].
  destruct (index (shape outputs) 3); cbn [bind]; try discriminate.
  destruct (index (shape labels) 2); cbn [bind]; try discriminate.
  destruct (negb _); [discriminate|].
  destruct (torch.permute outputs _) as [p| |]; cbn [bind]; try discriminate.
  destruct (torch.reshape p _) as [o'| |] eqn:Ho; cbn [bind]; try discriminate.
  destruct (torch.reshape labels []) as [l'| |] eqn:Hl; cbn [bind]; try discriminate.
  intros H; injection H as <- <-.
  apply reshape_inv in Ho, Hl. destruct Ho as [-> Hc]. destruct Hl as [-> _].
  cbn [shape data prod fold_right] in *. rewrite Z.div_1_r.
  split; [reflexivity|]. split; [reflexivity|].
  exists (last (shape p) 0). unfold numel at 2. cbn [data].
  rewrite Z.mul_1_r in *. split; [assumption|reflexivity].
Qed.

(** ** A zero chunk limit *)

(** With [atonce_patch_limit = 0], [patch_predictions] does not return on
    an input of at least one patch. *)
Lemma patch_predictions_limit_zero {score} (self : GridNet score) (x : tensor Z)
    (n : Z) :
  atonce_patch_limit self = Some 0 ->
  Forall (fun d => 0 < d) (patch_shape self) ->
  numel x = n * prod (patch_shape self) -> 0 < n ->
  patch_predictions self x = Diverge.
Proof.
  intros Hlim Hps Hn Hpos. rewrite patch_predictions_stages.
  rewrite (@reshape_exact _ x (patch_shape self) n Hps Hn). cbn [bind].
  unfold classify_patches. rewrite Hlim.
  rewrite chunk_loop_limit_zero by exact Hpos. reflexivity.
Qed.

(** The fuel [patch_predictions] runs on is enough: it reports a loop
    that does not end only for a zero limit, for which the loop indeed
    never ends. *)
Lemma patch_predictions_diverges_only_at_zero {score} (self : GridNet score)
    (x : tensor Z) :
  patch_predictions self x = Diverge -> atonce_patch_limit self = Some 0.
Proof.
  rewrite patch_predictions_stages.
  destruct (torch.reshape x (patch_shape self)) as [pl| |] eqn:Hr; cbn [bind];
    try discriminate.
  2:{ unfold torch.reshape in Hr. destruct (existsb _ _); [discriminate|].
      destruct (_ && _); discriminate. }
  apply reshape_inv in Hr. destruct Hr as [Hpl Hp].
  assert (Hlen : len pl <= numel x).
  { subst pl. cbn [len shape hd]. unfold numel.
    apply Z.div_le_upper_bound; [assumption|nia]. }
  assert (Hafter : forall rc : tensor score * list ppl_call,
             (grid <- torch.reshape (fst rc) (grid_shape self ++ [n_classes self]) ;;
              torch.permute grid [0; 3; 1; 2]%nat) <> Diverge).
  { intros rc. unfold torch.reshape. destruct (existsb _ _); [discriminate|].
    destruct (_ && _); cbn [bind]; [|discriminate].
    unfold torch.permute. destruct (torch.is_permutation _ _); discriminate. }
  unfold classify_patches. destruct (atonce_patch_limit self) as [limit|].
  - destruct (Z_lt_le_dec limit 0) as [Hneg|Hnn];
      [|destruct (Z.eq_dec limit 0) as [->|Hnz]; [reflexivity|]].
    + destruct (Z_lt_le_dec 0 (len pl)) as [Hpos|Hempty].
      * destruct (Z.to_nat (numel x)) as [|fuel] eqn:Hfuel; [lia|].
        rewrite chunk_loop_limit_negative by assumption. discriminate.
      * destruct (Z.to_nat (numel x)); cbn [chunk_loop count];
          (destruct (Z.ltb_spec 0 (len pl)); [lia|]); cbn [bind cp_chunks];
          discriminate.
    + rewrite chunk_loop_fuel_enough; [|lia|].
      2:{ etransitivity; [apply n_chunks_le; lia|]. lia. }
      cbn [bind cp_chunks].
      destruct (torch.cat _) as [r| |] eqn:Hcat; cbn [bind]; try discriminate.
      * intros H. exfalso. exact (Hafter _ H).
      * unfold torch.cat in Hcat. destruct (classified_chunks _ _ _);
          [discriminate|]. destruct (forallb _ _); discriminate.
  - cbn [_ppl bind]. intros H. exfalso. exact (Hafter _ H).
Qed.

(** ** Concrete runs *)

Lemma background_masking_witness :
  exists st1 st2 run',
    batch_step ex_env val 1 0 (ex_inputs, mkTensor [1; 1; 2] [2; 0])
      (ex_state, ex_running) = Ok (st1, run')
    /\ batch_step
         (with_model_call ex_env
            (fun m _ => mkTensor [1; 2; 1; 2] [state_dict m; 9; 0; 8]))
         val 1 0 (ex_inputs, mkTensor [1; 1; 2] [2; 0]) (ex_state, ex_running)
       = Ok (st2, run')
    /\ running_foreground run' = 1
    /\ epoch_labels run' = [mkTensor [1] [1]].
Proof.
  destruct (@background_masking Z Z nat Z Z ex_env
              (fun m _ => mkTensor [1; 2; 1; 2] [state_dict m; 9; 0; 8])
              val 1 0 ex_inputs (mkTensor [1; 1; 2] [2; 0]) ex_state ex_running
              1 2 1 2)
    as [flat [masked [retained [st1 [st2 [run' [_ [_ [_ [_ [_ [_ [_ [H1 [H2 _]]]]]]]]]]]]]]];
    try reflexivity; try discriminate.
  - intros b i j c l Hb Hi Hj Hc Hl Hpos.
    destruct b as [|b]; [|cbn in Hb; lia].
    destruct i as [|i]; [|cbn in Hi; lia].
    destruct j as [|[|j]]; [|cbn in Hl; injection Hl as <-; discriminate Hpos
                            |cbn in Hj; lia].
    destruct c as [|[|c]]; [reflexivity|reflexivity|cbn in Hc; lia].
  - exists st1, st2, run'. split; [exact H1|]. split; [exact H2|].
    vm_compute in H1. injection H1 as _ <-. split; reflexivity.
Defined.

Lemma best_checkpoint_witness :
  exists st',
    run_phase ex_env (ex_loaders [1; 0]) (Some "out/model.pt"%string) false 1 0%nat
      val ex_state = Ok st'
    /\ val_acc_history st' = [Acc 1]
    /\ best_acc st' = Acc 1
    /\ best_model_wts st' = 1
    /\ saved st' = [("out/model.pt"%string, ModelState 1);
                    ("out/model.opt"%string, OptimizerState 0%nat)].
Proof.
  exists (keep_best val (Acc 1) (Some "out/model.pt"%string)
            (enter_phase false val ex_state)).
  assert (H : run_phase ex_env (ex_loaders [1; 0]) (Some "out/model.pt"%string)
                false 1 0%nat val ex_state
              = Ok (keep_best val (Acc 1) (Some "out/model.pt"%string)
                      (enter_phase false val ex_state)))
    by (vm_compute; reflexivity).
  split; [exact H|].
  destruct (proj1 (@best_checkpoint_saved_on_improvement _ _ _ _ _ ex_env
                     (ex_loaders [1; 0]) (Some "out/model.pt"%string) false 1
                     0%nat ex_state _ H))
    as [acc [Hh [_ [_ [Hyes _]]]]].
  cbn [val_acc_history app ex_state] in Hh. injection Hh as <-.
  destruct (Hyes eq_refl) as [Hb [Hw Hs]].
  split; [reflexivity|]. split; [exact Hb|]. split; [exact Hw|]. exact Hs.
Defined.

Lemma no_improvement_witness :
  exists st,
    train_model_epochs ex_env ex_model (ex_loaders [2; 0]) ex_optimizer 2
      (Some "out/model.pt"%string) None false 1 = Ok st
    /\ val_acc_history st = [Acc 0; Acc 0]
    /\ state_dict (the_model st) = 3
    /\ train_model ex_env ex_model (ex_loaders [2; 0]) ex_optimizer 2
         (Some "out/model.pt"%string) None false 1
       = Ok (set_state_dict (the_model st) 1, [Acc 0; Acc 0])
    /\ saved st = [].
Proof.
  assert (Ha : 1 <> 0) by discriminate.
  assert (Hd : forall ph, dataset_len (ex_loaders [2; 0] ph) <> 0)
    by (intros ph; discriminate).
  assert (Hb : forall ph epoch, batches (ex_loaders [2; 0] ph) epoch <> [])
    by (intros ph epoch; discriminate).
  assert (Hw : forall ph epoch b (m : @model Z Z),
             In b (batches (ex_loaders [2; 0] ph) epoch) ->
             exists r, batch_forward ex_env (fst b) (snd b) m = Ok r)
    by (intros ph epoch b m [<-|[]]; eexists; reflexivity).
  destruct (@no_improvement_returns_initial_weights Z Z nat Z Z ex_env
              (ex_loaders [2; 0]) (Some "out/model.pt"%string) false 1
              Ha Hd Hb Hw ex_model ex_optimizer 2 None)
    as [st [Hst [_ Himp]]].
  exists st. split; [exact Hst|].
  assert (Hh : val_acc_history st = [Acc 0; Acc 0]
               /\ state_dict (the_model st) = 3).
  { pose proof Hst as Hc. vm_compute in Hc. injection Hc as <-.
    split; reflexivity. }
  destruct Hh as [Hh Hsd]. rewrite Hh in Himp.
  destruct Himp as [Ht [_ [_ Hs]]]; [repeat constructor|].
  split; [exact Hh|]. split; [exact Hsd|]. split; [exact Ht|exact Hs].
Defined.

(* ================================================================== *)
(** * Part III: further properties of the code *)
(* ================================================================== *)

(** ** Inputs that [patch_predictions] refuses *)

(** X1: [patch_predictions] raises a runtime error, with or without a
    chunk limit, whenever the element count of the input is not a multiple
    of the declared patch size (or the declared patch shape has a negative
    entry or a zero product): the first [reshape] refuses it. *)
Theorem patch_predictions_refuses_ragged_input
    {score} (self : GridNet score) (x : tensor Z) :
  existsb (fun d => d <? 0) (patch_shape self) = true
  \/ prod (patch_shape self) <= 0
  \/ numel x mod prod (patch_shape self) <> 0 ->
  patch_predictions self x = Raise RuntimeError.
Proof.
  intros H. rewrite patch_predictions_stages. unfold torch.reshape at 1.
  destruct (existsb _ (patch_shape self)); [reflexivity|].
  destruct H as [H|[H|H]]; [discriminate| |].
  - destruct (Z.ltb_spec 0 (prod (patch_shape self))); [lia|reflexivity].
  - destruct (Z.eqb_spec (numel x mod prod (patch_shape self)) 0); [contradiction|].
    rewrite andb_false_r. reflexivity.
Qed.

Lemma patch_predictions_refuses_ragged_witness :
  patch_predictions (ex_net None) ex_ragged_input = Raise RuntimeError
  /\ patch_predictions (ex_net (Some 4)) ex_ragged_input = Raise RuntimeError.
Proof.
  split; apply patch_predictions_refuses_ragged_input; right; right; discriminate.
Defined.

(** X2: with a negative [atonce_patch_limit] and an input of at least one
    patch, [patch_predictions] raises a runtime error: the first chunk asked
    of [narrow] has a negative length. *)
Theorem patch_predictions_negative_limit
    {score} (self : GridNet score) (limit n : Z) (x : tensor Z) :
  atonce_patch_limit self = Some limit -> limit < 0 ->
  Forall (fun d => 0 < d) (patch_shape self) ->
  numel x = n * prod (patch_shape self) -> 0 < n ->
  patch_predictions self x = Raise RuntimeError.
Proof.
  intros Hlim Hneg Hps Hn Hpos. rewrite patch_predictions_stages.
  rewrite (@reshape_exact _ x (patch_shape self) n Hps Hn). cbn [bind].
  unfold classify_patches. rewrite Hlim.
  pose proof (prod_pos Hps) as Hp.
  destruct (Z.to_nat (numel x)) as [|fuel] eqn:Hfuel; [nia|].
  rewrite chunk_loop_limit_negative by assumption. reflexivity.
Qed.

Lemma patch_predictions_negative_limit_witness :
  patch_predictions (ex_net (Some (-1))) ex_input = Raise RuntimeError.
Proof.
  apply (@patch_predictions_negative_limit _ (ex_net (Some (-1))) (-1) 6 ex_input).
  - reflexivity.
  - reflexivity.
  - repeat constructor.
  - reflexivity.
  - reflexivity.
Defined.

(** X3: on an input without elements [patch_predictions] raises a runtime
    error whatever the chunk limit, the loop leaving [torch.cat] an empty
    list; without a limit the classifier is called on the empty patch list
    and its result goes on to be reshaped. *)
Theorem patch_predictions_empty_input
    {score} (self : GridNet score) (x : tensor Z) :
  Forall (fun d => 0 < d) (patch_shape self) -> numel x = 0 ->
  (forall limit, patch_predictions (with_limit self (Some limit)) x
                 = Raise RuntimeError)
  /\ patch_predictions (with_limit self None) x
     = (grid <- torch.reshape
                  (call (patch_classifier self)
                     (mkTensor (0 :: patch_shape self) (data x)))
                  (grid_shape self ++ [n_classes self]) ;;
        torch.permute grid [0; 3; 1; 2]%nat).
Proof.
  intros Hps Hn.
  assert (Hr : torch.reshape x (patch_shape self)
               = Ok (mkTensor (0 :: patch_shape self) (data x)))
    by (apply reshape_exact; [assumption|lia]).
  split.
  - intros limit. rewrite patch_predictions_stages. cbn [patch_shape with_limit].
    rewrite Hr. cbn [bind]. unfold classify_patches.
    cbn [atonce_patch_limit with_limit]. rewrite Hn. reflexivity.
  - rewrite patch_predictions_stages. cbn [patch_shape with_limit].
    rewrite Hr. reflexivity.
Qed.

Lemma patch_predictions_empty_input_witness :
  (forall limit, patch_predictions (with_limit (ex_net None) (Some limit))
                   ex_empty_input = Raise RuntimeError)
  /\ patch_predictions (with_limit (ex_net None) None) ex_empty_input
     = Ok (mkTensor [0; 2; 2; 1] []).
Proof.
  destruct (@patch_predictions_empty_input _ (ex_net None) ex_empty_input)
    as [H1 H2].
  - repeat constructor.
  - reflexivity.
  - split; [exact H1|]. rewrite H2. reflexivity.
Defined.

(** ** Chunks of the patch list *)

(** X4: with a classifier that returns the patches it is given, chunked
    classification returns the patch list itself: narrowing to the chunks
    and concatenating them is the identity on a well-formed, non-empty
    patch list, for every limit of at least 1, and [_ppl] is called once
    per chunk. *)
Theorem chunks_concatenate_to_patch_list
    (self : GridNet Z) (limit : Z) (patch_list : tensor Z) (fuel : nat) :
  (forall t, call (patch_classifier self) t = t) ->
  1 <= limit -> 0 < len patch_list ->
  numel patch_list = prod (shape patch_list) ->
  (Z.to_nat (len patch_list) <= fuel)%nat ->
  exists cl,
    classify_patches fuel (with_limit self (Some limit)) patch_list
    = Ok (patch_list, cl)
    /\ length cl = n_chunks limit (len patch_list)
    /\ Z.of_nat (length cl) * limit < len patch_list + limit
    /\ len patch_list <= Z.of_nat (length cl) * limit.
Proof.
  intros Hid Hl Hpos Hwf Hfuel.
  assert (Hpw : patchwise (patch_classifier self) patch_list).
  { intros start size _ _ _. now rewrite !Hid. }
  assert (Hf : (n_chunks limit (len patch_list) <= fuel)%nat).
  { etransitivity; [apply n_chunks_le; assumption|exact Hfuel]. }
  rewrite (classify_patches_chunked self Hl Hpos Hwf Hpw Hf), Hid.
  eexists. split; [reflexivity|]. rewrite repeat_length.
  pose proof (n_chunks_bounds Hl Hpos). repeat split; lia.
Qed.

Lemma chunks_concatenate_witness :
  exists cl,
    classify_patches 6 (with_limit (ex_identity_net None) (Some 4)) ex_patch_list
    = Ok (ex_patch_list, cl)
    /\ length cl = 2%nat.
Proof.
  destruct (@chunks_concatenate_to_patch_list (ex_identity_net None) 4
              ex_patch_list 6) as [cl [Hc [Hlen _]]].
  - reflexivity.
  - discriminate.
  - reflexivity.
  - reflexivity.
  - apply Nat.le_refl.
  - exists cl. split; [exact Hc|]. rewrite Hlen. reflexivity.
Defined.

(** ** No background short-circuit in the batched path *)

Lemma chunk_loop_with_bg {score} (self : GridNet score) (bg : tensor score)
    (limit : Z) (patch_list : tensor Z) (fuel : nat) :
  forall st,
    chunk_loop fuel (with_bg self bg) limit patch_list st
    = chunk_loop fuel self limit patch_list st.
Proof.
  induction fuel as [|fuel IH]; intros st; cbn [chunk_loop]; [reflexivity|].
  destruct (count st <? len patch_list); [|reflexivity].
  change (chunk_body (with_bg self bg) limit patch_list st)
    with (chunk_body self limit patch_list st).
  destruct (chunk_body self limit patch_list st); cbn [bind]; auto.
Qed.

Lemma max_of_zeros (x : tensor Z) :
  data x <> [] -> Forall (fun v => v = 0) (data x) -> torch.max x = Ok 0.
Proof.
  intros Hne Hall. unfold torch.max. destruct (data x) as [|v vs]; [congruence|].
  inversion Hall as [|? ? Hv Hvs]; subst. f_equal. clear Hne Hall.
  induction Hvs as [|u us Hu _ IH]; [reflexivity|]. subst u. exact IH.
Qed.

(** X5: the batched path never takes the background short-circuit:
    [patch_predictions] does not depend on the constant background vector,
    so all-zero patches are classified like any other, whereas
    [foreground_classifier] returns that vector for an all-zero patch
    without calling the classifier. *)
Theorem batched_path_ignores_background
    {score} (self : GridNet score) (bg : tensor score) (x : tensor Z) :
  patch_predictions (with_bg self bg) x = patch_predictions self x
  /\ (data x <> [] -> Forall (fun v => v = 0) (data x) ->
      foreground_classifier (with_bg self bg) x = Ok bg).
Proof.
  split.
  - rewrite !patch_predictions_stages. cbn [patch_shape with_bg].
    destruct (torch.reshape x (patch_shape self)) as [pl| |]; cbn [bind];
      try reflexivity.
    unfold classify_patches. cbn [atonce_patch_limit with_bg].
    destruct (atonce_patch_limit self); [|reflexivity].
    rewrite chunk_loop_with_bg. reflexivity.
  - intros Hne Hall. unfold foreground_classifier.
    rewrite (@max_of_zeros x Hne Hall). reflexivity.
Qed.

Lemma batched_path_ignores_background_witness :
  foreground_classifier (with_bg (ex_net None) (mkTensor [1; 2] [7; 7])) ex_zero_patch
  = Ok (mkTensor [1; 2] [7; 7])
  /\ patch_predictions (with_bg (ex_net None) (mkTensor [1; 2] [7; 7])) ex_input
     = patch_predictions (ex_net None) ex_input.
Proof.
  destruct (@batched_path_ignores_background _ (ex_net None)
              (mkTensor [1; 2] [7; 7]) ex_zero_patch) as [_ H].
  split.
  - apply H; [discriminate|repeat constructor].
  - apply (@batched_path_ignores_background _ (ex_net None)
             (mkTensor [1; 2] [7; 7]) ex_input).
Defined.

(** ** The correctors and the forward pass *)

Lemma conv_layer_shape (tr : bool) (n k p b h w : Z) :
  2 * p = k - 1 -> 0 < h -> 0 < w ->
  layer_shape tr (Conv2d n n k p) [b; n; h; w] = Ok [b; n; h; w].
Proof.
  intros Hk Hh Hw. cbn [layer_shape layer_channels]. rewrite Z.eqb_refl.
  cbn [bind]. unfold conv_out_size.
  replace (h + 2 * p - k + 1) with h by lia.
  replace (w + 2 * p - k + 1) with w by lia.
  destruct (Z.ltb_spec h 1); [lia|]. destruct (Z.ltb_spec w 1); [lia|].
  reflexivity.
Qed.

Lemma values_per_channel_4d (b c h w : Z) :
  values_per_channel [b; c; h; w] = b * (h * w).
Proof.
  unfold values_per_channel. cbn [hd skipn prod fold_right]. now rewrite Z.mul_1_r.
Qed.

Lemma batch_norm_layer_shape (tr : bool) (n b h w : Z) :
  layer_shape tr (BatchNorm2d n) [b; n; h; w]
  = if tr && (b * (h * w) =? 1) then Raise ValueError else Ok [b; n; h; w].
Proof.
  cbn [layer_shape]. rewrite values_per_channel_4d.
  destruct (tr && _); [reflexivity|].
  cbn [layer_channels]. rewrite Z.eqb_refl. reflexivity.
Qed.

(** The rectangular corrector gives back the shape it is given, unless a
    batch normalization in training mode finds a single value per
    channel. *)
Lemma rectangular_corrector_shape (n : Z) (bn tr : bool) (b h w : Z) :
  0 < h -> 0 < w ->
  sequential_shape tr (_init_corrector n bn) [b; n; h; w]
  = if tr && bn && (b * (h * w) =? 1) then Raise ValueError else Ok [b; n; h; w].
Proof.
  intros Hh Hw.
  assert (Hrelu : forall sh, layer_shape tr ReLU sh = Ok sh)
    by (intros [|? [|? [|? [|? [|? ?]]]]]; reflexivity).
  destruct bn; cbn [_init_corrector app sequential_shape].
  - rewrite andb_true_r.
    rewrite conv_layer_shape by lia. cbn [bind].
    rewrite batch_norm_layer_shape.
    destruct (tr && (b * (h * w) =? 1)) eqn:Hone; cbn [bind]; [reflexivity|].
    rewrite Hrelu. cbn [bind].
    rewrite conv_layer_shape by lia. cbn [bind].
    rewrite batch_norm_layer_shape, Hone. cbn [bind]. rewrite Hrelu. cbn [bind].
    rewrite conv_layer_shape by lia. cbn [bind].
    rewrite batch_norm_layer_shape, Hone. cbn [bind]. rewrite Hrelu. cbn [bind].
    rewrite conv_layer_shape by lia. reflexivity.
  - rewrite andb_false_r. cbn [andb].
    rewrite conv_layer_shape by lia. cbn [bind]. rewrite Hrelu. cbn [bind].
    rewrite conv_layer_shape by lia. cbn [bind]. rewrite Hrelu. cbn [bind].
    rewrite conv_layer_shape by lia. cbn [bind]. rewrite Hrelu. cbn [bind].
    rewrite conv_layer_shape by lia. reflexivity.
Qed.

(** X6: the rectangular corrector is, for every [n_classes], three blocks
    of a convolution (kernel sizes 3, 5, 5 with paddings 1, 2, 2), a batch
    normalization exactly when [use_bn] is set, and a ReLU, followed by a
    last convolution of kernel size 3 and padding 1.  On an input of
    [n_classes] channels it gives back the shape of its input, whatever
    the batch size, the height and the width (all at least 1), except that
    with [use_bn] in training mode a single value per channel (batch,
    height and width all 1) makes the first batch normalization raise a
    [ValueError]; an input with any other number of channels is refused by
    the first convolution. *)
Theorem rectangular_corrector_keeps_shape
    (n : Z) (bn tr : bool) (b h w : Z) :
  0 < b -> 0 < h -> 0 < w ->
  _init_corrector n bn
  = flat_map (fun kp => Conv2d n n (fst kp) (snd kp)
                        :: (if bn then [BatchNorm2d n] else []) ++ [ReLU])
      [(3, 1); (5, 2); (5, 2)]
    ++ [Conv2d n n 3 1]
  /\ sequential_shape tr (_init_corrector n bn) [b; n; h; w]
     = (if tr && bn && (b * (h * w) =? 1) then Raise ValueError
        else Ok [b; n; h; w])
  /\ (forall c, c <> n ->
        sequential_shape tr (_init_corrector n bn) [b; c; h; w]
        = Raise RuntimeError).
Proof.
  intros Hb Hh Hw. split; [destruct bn; reflexivity|].
  split; [apply rectangular_corrector_shape; assumption|].
  intros c Hc.
  destruct bn; cbn [_init_corrector app sequential_shape layer_shape
                    layer_channels];
    (destruct (Z.eqb_spec c n); [congruence|reflexivity]).
Qed.

Lemma rectangular_corrector_witness :
  sequential_shape true (_init_corrector 2 true) [3; 2; 2; 1] = Ok [3; 2; 2; 1]
  /\ sequential_shape true (_init_corrector 2 true) [1; 2; 1; 1] = Raise ValueError
  /\ sequential_shape false (_init_corrector 2 true) [1; 2; 1; 1] = Ok [1; 2; 1; 1].
Proof.
  split; [|split].
  - exact (proj1 (proj2 (@rectangular_corrector_keeps_shape 2 true true 3 2 1
                           eq_refl eq_refl eq_refl))).
  - exact (proj1 (proj2 (@rectangular_corrector_keeps_shape 2 true true 1 1 1
                           eq_refl eq_refl eq_refl))).
  - exact (proj1 (proj2 (@rectangular_corrector_keeps_shape 2 true false 1 1 1
                           eq_refl eq_refl eq_refl))).
Defined.

(** The mode of the module is nothing to the patch predictions. *)
Lemma chunk_loop_module_train {score} (self : GridNet score) (mode : bool)
    (limit : Z) (patch_list : tensor Z) (fuel : nat) :
  forall st,
    chunk_loop fuel (module_train self mode) limit patch_list st
    = chunk_loop fuel self limit patch_list st.
Proof.
  induction fuel as [|fuel IH]; intros st; cbn [chunk_loop]; [reflexivity|].
  destruct (count st <? len patch_list); [|reflexivity].
  change (chunk_body (module_train self mode) limit patch_list st)
    with (chunk_body self limit patch_list st).
  destruct (chunk_body self limit patch_list st); cbn [bind]; auto.
Qed.

Lemma patch_predictions_module_train {score} (self : GridNet score) (mode : bool)
    (x : tensor Z) :
  patch_predictions (module_train self mode) x = patch_predictions self x.
Proof.
  rewrite !patch_predictions_stages. cbn [patch_shape module_train].
  destruct (torch.reshape x (patch_shape self)) as [pl| |]; cbn [bind];
    try reflexivity.
  unfold classify_patches. cbn [atonce_patch_limit module_train].
  destruct (atonce_patch_limit self); [|reflexivity].
  rewrite chunk_loop_module_train. reflexivity.
Qed.

(** Patch predictions have four dimensions. *)
Lemma patch_predictions_four_dimensions {score} (self : GridNet score)
    (x : tensor Z) (t : tensor score) :
  patch_predictions self x = Ok t ->
  exists b c h w, shape t = [b; c; h; w].
Proof.
  rewrite patch_predictions_stages.
  destruct (torch.reshape x (patch_shape self)) as [pl| |]; cbn [bind];
    try discriminate.
  destruct (classify_patches _ self pl) as [rc| |]; cbn [bind]; try discriminate.
  destruct (torch.reshape (fst rc) _) as [g| |]; cbn [bind]; try discriminate.
  unfold torch.permute. destruct (torch.is_permutation _ _); [|discriminate].
  intros H; injection H as <-. cbn [shape map]. eauto.
Qed.

(** X7: the hexagonal corrector accepts the channel count of an
    [n_classes]-channel input exactly when [use_bn] is off or [n_classes]
    is 32; otherwise its first batch normalization, built for [n_classes]
    channels, is handed 32, and the forward pass of a [GridNetHex] raises
    on every input for which the patch predictions have [n_classes]
    channels: a [RuntimeError] for the channels, or, from a batch
    normalization in training mode that finds a single value per channel,
    the [ValueError] that comes before that check; in evaluation mode it
    is always the [RuntimeError]. *)
Theorem hex_corrector_accepts_iff (n : Z) (bn : bool) :
  (sequential_channels (GridNetHex._init_corrector n bn) n = Ok n
   <-> bn = false \/ n = 32)
  /\ (bn = true -> n <> 32 ->
      sequential_channels (GridNetHex._init_corrector n bn) n = Raise RuntimeError
      /\ forall score (zero : score) pc pshape gshape limit apply_layer x t,
           patch_predictions
             (GridNetHex_init zero pc pshape gshape n bn limit) x = Ok t ->
           nth 1 (shape t) 0 = n ->
           forward apply_layer
             (GridNetHex_init zero pc pshape gshape n bn limit) x
           = Raise (if values_per_channel (shape t) =? 1
                    then ValueError else RuntimeError)
           /\ forward apply_layer
                (module_train (GridNetHex_init zero pc pshape gshape n bn limit)
                   false) x
              = Raise RuntimeError).
Proof.
  split.
  - destruct bn.
    + destruct (Z.eq_dec n 32) as [->|Hn].
      * split; [intros _; right; reflexivity|intros _; reflexivity].
      * destruct (hex_corrector_channels_with_bn Hn) as [Hr _]. rewrite Hr.
        split; [discriminate|intros [H|H]; [discriminate|contradiction]].
    + destruct (hex_corrector_channels_without_bn n) as [Hr _]. rewrite Hr.
      split; [intros _; left; reflexivity|intros _; reflexivity].
  - intros -> Hn. destruct (hex_corrector_channels_with_bn Hn) as [Hr _].
    split; [exact Hr|].
    intros score zero pc pshape gshape limit apply_layer x t Hp Hc.
    destruct (patch_predictions_four_dimensions _ _ Hp) as [b [c [h [w Hs]]]].
    rewrite Hs in Hc. cbn [nth] in Hc. subst c.
    assert (Hseq : forall tr,
               sequential_shape tr (GridNetHex._init_corrector n true) [b; n; h; w]
               = Raise (if tr && (b * (h * w) =? 1)
                        then ValueError else RuntimeError)).
    { intros tr.
      assert (Hhex : forall i o, layer_shape tr (HexConv2d i o 1 1 true) [b; i; h; w]
                                 = Ok [b; o; h; w]).
      { intros i o. cbn [layer_shape layer_channels]. rewrite Z.eqb_refl.
        reflexivity. }
      cbn [GridNetHex._init_corrector app sequential_shape].
      rewrite !Hhex. cbn [bind]. rewrite Hhex. cbn [bind layer_shape].
      rewrite values_per_channel_4d.
      destruct (tr && (b * (h * w) =? 1)); [reflexivity|].
      cbn [layer_channels]. destruct (Z.eqb_spec 32 n); [congruence|reflexivity]. }
    split.
    + unfold forward. rewrite Hp. cbn [bind corrector module_training GridNetHex_init].
      rewrite Hs, Hseq, values_per_channel_4d. reflexivity.
    + unfold forward. rewrite patch_predictions_module_train, Hp.
      cbn [bind corrector module_training module_train GridNetHex_init].
      rewrite Hs, Hseq. reflexivity.
Qed.

Lemma hex_corrector_accepts_witness :
  sequential_channels (GridNetHex._init_corrector 32 true) 32 = Ok 32
  /\ sequential_channels (GridNetHex._init_corrector 5 true) 5 = Raise RuntimeError
  /\ forward (fun _ t => t) (ex_hex_net true) ex_input = Raise RuntimeError.
Proof.
  split; [|split].
  - apply (proj1 (hex_corrector_accepts_iff 32 true)). right. reflexivity.
  - apply (proj2 (hex_corrector_accepts_iff 5 true)); [reflexivity|discriminate].
  - exact (proj1 (proj2 (proj2 (hex_corrector_accepts_iff 2 true) eq_refl
                           ltac:(discriminate))
                    Z 0 ex_classifier [1; 1; 2] [2; 1] None (fun _ t => t) ex_input
                    (mkTensor [3; 2; 2; 1] [3; 7; 1; 3; 11; 15; 5; 7; 19; 23; 9; 11])
                    eq_refl eq_refl)).
Defined.

(** Valid inputs have predictions, of the shape (batch, n_classes, grid_h,
    grid_w). *)
Lemma patch_predictions_returns
    {score} (self : GridNet score) (batch gh gw : Z) (x : tensor Z) :
  Forall (fun d => 0 < d) (patch_shape self) ->
  grid_shape self = [gh; gw] -> 0 < gh -> 0 < gw ->
  0 < n_classes self -> 0 < batch ->
  numel x = batch * gh * gw * prod (patch_shape self) ->
  (forall limit, atonce_patch_limit self = Some limit -> 1 <= limit) ->
  scores_per_patch self ->
  exists t,
    patch_predictions self x = Ok t
    /\ shape t = [batch; n_classes self; gh; gw].
Proof.
  intros Hps Hgs Hgh Hgw Hnc Hb Hn Hlim Hsp.
  pose proof (prod_pos Hps) as Hpp.
  set (patch_list := mkTensor (batch * gh * gw :: patch_shape self) (data x)).
  assert (Hr : torch.reshape x (patch_shape self) = Ok patch_list)
    by (apply reshape_exact; assumption).
  assert (Hlen : len patch_list = batch * gh * gw) by reflexivity.
  assert (Hpos : 0 < len patch_list) by (rewrite Hlen; nia).
  destruct (@classify_patches_shape _ self (Z.to_nat (numel x)) patch_list Hsp
              eq_refl Hpos) as [preds [cl [Hc [Hs Hnp]]]].
  { intros limit Hl. split; [apply Hlim; exact Hl|].
    etransitivity; [apply n_chunks_le; apply (Hlim _ Hl)|].
    apply Z2Nat.inj_le; try lia. rewrite Hn, Hlen. nia. }
  assert (Hg : torch.reshape preds [gh; gw; n_classes self]
               = Ok (mkTensor [batch; gh; gw; n_classes self] (data preds))).
  { apply reshape_exact.
    - repeat constructor; assumption.
    - rewrite Hnp, Hlen. cbn [prod fold_right]. lia. }
  destruct (@permute_channels_first _
              (mkTensor [batch; gh; gw; n_classes self] (data preds))
              batch gh gw (n_classes self) eq_refl)
    as [t [Hp [Hst _]]]; try lia.
  { unfold numel in *. cbn [data]. rewrite Hnp, Hlen. reflexivity. }
  exists t. split; [|exact Hst].
  rewrite patch_predictions_stages, Hr. cbn [bind]. rewrite Hc. cbn [bind fst].
  rewrite Hgs. cbn [app]. rewrite Hg. cbn [bind]. exact Hp.
Qed.

(** X8: the two stages of a [GridNet] fit: on a valid input the patch
    predictions have the [n_classes] channels the corrector is built for,
    and the forward pass is the corrector applied to them, layer after
    layer.  A network as [__init__] leaves it is in training mode: with
    [use_bn], a batch of one grid of a single cell gives one value per
    channel, and the forward pass raises a [ValueError]; in evaluation
    mode it returns on every valid input. *)
Theorem forward_applies_corrector
    {score} (zero : score) (pc : classifier score) (pshape : list Z)
    (gh gw n : Z) (bn : bool) (limit : option Z) (batch : Z) (x : tensor Z) :
  let self := GridNet_init zero pc pshape [gh; gw] n bn limit in
  Forall (fun d => 0 < d) pshape -> 0 < gh -> 0 < gw -> 0 < n -> 0 < batch ->
  numel x = batch * gh * gw * prod pshape ->
  (forall l, limit = Some l -> 1 <= l) ->
  scores_per_patch self ->
  exists t,
    patch_predictions self x = Ok t
    /\ shape t = [batch; n; gh; gw]
    /\ forall apply_layer,
         forward apply_layer self x
         = (if bn && (batch * (gh * gw) =? 1) then Raise ValueError
            else Ok (fold_left (fun t l => apply_layer l t)
                       (_init_corrector n bn) t))
         /\ forward apply_layer (module_train self false) x
            = Ok (fold_left (fun t l => apply_layer l t) (_init_corrector n bn) t).
Proof.
  intros self Hps Hgh Hgw Hn Hb Hx Hlim Hsp.
  destruct (@patch_predictions_returns _ self batch gh gw x) as [t [Hp Hs]];
    try assumption; try reflexivity.
  exists t. split; [exact Hp|]. split; [exact Hs|].
  intros apply_layer. split.
  - unfold forward. rewrite Hp. cbn [bind]. rewrite Hs. subst self.
    cbn [corrector module_training GridNet_init].
    rewrite rectangular_corrector_shape by assumption. cbn [andb].
    destruct (bn && (batch * (gh * gw) =? 1)); reflexivity.
  - unfold forward. rewrite patch_predictions_module_train, Hp. cbn [bind].
    rewrite Hs. subst self. cbn [corrector module_training module_train GridNet_init].
    rewrite rectangular_corrector_shape by assumption. reflexivity.
Qed.

Lemma forward_applies_corrector_witness :
  forward (fun _ t => t) (ex_net (Some 4)) ex_input
  = Ok (fold_left (fun t (_ : layer) => t) (_init_corrector 2 true)
          (mkTensor [3; 2; 2; 1] [3; 7; 1; 3; 11; 15; 5; 7; 19; 23; 9; 11])).
Proof.
  destruct (@forward_applies_corrector _ 0 ex_classifier [1; 1; 2] 2 1 2 true
              (Some 4) 3 ex_input) as [t [Hp [_ Hf]]].
  - repeat constructor.
  - reflexivity.
  - reflexivity.
  - reflexivity.
  - reflexivity.
  - reflexivity.
  - intros l H. injection H as <-. discriminate.
  - apply ex_classifier_scores_per_patch.
  - unfold ex_net. rewrite (proj1 (Hf (fun _ t => t))).
    cbn [andb Z.eqb Z.mul Pos.mul]. f_equal. f_equal.
    assert (Ht : Ok t = Ok (mkTensor [3; 2; 2; 1]
                              [3; 7; 1; 3; 11; 15; 5; 7; 19; 23; 9; 11]))
      by (rewrite <- Hp; reflexivity).
    injection Ht as ->. reflexivity.
Defined.

(** ** The shape contract of a batch *)

Lemma reshape_raises {A} (x : tensor A) (dims : list Z) (e : error) :
  torch.reshape x dims = Raise e -> e = RuntimeError.
Proof.
  unfold torch.reshape. destruct (existsb _ _); [congruence|].
  destruct (_ && _); congruence.
Qed.

Lemma permute_raises {A} (t : tensor A) (perm : list nat) (e : error) :
  torch.permute t perm = Raise e -> e = RuntimeError.
Proof. unfold torch.permute. destruct (torch.is_permutation _ _); congruence. Qed.

(** X9: the assertion of the training loop, on predictions of four
    dimensions, looks at the height and the width of the labels only, the
    height first: labels of fewer than two dimensions raise an
    [IndexError]; labels of two dimensions fail the assertion when their
    second dimension is not the height of the predictions, and raise an
    [IndexError], in the comparison of the widths, when it is; labels of
    three or more dimensions fail the assertion when their height or their
    width differs from that of the predictions, and pass it otherwise,
    whatever their first dimension. *)
Theorem flatten_batch_checks_height_and_width
    {score} (outputs : tensor score) (labels : tensor Z) (B C H W : Z) :
  shape outputs = [B; C; H; W] ->
  match shape labels with
  | [] | [_] => flatten_batch outputs labels = Raise IndexError
  | [_; H'] =>
      flatten_batch outputs labels
      = Raise (if H =? H' then IndexError else AssertionError)
  | _ :: H' :: W' :: _ =>
      (H <> H' \/ W <> W' -> flatten_batch outputs labels = Raise AssertionError)
      /\ (H = H' -> W = W' ->
          flatten_batch outputs labels
          = (outputs <- torch.permute outputs [0; 2; 3; 1]%nat ;;
             outputs <- torch.reshape outputs [last (shape outputs) 0] ;;
             labels <- torch.reshape labels [] ;;
             Ok (outputs, labels))
          /\ flatten_batch outputs labels <> Raise AssertionError
          /\ flatten_batch outputs labels <> Raise IndexError)
  end.
Proof.
  intros Hs. unfold flatten_batch. rewrite Hs. cbn [index nth_error bind].
  destruct (shape labels) as [|B' [|H' [|W' rest]]]; cbn [index nth_error bind];
    try reflexivity.
  - destruct (Z.eqb_spec H H'); reflexivity.
  - split.
    + intros Hne.
      destruct (Z.eqb_spec H H') as [<-|_]; cbn [negb]; [|reflexivity].
      destruct (Z.eqb_spec W W') as [<-|_]; cbn [negb]; [|reflexivity].
      destruct Hne; contradiction.
    + intros <- <-. rewrite !Z.eqb_refl. cbn [negb].
      split; [reflexivity|].
      destruct (torch.permute outputs _) as [p|e|] eqn:Hp; cbn [bind];
        [|apply permute_raises in Hp; subst e; split; discriminate
         |split; discriminate].
      destruct (torch.reshape p _) as [o|e|] eqn:Ho; cbn [bind];
        [|apply reshape_raises in Ho; subst e; split; discriminate
         |split; discriminate].
      destruct (torch.reshape labels []) as [l|e|] eqn:Hl; cbn [bind];
        [split; discriminate
        |apply reshape_raises in Hl; subst e; split; discriminate
        |split; discriminate].
Qed.

Lemma flatten_batch_checks_witness :
  flatten_batch (mkTensor [1; 2; 1; 2] [1; 0; 0; 1]) (mkTensor [1; 2; 1] [1; 0])
  = Raise AssertionError
  /\ flatten_batch (mkTensor [1; 2; 1; 2] [1; 0; 0; 1]) (mkTensor [2] [1; 0])
     = Raise IndexError
  /\ flatten_batch (mkTensor [1; 2; 1; 2] [1; 0; 0; 1]) (mkTensor [2; 1] [1; 0])
     = Raise IndexError
  /\ flatten_batch (mkTensor [1; 2; 1; 2] [1; 0; 0; 1]) (mkTensor [1; 2] [1; 0])
     = Raise AssertionError.
Proof.
  split; [|split; [|split]].
  - apply (@flatten_batch_checks_height_and_width Z
             (mkTensor [1; 2; 1; 2] [1; 0; 0; 1]) (mkTensor [1; 2; 1] [1; 0])
             1 2 1 2 eq_refl).
    left. discriminate.
  - exact (@flatten_batch_checks_height_and_width Z
             (mkTensor [1; 2; 1; 2] [1; 0; 0; 1]) (mkTensor [2] [1; 0])
             1 2 1 2 eq_refl).
  - exact (@flatten_batch_checks_height_and_width Z
             (mkTensor [1; 2; 1; 2] [1; 0; 0; 1]) (mkTensor [2; 1] [1; 0])
             1 2 1 2 eq_refl).
  - exact (@flatten_batch_checks_height_and_width Z
             (mkTensor [1; 2; 1; 2] [1; 0; 0; 1]) (mkTensor [1; 2] [1; 0])
             1 2 1 2 eq_refl).
Defined.

(** X10: well-formed predictions (b, c, h, w) and labels (b, h, w) are
    flattened to one row of [c] scores and one label per grid position, in
    the same order: score [k] of row (b * h + i) * w + j is the prediction
    for class [k] at position (b, i, j); and masking the result does not
    fail. *)
Theorem flatten_batch_rows
    {score} (outputs : tensor score) (labels : tensor Z) (B C H W : Z) :
  shape outputs = [B; C; H; W] -> 0 <= B -> 0 < C -> 0 <= H -> 0 <= W ->
  numel outputs = B * C * H * W ->
  shape labels = [B; H; W] -> numel labels = B * H * W ->
  exists o l,
    flatten_batch outputs labels = Ok (o, l)
    /\ shape o = [B * H * W; C]
    /\ shape l = [B * H * W] /\ data l = data labels
    /\ (forall b i j k,
          (b < Z.to_nat B)%nat -> (i < Z.to_nat H)%nat ->
          (j < Z.to_nat W)%nat -> (k < Z.to_nat C)%nat ->
          nth_error (data o)
            (((b * Z.to_nat H + i) * Z.to_nat W + j) * Z.to_nat C + k)
          = torch.at_ outputs [b; k; i; j]
          /\ torch.at_ outputs [b; k; i; j] <> None)
    /\ exists masked, mask_foreground o l = Ok masked.
Proof.
  intros Hs HB HC HH HW Hn Hl Hnl.
  destruct (@flatten_batch_ok _ outputs labels B B C H W) as [o [Hf [Hso Hat]]];
    try assumption.
  exists o. eexists. split; [exact Hf|]. cbn [shape data].
  split; [exact Hso|]. split; [now rewrite Hnl|]. split; [reflexivity|].
  split; [exact Hat|].
  unfold mask_foreground, mask_select at 1. rewrite Hso. cbn [gt0 shape].
  rewrite Hnl, shape_eqb_refl. cbn [bind].
  rewrite (@retained_labels_filter (mkTensor [B * H * W] (data labels)) (B * H * W))
    by (try reflexivity; unfold numel in *; cbn [data]; exact Hnl).
  eexists. reflexivity.
Qed.

Lemma flatten_batch_rows_witness :
  exists o l,
    flatten_batch (mkTensor [1; 2; 1; 2] [1; 0; 0; 1]) (mkTensor [1; 1; 2] [1; 0])
    = Ok (o, l)
    /\ shape o = [2; 2] /\ shape l = [2] /\ data l = [1; 0].
Proof.
  destruct (@flatten_batch_rows Z (mkTensor [1; 2; 1; 2] [1; 0; 0; 1])
              (mkTensor [1; 1; 2] [1; 0]) 1 2 1 2
              eq_refl ltac:(discriminate) eq_refl ltac:(discriminate)
              ltac:(discriminate) eq_refl eq_refl eq_refl)
    as [o [l [Hf [Hso [Hsl [Hdl _]]]]]].
  exists o, l. repeat split; assumption.
Defined.

(** X11: the assertion does not compare the batch sizes: predictions for
    [b] grids and labels for [b'] other than [b] pass it, and the batch
    fails later, in the boolean mask of the predictions, with an index
    error. *)
Theorem batch_size_mismatch_raises_index_error
    {W G L score} (env : @collaborators W G L score) (inputs labels : tensor Z)
    (m : @model W G) (B B' C H W' : Z) :
  shape (model_call env m inputs) = [B; C; H; W'] ->
  0 <= B -> 0 < C -> 0 < H -> 0 < W' ->
  numel (model_call env m inputs) = B * C * H * W' ->
  shape labels = [B'; H; W'] -> numel labels = B' * H * W' -> B <> B' ->
  (exists o l, flatten_batch (model_call env m inputs) labels = Ok (o, l))
  /\ batch_forward env inputs labels m = Raise IndexError.
Proof.
  intros Hs HB HC HH HW Hn Hl Hnl Hne.
  destruct (@flatten_batch_ok _ (model_call env m inputs) labels B B' C H W')
    as [o [Hf [Hso _]]]; try assumption; try lia.
  split; [eexists; eexists; exact Hf|].
  unfold batch_forward. rewrite Hf. cbn [bind fst snd].
  unfold mask_foreground, mask_select at 1. rewrite Hso. cbn [gt0 shape shape_eqb].
  rewrite Hnl. destruct (Z.eqb_spec (B' * H * W') (B * H * W')) as [Heq|_];
    [|reflexivity].
  exfalso. apply Hne. symmetry.
  apply Z.mul_reg_r with (p := H); [lia|].
  apply Z.mul_reg_r with (p := W'); [lia|]. exact Heq.
Qed.

Lemma batch_size_mismatch_witness :
  batch_forward ex_env ex_inputs (mkTensor [2; 1; 2] [1; 0; 2; 0]) ex_model
  = Raise IndexError.
Proof.
  apply (@batch_size_mismatch_raises_index_error _ _ _ _ ex_env ex_inputs
           (mkTensor [2; 1; 2] [1; 0; 2; 0]) ex_model 1 2 2 1 2);
    try reflexivity; discriminate.
Defined.

(** ** The layout of the predictions, there and back *)

(** Moving the class axis of a (b, h, w, c) tensor to position 1 and back
    to the end gives the tensor again. *)
Lemma permute_round_trip {A} (g : tensor A) (B H W C : Z) :
  shape g = [B; H; W; C] -> 0 <= B -> 0 <= H -> 0 <= W -> 0 <= C ->
  numel g = B * H * W * C ->
  exists t,
    torch.permute g [0; 3; 1; 2]%nat = Ok t
    /\ shape t = [B; C; H; W]
    /\ numel t = B * C * H * W
    /\ torch.permute t [0; 2; 3; 1]%nat = Ok g.
Proof.
  intros Hs HB HH HW HC Hn.
  destruct (@permute_channels_first _ g B H W C Hs HB HH HW HC Hn)
    as [t [Hp [Hst [Hnt Hat]]]].
  exists t. split; [exact Hp|]. split; [exact Hst|].
  assert (Hnt' : numel t = B * C * H * W) by (rewrite Hnt, Hn; ring).
  split; [exact Hnt'|].
  destruct (@permute_channels_last _ t B C H W Hst HB HC HH HW Hnt')
    as [u [Hu [Hsu [Hnu Hau]]]].
  rewrite Hu. f_equal. destruct u as [su du], g as [sg dg].
  cbn [shape data] in *. subst su sg. f_equal.
  apply nth_error_ext. intros k.
  assert (Hlen : length du = length dg).
  { unfold numel in Hnu, Hnt. cbn [data] in Hnu, Hnt. lia. }
  destruct (Nat.lt_ge_cases k (length dg)) as [Hk|Hk].
  - assert (Hk' : (k < Z.to_nat B * Z.to_nat H * Z.to_nat W * Z.to_nat C)%nat).
    { unfold numel in Hn. cbn [data] in Hn.
      rewrite <- !Z2Nat.inj_mul by nia. lia. }
    destruct (index_decompose _ _ _ _ Hk') as [b [i [j [c [Hb [Hi [Hj [Hc ->]]]]]]]].
    destruct (Hau b i j c Hb Hi Hj Hc) as [-> _].
    destruct (Hat b c i j Hb Hc Hi Hj) as [-> [-> _]]. reflexivity.
  - transitivity (@None A); [|symmetry]; apply nth_error_None; lia.
Qed.

(** X12: the flattening of the training loop undoes the layout change of
    [patch_predictions]: on a valid input, the predictions permuted to
    channel-last and reshaped to rows are the scores as the patch
    classifier returned them, one row per patch in the order of the patch
    list. *)
Theorem flatten_batch_undoes_patch_predictions
    {score} (self : GridNet score) (batch gh gw : Z) (x labels : tensor Z) :
  Forall (fun d => 0 < d) (patch_shape self) ->
  grid_shape self = [gh; gw] -> 0 < gh -> 0 < gw ->
  0 < n_classes self -> 0 < batch ->
  numel x = batch * gh * gw * prod (patch_shape self) ->
  (forall limit, atonce_patch_limit self = Some limit -> 1 <= limit) ->
  scores_per_patch self ->
  nth 1 (shape labels) 0 = gh -> nth 2 (shape labels) 0 = gw ->
  length (shape labels) = 3%nat ->
  exists preds cl t,
    classify_patches (Z.to_nat (numel x)) self
      (mkTensor (batch * gh * gw :: patch_shape self) (data x)) = Ok (preds, cl)
    /\ patch_predictions self x = Ok t
    /\ flatten_batch t labels
       = Ok (preds, mkTensor [numel labels] (data labels)).
Proof.
  intros Hps Hgs Hgh Hgw Hnc Hb Hn Hlim Hsp Hl1 Hl2 Hl3.
  pose proof (prod_pos Hps) as Hpp.
  set (patch_list := mkTensor (batch * gh * gw :: patch_shape self) (data x)).
  assert (Hr : torch.reshape x (patch_shape self) = Ok patch_list)
    by (apply reshape_exact; assumption).
  assert (Hlen : len patch_list = batch * gh * gw) by reflexivity.
  assert (Hpos : 0 < len patch_list) by (rewrite Hlen; nia).
  destruct (@classify_patches_shape _ self (Z.to_nat (numel x)) patch_list Hsp
              eq_refl Hpos) as [preds [cl [Hc [Hs Hnp]]]].
  { intros limit Hl. split; [apply Hlim; exact Hl|].
    etransitivity; [apply n_chunks_le; apply (Hlim _ Hl)|].
    apply Z2Nat.inj_le; try lia. rewrite Hn, Hlen. nia. }
  set (grid := mkTensor [batch; gh; gw; n_classes self] (data preds)).
  assert (Hg : torch.reshape preds [gh; gw; n_classes self] = Ok grid).
  { apply reshape_exact.
    - repeat constructor; assumption.
    - rewrite Hnp, Hlen. cbn [prod fold_right]. lia. }
  assert (Hng : numel grid = batch * gh * gw * n_classes self).
  { unfold numel in *. cbn [grid data]. rewrite Hnp, Hlen. reflexivity. }
  destruct (@permute_round_trip _ grid batch gh gw (n_classes self) eq_refl)
    as [t [Hp [Hst [Hnt Hback]]]]; try lia.
  exists preds, cl, t. split; [exact Hc|]. split.
  { rewrite patch_predictions_stages, Hr. cbn [bind]. rewrite Hc. cbn [bind fst].
    rewrite Hgs. cbn [app]. rewrite Hg. cbn [bind]. exact Hp. }
  destruct (shape labels) as [|l0 [|l1 [|l2 [|l3 ls]]]] eqn:Hsl;
    try discriminate Hl3.
  cbn [nth] in Hl1, Hl2. subst l1 l2.
  unfold flatten_batch. rewrite Hst, Hsl. cbn [index nth_error bind].
  rewrite !Z.eqb_refl. cbn [negb]. rewrite Hback. cbn [bind grid shape last].
  rewrite (@reshape_exact _ grid [n_classes self] (batch * gh * gw)).
  2:{ repeat constructor. exact Hnc. }
  2:{ rewrite Hng. cbn [prod fold_right]. lia. }
  cbn [bind].
  rewrite (@reshape_exact _ labels [] (numel labels)).
  2:{ constructor. }
  2:{ cbn [prod fold_right]. lia. }
  cbn [bind grid data]. f_equal. f_equal.
  destruct preds as [sp dp]. cbn [shape data] in *. rewrite Hs, Hlen. reflexivity.
Qed.

Lemma flatten_batch_undoes_witness :
  exists t,
    patch_predictions (ex_net (Some 4)) ex_input = Ok t
    /\ flatten_batch t (mkTensor [3; 2; 1] [1; 0; 2; 0; 1; 1])
       = Ok (call ex_classifier ex_patch_list,
             mkTensor [6] [1; 0; 2; 0; 1; 1]).
Proof.
  destruct (@flatten_batch_undoes_patch_predictions _ (ex_net (Some 4)) 3 2 1
              ex_input (mkTensor [3; 2; 1] [1; 0; 2; 0; 1; 1]))
    as [preds [cl [t [Hc [Hp Hf]]]]].
  - repeat constructor.
  - reflexivity.
  - reflexivity.
  - reflexivity.
  - reflexivity.
  - reflexivity.
  - reflexivity.
  - intros limit H. injection H as <-. discriminate.
  - apply ex_classifier_scores_per_patch.
  - reflexivity.
  - reflexivity.
  - reflexivity.
  - exists t. split; [exact Hp|]. rewrite Hf.
    vm_compute in Hc. injection Hc as <- _. reflexivity.
Defined.

(** ** The training loop: what a phase needs *)

Section Phases.

Context {W G O L score : Type}.
Variable env : @collaborators W G L score.
Variable dataloaders : phase -> dataloader.
Variable outfile : option string.
Variable finetune : bool.
Variable accum_iters : Z.

Lemma run_phase_inv (epoch : nat) (ph : phase) (st st' : @train_state W G O) :
  run_phase env dataloaders outfile finetune accum_iters epoch ph st = Ok st' ->
  exists st1 run1 acc,
    batch_loop env ph accum_iters 0 (batches (dataloaders ph) epoch)
      (enter_phase finetune ph st, mkRunning [] None 0 [] []) = Ok (st1, run1)
    /\ dataset_len (dataloaders ph) <> 0
    /\ epoch_accuracy run1 = Ok acc
    /\ st' = keep_best ph acc outfile st1.
Proof.
  unfold run_phase.
  destruct (batch_loop _ _ _ _ _ _) as [[st1 run1]| |] eqn:Hloop; cbn [bind];
    try discriminate.
  destruct (Z.eqb_spec (dataset_len (dataloaders ph)) 0) as [|Hd]; [discriminate|].
  cbn [snd fst]. destruct (epoch_accuracy run1) as [acc| |] eqn:Ha; cbn [bind];
    try discriminate.
  intros H; injection H as <-. exists st1, run1, acc. auto.
Qed.

Lemma run_phase_needs_batches (epoch : nat) (ph : phase)
    (st st' : @train_state W G O) :
  run_phase env dataloaders outfile finetune accum_iters epoch ph st = Ok st' ->
  batches (dataloaders ph) epoch <> [].
Proof.
  intros Hrun Hb. apply run_phase_inv in Hrun.
  destruct Hrun as [st1 [run1 [acc [Hloop [_ [Hacc _]]]]]].
  rewrite Hb in Hloop. cbn [batch_loop] in Hloop. injection Hloop as _ <-.
  discriminate Hacc.
Qed.

(** X13: a phase whose loader yields no batch does not complete: the
    epoch loss divides by the size of the data set, a division by zero
    when that is 0; otherwise the accuracy is asked of the correct count,
    which is still the integer it was initialised with and has no
    [double] method. *)
Theorem phase_without_batches_fails (epoch : nat) (ph : phase)
    (st : @train_state W G O) :
  batches (dataloaders ph) epoch = [] ->
  run_phase env dataloaders outfile finetune accum_iters epoch ph st
  = Raise (if dataset_len (dataloaders ph) =? 0
           then ZeroDivisionError else AttributeError).
Proof.
  intros Hb. unfold run_phase. rewrite Hb.
  cbn [batch_loop bind snd running_corrects epoch_accuracy].
  destruct (_ =? 0); reflexivity.
Qed.

(** X14: with [accum_iters = 0] the first batch of a train phase that
    passes the forward pass raises a division by zero, in the test of the
    batch index. *)
Theorem zero_accum_iters_raises (epoch : nat) (st : @train_state W G O)
    (b : tensor Z * tensor Z) (bs : list (tensor Z * tensor Z)) :
  batches (dataloaders train) epoch = b :: bs ->
  (exists r, batch_forward env (fst b) (snd b)
               (the_model (enter_phase finetune train st)) = Ok r) ->
  run_phase env dataloaders outfile finetune 0 epoch train st
  = Raise ZeroDivisionError.
Proof.
  intros Hb [[o l] Hf]. unfold run_phase. rewrite Hb. cbn [batch_loop].
  unfold batch_step. destruct b as [inputs labels]. cbn [fst snd] in Hf.
  rewrite Hf. cbn [bind is_train]. unfold optimize. cbn [Z.eqb bind]. reflexivity.
Qed.

(** X15: a validation phase updates nothing: the weights, the gradients,
    both optimizers and what has been asked of them are after it what they
    were before; the model is left in evaluation mode. *)
Theorem validation_phase_updates_nothing (epoch : nat)
    (st st' : @train_state W G O) :
  run_phase env dataloaders outfile finetune accum_iters epoch val st = Ok st' ->
  state_dict (the_model st') = state_dict (the_model st)
  /\ grads (the_model st') = grads (the_model st)
  /\ classifier_requires_grad (the_model st')
     = classifier_requires_grad (the_model st)
  /\ training (the_model st') = false
  /\ the_optimizer st' = the_optimizer st
  /\ the_f_opt st' = the_f_opt st
  /\ events st' = events st.
Proof.
  intros Hrun. apply run_phase_val in Hrun. destruct Hrun as [acc ->].
  unfold keep_best, enter_phase. cbn [is_train negb andb best_acc].
  rewrite andb_false_r.
  destruct (acc_gt acc (best_acc st));
    cbn [the_model the_optimizer the_f_opt events state_dict grads training
         classifier_requires_grad];
    repeat split; reflexivity.
Qed.

End Phases.

Lemma phase_without_batches_witness :
  run_phase ex_env (fun _ => mkDataLoader 0 (fun _ => [])) None false 1 0%nat
    train ex_state = Raise ZeroDivisionError
  /\ run_phase ex_env (fun _ => mkDataLoader 1 (fun _ => [])) None false 1 0%nat
       val ex_state = Raise AttributeError.
Proof.
  split.
  - apply (@phase_without_batches_fails Z Z nat Z Z ex_env
             (fun _ => mkDataLoader 0 (fun _ => [])) None false 1 0%nat train
             ex_state eq_refl).
  - apply (@phase_without_batches_fails Z Z nat Z Z ex_env
             (fun _ => mkDataLoader 1 (fun _ => [])) None false 1 0%nat val
             ex_state eq_refl).
Defined.

Lemma zero_accum_iters_witness :
  run_phase ex_env (ex_loaders [1; 0]) None false 0 0%nat train ex_state
  = Raise ZeroDivisionError.
Proof.
  apply (@zero_accum_iters_raises Z Z nat Z Z ex_env (ex_loaders [1; 0]) None
           false 0%nat ex_state ex_batch [] eq_refl).
  eexists. reflexivity.
Defined.

Lemma validation_phase_updates_nothing_witness :
  exists st',
    run_phase ex_env (ex_loaders [1; 0]) (Some "out/model.pt"%string) false 1 0%nat
      val ex_state = Ok st'
    /\ state_dict (the_model st') = 1
    /\ the_optimizer st' = ex_optimizer
    /\ events st' = [].
Proof.
  exists (keep_best val (Acc 1) (Some "out/model.pt"%string)
            (enter_phase false val ex_state)).
  assert (H : run_phase ex_env (ex_loaders [1; 0]) (Some "out/model.pt"%string)
                false 1 0%nat val ex_state
              = Ok (keep_best val (Acc 1) (Some "out/model.pt"%string)
                      (enter_phase false val ex_state)))
    by (vm_compute; reflexivity).
  split; [exact H|].
  destruct (@validation_phase_updates_nothing Z Z nat Z Z ex_env
              (ex_loaders [1; 0]) (Some "out/model.pt"%string) false 1 0%nat
              ex_state _ H) as [Hs [_ [_ [_ [Ho [_ He]]]]]].
  split; [exact Hs|]. split; [exact Ho|exact He].
Defined.

(** ** Gradients left unapplied *)

Lemma pending_from_app (l l' : list event) (acc : nat) :
  pending_from (l ++ l') acc = pending_from l' (pending_from l acc).
Proof.
  revert acc. induction l as [|e l IH]; intros acc; [reflexivity|].
  destruct e as [|[|]|o]; cbn [app pending_from]; apply IH.
Qed.

Lemma pending_batch (a : Z) (has_f : bool) (i : Z) (acc : nat) :
  pending_from (batch_events a has_f i) acc
  = if i mod a =? 0 then 0%nat else S acc.
Proof.
  unfold batch_events. destruct (i mod a =? 0); [|reflexivity].
  destruct has_f; reflexivity.
Qed.

Lemma mod_succ (a n : Z) :
  1 <= a -> 0 <= n -> (n + 1) mod a <> 0 -> (n + 1) mod a = n mod a + 1.
Proof.
  intros Ha Hn Hne.
  pose proof (Z.mod_pos_bound n a ltac:(lia)) as Hb.
  pose proof (Z.div_mod n a ltac:(lia)) as Hd.
  destruct (Z.eq_dec (n mod a + 1) a) as [He|He].
  - exfalso. apply Hne. symmetry.
    apply (Z.mod_unique (n + 1) a (n / a + 1) 0); lia.
  - symmetry. apply (Z.mod_unique (n + 1) a (n / a) (n mod a + 1)); lia.
Qed.

(** After the [n >= 1] batches of a train phase, the backward passes since
    the last step are (n - 1) mod accum_iters, whatever was pending when
    the phase began. *)
Lemma pending_phase (a : Z) (has_f : bool) (n : nat) :
  1 <= a -> (1 <= n)%nat ->
  forall acc,
    pending_from (phase_events a has_f 0 n) acc
    = Z.to_nat ((Z.of_nat n - 1) mod a).
Proof.
  intros Ha Hn acc. destruct n as [|n]; [lia|clear Hn].
  induction n as [|n IH].
  - unfold phase_events. cbn [seq flat_map]. rewrite app_nil_r, pending_batch.
    cbn [Z.of_nat]. rewrite Zmod_0_l. reflexivity.
  - unfold phase_events in *. rewrite seq_S, flat_map_app, pending_from_app, IH.
    cbn [flat_map]. rewrite app_nil_r, pending_batch. cbn [Nat.add].
    replace (Z.of_nat (S (S n)) - 1) with (Z.of_nat (S n)) by lia.
    replace (Z.of_nat (S n) - 1) with (Z.of_nat n) by lia.
    destruct (Z.eqb_spec (Z.of_nat (S n) mod a) 0) as [Hz|Hz].
    + rewrite Hz. reflexivity.
    + replace (Z.of_nat (S n)) with (Z.of_nat n + 1) in * by lia.
      rewrite (mod_succ Ha) by (try lia; exact Hz).
      pose proof (Z.mod_pos_bound (Z.of_nat n) a ltac:(lia)). lia.
Qed.

Lemma accumulate_state_dict {W G L score} (env : @collaborators W G L score)
    (accum_iters : Z) (bs : list (tensor Z * tensor Z)) :
  forall m : @model W G,
    state_dict (accumulate env accum_iters bs m) = state_dict m.
Proof.
  unfold accumulate. induction bs as [|b bs IH]; intros m; cbn [fold_left];
    [reflexivity|].
  rewrite IH. reflexivity.
Qed.

(** X16: at the end of a train phase of [n >= 1] batches, with
    [accum_iters >= 1], the last step was made on batch n - 1 - r, where
    r = (n - 1) mod accum_iters; the r batches after it have only been
    backpropagated: the weights and the state of both optimizers are
    those that step left, and the gradients of these r batches are
    accumulated in the model, applied by no step. *)
Theorem gradients_left_unapplied
    {W G O L score} (env : @collaborators W G L score) (accum_iters : Z)
    (bs : list (tensor Z * tensor Z)) (st st' : @train_state W G O)
    (run run' : @running L score) :
  1 <= accum_iters -> bs <> [] ->
  batch_loop env train accum_iters 0 bs (st, run) = Ok (st', run') ->
  let n := length bs in
  let r := Z.to_nat ((Z.of_nat n - 1) mod accum_iters) in
  (r < n)%nat
  /\ Z.of_nat (n - r - 1) mod accum_iters = 0
  /\ exists st_s run_s,
       batch_loop env train accum_iters 0 (firstn (n - r) bs) (st, run)
       = Ok (st_s, run_s)
       /\ length (skipn (n - r) bs) = r
       /\ the_model st'
          = accumulate env accum_iters (skipn (n - r) bs) (the_model st_s)
       /\ state_dict (the_model st') = state_dict (the_model st_s)
       /\ the_optimizer st' = the_optimizer st_s
       /\ the_f_opt st' = the_f_opt st_s
       /\ pending_backwards (phase_events accum_iters (is_some (the_f_opt st)) 0 n)
          = r.
Proof.
  intros Ha Hne Hrun n r.
  assert (Hn : (1 <= n)%nat)
    by (subst n; destruct bs; [congruence|cbn [length]; lia]).
  pose proof (Z.mod_pos_bound (Z.of_nat n - 1) accum_iters ltac:(lia)) as Hb.
  pose proof (Z.div_mod (Z.of_nat n - 1) accum_iters ltac:(lia)) as Hd.
  assert (Hle : (Z.of_nat n - 1) mod accum_iters <= Z.of_nat n - 1)
    by (apply Z.mod_le; lia).
  assert (Hr : (r < n)%nat) by (subst r; lia).
  split; [exact Hr|]. split.
  { replace (Z.of_nat (n - r - 1))
      with (((Z.of_nat n - 1) / accum_iters) * accum_iters) by (subst r; lia).
    apply Z.mod_mul. lia. }
  rewrite <- (firstn_skipn (n - r) bs) in Hrun. rewrite batch_loop_app in Hrun.
  destruct (batch_loop env train accum_iters 0 (firstn (n - r) bs) (st, run))
    as [[st_s run_s]| |] eqn:H1; cbn [bind] in Hrun; try discriminate.
  exists st_s, run_s. split; [reflexivity|].
  assert (Hlen1 : length (firstn (n - r) bs) = (n - r)%nat)
    by (rewrite length_firstn; subst n; lia).
  assert (Hlen2 : length (skipn (n - r) bs) = r)
    by (rewrite length_skipn; subst n; lia).
  split; [exact Hlen2|].
  rewrite Hlen1 in Hrun. cbn [Z.add] in Hrun.
  apply batch_loop_between in Hrun.
  - destruct Hrun as [Hm [Ho Hf]]. split; [exact Hm|].
    split; [rewrite Hm; apply accumulate_state_dict|].
    split; [exact Ho|]. split; [exact Hf|].
    unfold pending_backwards. apply pending_phase; [exact Ha|exact Hn].
  - intros j Hj. rewrite Hlen2 in Hj. subst r.
    set (q := (Z.of_nat n - 1) / accum_iters) in *.
    assert (Hmod : Z.of_nat j mod accum_iters = Z.of_nat j - accum_iters * q).
    { symmetry. apply (Z.mod_unique _ _ q); [left; lia|lia]. }
    rewrite Hmod. lia.
Qed.

Lemma gradients_left_unapplied_witness :
  exists st' run',
    batch_loop ex_env train 2 0 [ex_batch; ex_batch; ex_batch; ex_batch]
      (ex_state, ex_running) = Ok (st', run')
    /\ the_model st'
       = accumulate ex_env 2 [ex_batch] (mkModel 4 0 false false)
    /\ grads (the_model st') = 1
    /\ opt_state (the_optimizer st') = 2%nat.
Proof.
  assert (Hex : exists st' run',
             batch_loop ex_env train 2 0 [ex_batch; ex_batch; ex_batch; ex_batch]
               (ex_state, ex_running) = Ok (st', run'))
    by (eexists; eexists; vm_compute; reflexivity).
  destruct Hex as [st' [run' H]]. exists st', run'.
  destruct (@gradients_left_unapplied _ _ _ _ _ ex_env 2
              [ex_batch; ex_batch; ex_batch; ex_batch] ex_state st' ex_running run'
              ltac:(discriminate) ltac:(discriminate) H)
    as [_ [_ [st_s [run_s [Hs [_ [Hm _]]]]]]].
  split; [exact H|].
  vm_compute in Hs. injection Hs as <- _.
  split; [exact Hm|].
  vm_compute in H. injection H as <- _. split; reflexivity.
Defined.

(** ** The accuracies of the epochs *)

Section Accuracy.

Context {W G O L score : Type}.
Variable env : @collaborators W G L score.

(** The labels a batch retains are as many as their first dimension says. *)
Lemma batch_forward_labels (inputs labels : tensor Z) (m : @model W G)
    (outputs : tensor score) (labels' : tensor Z) :
  batch_forward env inputs labels m = Ok (outputs, labels') ->
  len labels' = Z.of_nat (length (data labels')).
Proof.
  unfold batch_forward.
  destruct (flatten_batch _ labels) as [[o l]| |] eqn:Hf; cbn [bind]; try discriminate.
  cbn [fst snd]. apply flatten_batch_shapes in Hf. destruct Hf as [Hs [Hd _]].
  unfold mask_foreground.
  destruct (mask_select o (gt0 l)) as [o'| |]; cbn [bind]; try discriminate.
  rewrite (@retained_labels_filter l (numel labels) Hs)
    by (unfold numel; now rewrite Hd).
  cbn [bind]. intros H; injection H as _ <-.
  unfold len, decrement. cbn [shape data hd]. now rewrite length_map.
Qed.

Lemma corrects_range (preds : list Z) (labels : tensor Z) :
  0 <= corrects preds labels <= Z.of_nat (length (data labels)).
Proof.
  unfold corrects. split; [lia|]. apply inj_le.
  etransitivity; [apply filter_length_le|].
  rewrite length_combine. apply Nat.le_min_r.
Qed.

Lemma batch_step_counts (ph : phase) (accum_iters batch_ind : Z)
    (b : tensor Z * tensor Z) (st st' : @train_state W G O)
    (run run' : @running L score) :
  batch_step env ph accum_iters batch_ind b (st, run) = Ok (st', run') ->
  counts_in_range run -> counts_in_range run'.
Proof.
  unfold batch_step. destruct b as [inputs labels].
  destruct (batch_forward env inputs labels (the_model st)) as [[o l]| |] eqn:Hf;
    cbn [bind]; try discriminate.
  apply batch_forward_labels in Hf.
  destruct (if is_train ph then _ else _) as [st1| |]; cbn [bind]; try discriminate.
  intros H; injection H as _ <-. unfold counts_in_range.
  cbn [running_foreground running_corrects]. intros [Hfg Hc].
  pose proof (corrects_range (predictions env o) l) as Hr. rewrite <- Hf in Hr.
  destruct (running_corrects run); lia.
Qed.

Lemma batch_loop_counts (ph : phase) (accum_iters : Z)
    (bs : list (tensor Z * tensor Z)) :
  forall (batch_ind : Z) (st st' : @train_state W G O) (run run' : @running L score),
    batch_loop env ph accum_iters batch_ind bs (st, run) = Ok (st', run') ->
    counts_in_range run -> counts_in_range run'.
Proof.
  induction bs as [|b bs IH]; intros batch_ind st st' run run'; cbn [batch_loop].
  - intros H; injection H as _ <-. auto.
  - destruct (batch_step env ph accum_iters batch_ind b (st, run))
      as [[st1 run1]| |] eqn:Hs; cbn [bind]; try discriminate.
    intros Hl Hc. eapply IH; [exact Hl|]. eapply batch_step_counts; eassumption.
Qed.

Lemma epoch_accuracy_range (run : @running L score) (acc : accuracy) :
  epoch_accuracy run = Ok acc -> counts_in_range run -> in_unit_range acc.
Proof.
  unfold epoch_accuracy, counts_in_range.
  destruct (running_corrects run) as [c|]; [|discriminate].
  destruct (Z.eqb_spec (running_foreground run) 0) as [|Hne].
  - intros H; injection H as <-. intros _. exact I.
  - intros H; injection H as <-. intros [Hfg Hc]. cbn [in_unit_range].
    unfold Qle. cbn [Qnum Qden]. rewrite Z2Pos.id by lia. lia.
Qed.

Variable dataloaders : phase -> dataloader.
Variable outfile : option string.
Variable finetune : bool.
Variable accum_iters : Z.

Lemma run_phase_val_range (epoch : nat) (st st' : @train_state W G O) :
  run_phase env dataloaders outfile finetune accum_iters epoch val st = Ok st' ->
  exists acc,
    val_acc_history st' = val_acc_history st ++ [acc] /\ in_unit_range acc.
Proof.
  intros Hrun. apply run_phase_inv in Hrun.
  destruct Hrun as [st1 [run1 [acc [Hloop [_ [Hacc ->]]]]]].
  exists acc. split.
  - change 0 with (Z.of_nat 0) in Hloop. apply batch_loop_spec in Hloop.
    destruct Hloop as [_ [_ ->]].
    unfold keep_best. cbn [is_train negb andb].
    destruct (acc_gt acc _); reflexivity.
  - eapply epoch_accuracy_range; [exact Hacc|].
    eapply batch_loop_counts; [exact Hloop|].
    unfold counts_in_range. cbn. split; [lia|exact I].
Qed.

Lemma epoch_loop_range (epochs : list nat) :
  forall st st' : @train_state W G O,
    epoch_loop env dataloaders outfile finetune accum_iters epochs st = Ok st' ->
    Forall in_unit_range (val_acc_history st) ->
    Forall in_unit_range (val_acc_history st').
Proof.
  induction epochs as [|epoch rest IH]; intros st st'; cbn [epoch_loop].
  - intros H; injection H as <-. auto.
  - destruct (run_phase _ _ _ _ _ epoch train st) as [st1| |] eqn:Ht; cbn [bind];
      try discriminate.
    destruct (run_phase _ _ _ _ _ epoch val st1) as [st2| |] eqn:Hv; cbn [bind];
      try discriminate.
    intros Hrest Hall. apply (IH _ _ Hrest).
    apply run_phase_train in Ht. destruct Ht as [_ [_ [_ Hh]]].
    apply run_phase_val_range in Hv. destruct Hv as [acc [Hh2 Hacc]].
    rewrite Hh2, Hh. apply Forall_app. split; [exact Hall|].
    constructor; [exact Hacc|constructor].
Qed.

(** X17: every validation accuracy that [train_model] returns is a
    fraction between 0 and 1, or not a number (for an epoch without any
    foreground position): the correct predictions counted are among the
    foreground positions counted. *)
Theorem validation_accuracies_in_unit_range
    (m m' : @model W G) (opt : @optimizer W G O) (num_epochs : Z)
    (f_opt : option (@optimizer W G O)) (history : list accuracy) :
  train_model env m dataloaders opt num_epochs outfile f_opt finetune accum_iters
  = Ok (m', history) ->
  Forall in_unit_range history.
Proof.
  unfold train_model.
  destruct (train_model_epochs _ _ _ _ _ _ _ _ _) as [st| |] eqn:Hrun; cbn [bind];
    try discriminate.
  intros H; injection H as _ <-. unfold train_model_epochs in Hrun.
  apply epoch_loop_range in Hrun; [exact Hrun|constructor].
Qed.

(** ** The best accuracy *)

Lemma acc_gt_irrefl (a : accuracy) : acc_gt a a = false.
Proof.
  destruct a as [|x]; [reflexivity|]. cbn [acc_gt].
  apply negb_false_iff. apply Qle_bool_iff. apply Qle_refl.
Qed.

Lemma acc_gt_false_trans (a b c : accuracy) :
  acc_gt a b = false -> acc_gt c b = true -> acc_gt a c = false.
Proof.
  destruct a as [|x], b as [|y], c as [|z]; cbn [acc_gt]; try reflexivity;
    try discriminate.
  rewrite negb_false_iff, negb_true_iff. intros Hxy Hzy.
  apply negb_false_iff. apply Qle_bool_iff. apply Qle_bool_iff in Hxy.
  destruct (Qlt_le_dec y z) as [Hlt|Hle].
  - apply Qlt_le_weak. eapply Qle_lt_trans; eassumption.
  - apply Qle_bool_iff in Hle. congruence.
Qed.

Lemma acc_gt_trans (a b c : accuracy) :
  acc_gt a b = true -> acc_gt b c = true -> acc_gt a c = true.
Proof.
  destruct a as [|x], b as [|y], c as [|z]; cbn [acc_gt]; try discriminate.
  intros Hxy Hyz. apply acc_gt_spec. apply acc_gt_spec in Hxy, Hyz.
  eapply Qlt_trans; eassumption.
Qed.

Lemma epoch_loop_best (w0 : W) (epochs : list nat) :
  forall st st' : @train_state W G O,
    epoch_loop env dataloaders outfile finetune accum_iters epochs st = Ok st' ->
    best_so_far w0 st -> best_so_far w0 st'.
Proof.
  induction epochs as [|epoch rest IH]; intros st st'; cbn [epoch_loop].
  - intros H; injection H as <-. auto.
  - destruct (run_phase _ _ _ _ _ epoch train st) as [st1| |] eqn:Ht; cbn [bind];
      try discriminate.
    destruct (run_phase _ _ _ _ _ epoch val st1) as [st2| |] eqn:Hv; cbn [bind];
      try discriminate.
    intros Hrest Hinv. apply (IH _ _ Hrest). clear IH Hrest.
    apply run_phase_train in Ht. destruct Ht as [Hb [Hw [Hs Hh]]].
    apply run_phase_val_record in Hv.
    destruct Hv as [acc [Hh2 [_ [_ [Hyes Hno]]]]].
    unfold best_so_far in *. rewrite Hh2, Hh.
    destruct Hinv as [Hall Hor].
    destruct (acc_gt acc (best_acc st1)) eqn:Hgt.
    + destruct (Hyes eq_refl) as [Hb2 _]. rewrite Hb2. split.
      * apply Forall_app. split.
        -- eapply Forall_impl; [|exact Hall]. cbn beta. intros a Ha.
           eapply acc_gt_false_trans; [exact Ha|]. rewrite <- Hb. exact Hgt.
        -- constructor; [apply acc_gt_irrefl|constructor].
      * right. split; [apply in_or_app; right; left; reflexivity|].
        rewrite Hb in Hgt. destruct Hor as [[H0 _]|[_ Hpos]].
        -- rewrite <- H0. exact Hgt.
        -- eapply acc_gt_trans; eassumption.
    + destruct (Hno eq_refl) as [Hb2 [Hw2 Hs2]]. rewrite Hb2, Hw2, Hs2, Hb, Hw, Hs.
      split.
      * apply Forall_app. split; [exact Hall|].
        constructor; [rewrite <- Hb; exact Hgt|constructor].
      * destruct Hor as [H0|[Hin Hpos]]; [left; exact H0|right].
        split; [apply in_or_app; left; exact Hin|exact Hpos].
Qed.

(** X18: when training ends, no recorded validation accuracy is greater
    than the best accuracy kept; and that best accuracy is either the
    initial 0.0, with the snapshot still the initial weights and no file
    written, or one of the recorded accuracies, greater than 0.0. *)
Theorem best_accuracy_is_maximum
    (m : @model W G) (opt : @optimizer W G O) (num_epochs : Z)
    (f_opt : option (@optimizer W G O)) (st : @train_state W G O) :
  train_model_epochs env m dataloaders opt num_epochs outfile f_opt finetune
    accum_iters = Ok st ->
  Forall (fun a => acc_gt a (best_acc st) = false) (val_acc_history st)
  /\ ((best_acc st = Acc 0 /\ best_model_wts st = state_dict m /\ saved st = [])
      \/ (In (best_acc st) (val_acc_history st)
          /\ acc_gt (best_acc st) (Acc 0) = true)).
Proof.
  intros Hrun. unfold train_model_epochs in Hrun.
  apply (@epoch_loop_best (state_dict m)) in Hrun; [exact Hrun|].
  unfold best_so_far. cbn [val_acc_history best_acc best_model_wts saved].
  split; [constructor|]. left. repeat split; reflexivity.
Qed.

End Accuracy.

Lemma validation_accuracies_witness :
  exists m' history,
    train_model ex_env ex_model (ex_loaders [2; 2]) ex_optimizer 2 None None false 1
    = Ok (m', history)
    /\ history = [Acc (1 # 2); Acc (1 # 2)]
    /\ Forall in_unit_range history.
Proof.
  eexists. eexists. split; [vm_compute; reflexivity|]. split; [reflexivity|].
  refine (@validation_accuracies_in_unit_range Z Z nat Z Z ex_env
            (ex_loaders [2; 2]) None false 1 ex_model _ ex_optimizer 2 None _ _).
  vm_compute. reflexivity.
Defined.

Lemma best_accuracy_witness :
  exists st,
    train_model_epochs ex_env ex_model (ex_loaders [2; 2]) ex_optimizer 2
      None None false 1 = Ok st
    /\ best_acc st = Acc (1 # 2)
    /\ In (best_acc st) (val_acc_history st).
Proof.
  eexists. split; [vm_compute; reflexivity|]. split; [reflexivity|].
  destruct (@best_accuracy_is_maximum Z Z nat Z Z ex_env (ex_loaders [2; 2]) None
              false 1 ex_model ex_optimizer 2 None _ ltac:(vm_compute; reflexivity))
    as [_ [[H0 _]|[Hin _]]].
  - discriminate H0.
  - exact Hin.
Defined.

(** ** The modes of the model *)

Section Modes.

Context {W G O L score : Type}.
Variable env : @collaborators W G L score.
Variable dataloaders : phase -> dataloader.
Variable outfile : option string.
Variable finetune : bool.
Variable accum_iters : Z.

Lemma batch_loop_modes (ph : phase) (bs : list (tensor Z * tensor Z)) :
  forall (batch_ind : Z) (st st' : @train_state W G O) (run run' : @running L score),
    batch_loop env ph accum_iters batch_ind bs (st, run) = Ok (st', run') ->
    training (the_model st') = training (the_model st)
    /\ classifier_requires_grad (the_model st')
       = classifier_requires_grad (the_model st).
Proof.
  induction bs as [|b bs IH]; intros batch_ind st st' run run'; cbn [batch_loop].
  - intros H; injection H as <- _. split; reflexivity.
  - destruct (batch_step env ph accum_iters batch_ind b (st, run))
      as [[st1 run1]| |] eqn:Hs; cbn [bind]; try discriminate.
    intros Hl. destruct (IH _ _ _ _ _ Hl) as [-> ->]. clear IH Hl.
    unfold batch_step in Hs. destruct b as [inputs labels].
    destruct (batch_forward env inputs labels (the_model st)) as [[o l]| |];
      cbn [bind] in Hs; try discriminate.
    destruct ph; cbn [is_train bind] in Hs.
    + unfold optimize in Hs. destruct (accum_iters =? 0); [discriminate|].
      destruct (_ =? 0); [destruct (the_f_opt st)|];
        cbn [bind] in Hs; injection Hs as <- _; split; reflexivity.
    + injection Hs as <- _. split; reflexivity.
Qed.

Lemma run_phase_modes (epoch : nat) (ph : phase) (st st' : @train_state W G O) :
  run_phase env dataloaders outfile finetune accum_iters epoch ph st = Ok st' ->
  training (the_model st') = is_train ph
  /\ classifier_requires_grad (the_model st')
     = (finetune && is_train ph) || classifier_requires_grad (the_model st).
Proof.
  intros Hrun. apply run_phase_inv in Hrun.
  destruct Hrun as [st1 [run1 [acc [Hloop [_ [_ ->]]]]]].
  apply batch_loop_modes in Hloop. destruct Hloop as [Ht Hc].
  assert (Hk : the_model (keep_best ph acc outfile st1) = the_model st1).
  { unfold keep_best. destruct (negb (is_train ph)); cbn [andb];
      [destruct (acc_gt _ _)|]; reflexivity. }
  rewrite Hk, Ht, Hc. cbn [enter_phase the_model training classifier_requires_grad].
  split; [reflexivity|]. destruct (finetune && is_train ph); reflexivity.
Qed.

Lemma epoch_loop_modes (epochs : list nat) :
  forall st st' : @train_state W G O,
    epoch_loop env dataloaders outfile finetune accum_iters epochs st = Ok st' ->
    epochs <> [] ->
    training (the_model st') = false
    /\ classifier_requires_grad (the_model st')
       = finetune || classifier_requires_grad (the_model st).
Proof.
  induction epochs as [|epoch rest IH]; intros st st'; cbn [epoch_loop];
    [congruence|].
  destruct (run_phase _ _ _ _ _ epoch train st) as [st1| |] eqn:Ht; cbn [bind];
    try discriminate.
  destruct (run_phase _ _ _ _ _ epoch val st1) as [st2| |] eqn:Hv; cbn [bind];
    try discriminate.
  intros Hrest _. apply run_phase_modes in Ht, Hv.
  destruct Ht as [_ Hc1]. destruct Hv as [Ht2 Hc2].
  cbn [is_train] in *. rewrite andb_false_r in Hc2. rewrite andb_true_r in Hc1.
  cbn [orb] in Hc2.
  destruct rest as [|e rest'].
  - cbn [epoch_loop] in Hrest. injection Hrest as <-. split; congruence.
  - destruct (IH _ _ Hrest ltac:(discriminate)) as [-> ->].
    split; [reflexivity|]. rewrite Hc2, Hc1. destruct finetune; reflexivity.
Qed.

(** X19: without epochs, [train_model] returns the model as it is and no
    accuracy; after at least one epoch the model it returns is in
    evaluation mode, and the parameters of its patch classifier are
    trainable if they were before or if fine-tuning was asked for: what
    the train phases switch on is not switched off again. *)
Theorem fine_tuning_is_not_switched_off
    (m : @model W G) (opt : @optimizer W G O) (num_epochs : Z)
    (f_opt : option (@optimizer W G O)) :
  (num_epochs <= 0 ->
   train_model env m dataloaders opt num_epochs outfile f_opt finetune accum_iters
   = Ok (m, []))
  /\ (0 < num_epochs ->
      forall m' history,
        train_model env m dataloaders opt num_epochs outfile f_opt finetune
          accum_iters = Ok (m', history) ->
        training m' = false
        /\ classifier_requires_grad m'
           = finetune || classifier_requires_grad m).
Proof.
  unfold train_model, train_model_epochs. split.
  - intros HN. replace (Z.to_nat num_epochs) with 0%nat by lia.
    cbn [seq epoch_loop bind the_model best_model_wts val_acc_history].
    destruct m; reflexivity.
  - intros HN m' history.
    destruct (epoch_loop _ _ _ _ _ _ _) as [st| |] eqn:Hrun; cbn [bind];
      try discriminate.
    intros H; injection H as <- _.
    apply epoch_loop_modes in Hrun.
    + cbn [the_model] in Hrun. exact Hrun.
    + destruct (Z.to_nat num_epochs) eqn:Hn; [lia|discriminate].
Qed.

End Modes.

Lemma fine_tuning_witness :
  exists m' history,
    train_model ex_env ex_model (ex_loaders [2; 2]) ex_optimizer 1 None None true 1
    = Ok (m', history)
    /\ training m' = false /\ classifier_requires_grad m' = true.
Proof.
  eexists. eexists. split; [vm_compute; reflexivity|].
  refine (proj2 (@fine_tuning_is_not_switched_off Z Z nat Z Z ex_env
                   (ex_loaders [2; 2]) None true 1 ex_model ex_optimizer 1 None)
            _ _ _ _).
  - reflexivity.
  - vm_compute. reflexivity.
Defined.

(** ** The file the weights are written to *)

Lemma append_cancel_l (s a b : string) : (s ++ a)%string = (s ++ b)%string -> a = b.
Proof.
  induction s as [|c s IH]; cbn [String.append]; [auto|].
  intros H. injection H as H. auto.
Qed.

(** X20: after an improving validation epoch the file at the output path
    holds the weights of the model, unless the extension of the path is
    ".opt": then the optimizer state, written second to the same path,
    has replaced them. *)
Theorem outfile_holds_weights_unless_opt
    {W G O} (path : string) (acc : accuracy) (st : @train_state W G O) :
  acc_gt acc (best_acc st) = true ->
  last_write path (saved (keep_best val acc (Some path) st))
  = Some (if String.eqb (snd (os_path.splitext path)) ".opt"
          then match the_f_opt st with
               | Some f =>
                   OptimizerStates [("g_opt"%string, opt_state (the_optimizer st));
                                    ("f_opt"%string, opt_state f)]
               | None => OptimizerState (opt_state (the_optimizer st))
               end
          else ModelState (state_dict (the_model st))).
Proof.
  intros Hgt. unfold keep_best. cbn [is_train negb andb]. rewrite Hgt.
  cbn [saved]. unfold last_write. rewrite fold_left_app.
  cbn [fold_left fst snd]. rewrite String.eqb_refl.
  pose proof (splitext_join path) as Hj.
  destruct (String.eqb_spec (fst (os_path.splitext path) ++ ".opt") path)
    as [He|He];
    destruct (String.eqb_spec (snd (os_path.splitext path)) ".opt") as [Hs|Hs];
    try reflexivity; exfalso.
  - apply Hs. rewrite <- Hj in He at 2. apply append_cancel_l in He. now symmetry.
  - apply He. rewrite <- Hs. exact Hj.
Qed.

Lemma outfile_holds_weights_witness :
  last_write "weights.opt"%string
    (saved (keep_best val (Acc 1) (Some "weights.opt"%string) ex_state))
  = Some (OptimizerState 0%nat)
  /\ last_write "weights.pt"%string
       (saved (keep_best val (Acc 1) (Some "weights.pt"%string) ex_state))
     = Some (ModelState 1).
Proof.
  split.
  - exact (@outfile_holds_weights_unless_opt Z Z nat "weights.opt"%string (Acc 1)
             ex_state eq_refl).
  - exact (@outfile_holds_weights_unless_opt Z Z nat "weights.pt"%string (Acc 1)
             ex_state eq_refl).
Defined.
